(** * vdo-translater: the resumable, checkpointed segment-processing engine

    A shallow embedding of the parts of
    - [scripts/whisper_transcribe.py]  (checkpoints, batches, progress, resume),
    - [kaggle/checkpoint_manager.py]   (numbered checkpoint files),
    - [src/translation_pipeline.py]    (cache, routing, translation, SRT),
    - [src/config.py]                  (enumerations and defaults)
    that the specification talks about, followed by the properties that were
    checked against them.

    Conventions.
    - A Python [str] is represented by its UTF-8 encoding, a [string] of
      bytes: [encode] is then the identity on bytes, [in] is substring search
      (UTF-8 is self-synchronising) and [len] counts code points.
    - A Python [float] is idealised as a rational of [Q]; the decimal
      literals of the source are the corresponding fractions.  Where a text
      is made from the digits of a float (the SRT timestamps) the
      arithmetic is that of binary64, with its rounding written out.
    - A Python [int] is a [Z]; a count or an index that is never negative is
      a [nat].
    - An exception that leaves a function is [None] in an [option] result,
      or a [Raise] where the kind of exception matters.
    - A [dict] used as a map is a [gmap]; a JSON object keeps the order of
      its items.  The file system is a map from paths to files.
    - The speech model, the OpenAI client, the dictionary manager, the clock
      and the user are collaborators: what they answer is an argument. *)

From Stdlib Require Import ZArith QArith Qround Qminmax List String Ascii Bool Lia.
From Stdlib Require Import Sorting.Sorted Sorting.Permutation.
From stdpp Require Import base option list gmap strings sorting.

Local Set Warnings "-register-all".
Local Close Scope Q_scope.
Local Open Scope list_scope.
Local Open Scope string_scope.
Local Open Scope Z_scope.

(* ===================================================================== *)
(** * Python strings *)
(* ===================================================================== *)

Module PyStr.

Definition byte_of (c : ascii) : Z := Z.of_N (N_of_ascii c).

(** [s.encode()]: the UTF-8 bytes. *)
Definition encode (s : string) : list Z := map byte_of (list_ascii_of_string s).

(** A continuation byte of a multi-byte UTF-8 sequence is [10xxxxxx]. *)
Definition is_continuation (c : ascii) : bool :=
  (128 <=? byte_of c) && (byte_of c <? 192).

(** [len(s)]: the number of code points. *)
Fixpoint len (s : string) : nat :=
  match s with
  | EmptyString => 0%nat
  | String c s' => if is_continuation c then len s' else S (len s')
  end.

(** [pat in s]. *)
Fixpoint contains (pat s : string) : bool :=
  String.prefix pat s ||
  match s with
  | EmptyString => false
  | String _ s' => contains pat s'
  end.

(** Drop the continuation bytes that complete the current code point. *)
Fixpoint skip_continuation (s : string) : string :=
  match s with
  | String c s' => if is_continuation c then skip_continuation s' else s
  | EmptyString => EmptyString
  end.

(** [s[:n]]: the first [n] code points. *)
Fixpoint take (n : nat) (s : string) : string :=
  match n, s with
  | O, _ => EmptyString
  | _, EmptyString => EmptyString
  | S n', String c s' =>
      let k := (String.length s' - String.length (skip_continuation s'))%nat in
      String c (substring 0 k s' ++ take n' (skip_continuation s'))
  end.

(** The white space of [str.split()] and [str.strip()]: when [s] starts
    with a white-space code point, the rest of [s] after it. *)
Definition after_space (s : string) : option string :=
  match s with
  | EmptyString => None
  | String c s1 =>
      let b := byte_of c in
      if ((9 <=? b) && (b <=? 13)) || ((28 <=? b) && (b <=? 32)) then Some s1
      else match s1 with
      | EmptyString => None
      | String c1 s2 =>
          let b1 := byte_of c1 in
          if (b =? 194) && ((b1 =? 133) || (b1 =? 160)) then Some s2
          else match s2 with
          | EmptyString => None
          | String c2 s3 =>
              let b2 := byte_of c2 in
              if ((b =? 225) && (b1 =? 154) && (b2 =? 128))
                 || ((b =? 226) && (b1 =? 128)
                     && (((128 <=? b2) && (b2 <=? 138)) || (b2 =? 168)
                         || (b2 =? 169) || (b2 =? 175)))
                 || ((b =? 226) && (b1 =? 129) && (b2 =? 159))
                 || ((b =? 227) && (b1 =? 128) && (b2 =? 128))
              then Some s3 else None
          end
      end
  end.

Fixpoint all_space (fuel : nat) (s : string) : bool :=
  match fuel with
  | O => false
  | S fuel' =>
      match s with
      | EmptyString => true
      | _ => match after_space s with
             | Some rest => all_space fuel' rest
             | None => false
             end
      end
  end.

Fixpoint lstrip_go (fuel : nat) (s : string) : string :=
  match fuel with
  | O => s
  | S fuel' => match after_space s with
               | Some rest => lstrip_go fuel' rest
               | None => s
               end
  end.

Fixpoint rstrip (s : string) : string :=
  match s with
  | EmptyString => EmptyString
  | String c s' => if all_space (S (String.length s)) s then EmptyString
                   else String c (rstrip s')
  end.

(** [s.strip()]. *)
Definition strip (s : string) : string :=
  rstrip (lstrip_go (String.length s) s).

(** [s.split()]: the maximal runs of non-space characters.  [fuel] bounds
    the number of bytes looked at; [word] is the run being read, reversed. *)
Fixpoint split_go (fuel : nat) (s : string) (word : list ascii) : list string :=
  let flush := match word with
               | [] => []
               | _ => [string_of_list_ascii (rev word)]
               end in
  match fuel with
  | O => flush
  | S fuel' =>
      match after_space s with
      | Some rest => (flush ++ split_go fuel' rest [])%list
      | None =>
          match s with
          | EmptyString => flush
          | String c s' => split_go fuel' s' (c :: word)
          end
      end
  end.

Definition split (s : string) : list string :=
  split_go (S (String.length s)) s [].

(** [sep.join(parts)]. *)
Fixpoint join (sep : string) (parts : list string) : string :=
  match parts with
  | [] => ""
  | [p] => p
  | p :: rest => p ++ sep ++ join sep rest
  end.

Definition digit (d : Z) : ascii := ascii_of_N (Z.to_N (48 + d)).

Fixpoint digits_go (fuel : nat) (n : Z) (acc : string) : string :=
  match fuel with
  | O => acc
  | S fuel' =>
      let acc' := String (digit (n mod 10)) acc in
      if n <? 10 then acc' else digits_go fuel' (n / 10) acc'
  end.

(** [str(n)] of an integer. *)
Definition of_int (n : Z) : string :=
  if n <? 0 then "-" ++ digits_go (Z.to_nat (Z.log2 (- n) + 1)) (- n) ""
  else digits_go (Z.to_nat (Z.log2 n + 1)) n "".

Fixpoint zeros (k : nat) : string :=
  match k with O => "" | S k' => String "0" (zeros k') end.

(** [f"{n:0wd}"]: the sign, then zeros up to width [w]. *)
Definition of_int_pad (w : nat) (n : Z) : string :=
  if n <? 0
  then let d := of_int (- n) in "-" ++ zeros (w - 1 - String.length d) ++ d
  else let d := of_int n in zeros (w - String.length d) ++ d.

End PyStr.

(* ===================================================================== *)
(** * Python floats *)
(* ===================================================================== *)

(** The arithmetic of CPython on finite binary64 numbers, each given by the
    rational it is: the operations that are exact are those of [Q], the
    others round their exact result to the nearest binary64 number, ties to
    even.  Overflow, infinities and NaN are outside this model. *)
Module PyFloat.

(** [2 ** e]. *)
Definition pow2 (e : Z) : Q :=
  if 0 <=? e then inject_Z (2 ^ e) else (1 # Z.to_pos (2 ^ (- e)))%Q.

(** The exponent [e] with [2 ** e <= q < 2 ** (e + 1)], for [q > 0]. *)
Definition ilog2 (q : Q) : Z :=
  let e := Z.log2 (Qnum q) - Z.log2 (Zpos (Qden q)) in
  if Qle_bool (pow2 e) q then e else e - 1.

(** The nearest integer, ties to even. *)
Definition round_half_even (q : Q) : Z :=
  let f := Qfloor q in
  match Qcompare (q - inject_Z f) (1 # 2) with
  | Lt => f
  | Gt => f + 1
  | Eq => if Z.even f then f else f + 1
  end.

(** Rounding to binary64: 53 significant bits, and steps of [2 ** -1074]
    among the subnormal numbers.  It is also the value of a decimal
    literal. *)
Definition rn (q : Q) : Q :=
  if Qeq_bool q 0 then 0%Q
  else
    let a := if Qle_bool 0 q then q else (- q)%Q in
    let u := Z.max (ilog2 a - 52) (-1074) in
    let r := (inject_Z (round_half_even (a / pow2 u)) * pow2 u)%Q in
    Qred (if Qle_bool 0 q then r else (- r)%Q).

(** [int(x)]: truncation towards zero. *)
Definition trunc (x : Q) : Z := if Qle_bool 0 x then Qfloor x else - Qfloor (- x).

(** [a < b]. *)
Definition lt (a b : Q) : bool := negb (Qle_bool b a).

(** C's [fmod], which is exact: the result has the sign of [x]. *)
Definition fmod (x w : Q) : Q := Qred (x - w * inject_Z (trunc (x / w)))%Q.

(** [vx % wx] ([float_rem]), for [wx] other than zero: the remainder of
    [fmod], moved by [wx] when its sign is not that of [wx]. *)
Definition rem (vx wx : Q) : Q :=
  let m := fmod vx wx in
  if negb (Qeq_bool m 0) && negb (Bool.eqb (lt wx 0) (lt m 0)) then rn (m + wx) else m.

(** [vx // wx] ([_float_div_mod]), for [wx] other than zero: the quotient
    [(vx - mod) / wx], one less when the remainder was moved, snapped to the
    nearest integral value. *)
Definition floordiv (vx wx : Q) : Q :=
  let m := fmod vx wx in
  let div := rn (rn (vx - m) / wx) in
  let div :=
    if negb (Qeq_bool m 0) && negb (Bool.eqb (lt wx 0) (lt m 0)) then rn (div - 1) else div in
  if Qeq_bool div 0 then 0%Q
  else
    let fl := inject_Z (Qfloor div) in
    if lt (1 # 2) (rn (div - fl)) then rn (fl + 1) else fl.

(** [a * b]. *)
Definition mul (a b : Q) : Q := rn (a * b).

End PyFloat.

(* ===================================================================== *)
(** * hashlib.md5 (RFC 1321) *)
(* ===================================================================== *)

Module MD5.

Definition w32 (x : Z) : Z := x mod 2 ^ 32.

Definition rotl (x c : Z) : Z :=
  w32 (Z.lor (Z.shiftl x c) (Z.shiftr x (32 - c))).

Definition not32 (x : Z) : Z := Z.lxor x 0xFFFFFFFF.

Definition K : list Z :=
  [ 0xd76aa478; 0xe8c7b756; 0x242070db; 0xc1bdceee;
    0xf57c0faf; 0x4787c62a; 0xa8304613; 0xfd469501;
    0x698098d8; 0x8b44f7af; 0xffff5bb1; 0x895cd7be;
    0x6b901122; 0xfd987193; 0xa679438e; 0x49b40821;
    0xf61e2562; 0xc040b340; 0x265e5a51; 0xe9b6c7aa;
    0xd62f105d; 0x02441453; 0xd8a1e681; 0xe7d3fbc8;
    0x21e1cde6; 0xc33707d6; 0xf4d50d87; 0x455a14ed;
    0xa9e3e905; 0xfcefa3f8; 0x676f02d9; 0x8d2a4c8a;
    0xfffa3942; 0x8771f681; 0x6d9d6122; 0xfde5380c;
    0xa4beea44; 0x4bdecfa9; 0xf6bb4b60; 0xbebfbc70;
    0x289b7ec6; 0xeaa127fa; 0xd4ef3085; 0x04881d05;
    0xd9d4d039; 0xe6db99e5; 0x1fa27cf8; 0xc4ac5665;
    0xf4292244; 0x432aff97; 0xab9423a7; 0xfc93a039;
    0x655b59c3; 0x8f0ccc92; 0xffeff47d; 0x85845dd1;
    0x6fa87e4f; 0xfe2ce6e0; 0xa3014314; 0x4e0811a1;
    0xf7537e82; 0xbd3af235; 0x2ad7d2bb; 0xeb86d391 ].

Definition shifts : list Z :=
  [ 7; 12; 17; 22; 7; 12; 17; 22; 7; 12; 17; 22; 7; 12; 17; 22;
    5;  9; 14; 20; 5;  9; 14; 20; 5;  9; 14; 20; 5;  9; 14; 20;
    4; 11; 16; 23; 4; 11; 16; 23; 4; 11; 16; 23; 4; 11; 16; 23;
    6; 10; 15; 21; 6; 10; 15; 21; 6; 10; 15; 21; 6; 10; 15; 21 ].

(** Little-endian bytes of a [k]-byte word. *)
Fixpoint le_bytes (k : nat) (x : Z) : list Z :=
  match k with
  | O => []
  | S k' => (x mod 256) :: le_bytes k' (x / 256)
  end.

Fixpoint le_word (bs : list Z) : Z :=
  match bs with
  | [] => 0
  | b :: bs' => b + 256 * le_word bs'
  end.

(** The message, a single 1 bit, zeros up to 56 mod 64, the bit length. *)
Definition pad (msg : list Z) : list Z :=
  let n := Z.of_nat (length msg) in
  let z := Z.to_nat ((55 - n) mod 64) in
  (msg ++ [128] ++ repeat 0 z ++ le_bytes 8 ((8 * n) mod 2 ^ 64))%list.

Fixpoint words (k : nat) (bs : list Z) : list Z :=
  match k with
  | O => []
  | S k' => le_word (firstn 4 bs) :: words k' (skipn 4 bs)
  end.

Record state := { A : Z; B : Z; C : Z; D : Z }.

Definition init : state :=
  {| A := 0x67452301; B := 0xefcdab89; C := 0x98badcfe; D := 0x10325476 |}.

Definition step (M : list Z) (s : state) (i : Z) : state :=
  let '(f, g) :=
    if i <? 16 then
      (Z.lor (Z.land (B s) (C s)) (Z.land (not32 (B s)) (D s)), i)
    else if i <? 32 then
      (Z.lor (Z.land (D s) (B s)) (Z.land (not32 (D s)) (C s)), (5 * i + 1) mod 16)
    else if i <? 48 then
      (Z.lxor (Z.lxor (B s) (C s)) (D s), (3 * i + 5) mod 16)
    else
      (Z.lxor (C s) (Z.lor (B s) (not32 (D s))), (7 * i) mod 16) in
  let f' := w32 (f + A s + nth (Z.to_nat i) K 0 + nth (Z.to_nat g) M 0) in
  {| A := D s; D := C s; C := B s;
     B := w32 (B s + rotl f' (nth (Z.to_nat i) shifts 0)) |}.

Definition block (s : state) (bs : list Z) : state :=
  let M := words 16 bs in
  let s' := fold_left (step M) (map Z.of_nat (seq 0 64)) s in
  {| A := w32 (A s + A s'); B := w32 (B s + B s');
     C := w32 (C s + C s'); D := w32 (D s + D s') |}.

Fixpoint blocks (n : nat) (s : state) (bs : list Z) : state :=
  match n with
  | O => s
  | S n' => blocks n' (block s (firstn 64 bs)) (skipn 64 bs)
  end.

Definition digest (msg : list Z) : list Z :=
  let p := pad msg in
  let s := blocks (length p / 64) init p in
  (le_bytes 4 (A s) ++ le_bytes 4 (B s) ++ le_bytes 4 (C s) ++ le_bytes 4 (D s))%list.

Definition hex_digit (d : Z) : ascii :=
  if d <? 10 then ascii_of_N (Z.to_N (48 + d)) else ascii_of_N (Z.to_N (87 + d)).

Fixpoint hex (bs : list Z) : string :=
  match bs with
  | [] => ""
  | b :: bs' => String (hex_digit (b / 16)) (String (hex_digit (b mod 16)) (hex bs'))
  end.

(** [hashlib.md5(bytes).hexdigest()]. *)
Definition hexdigest (msg : list Z) : string := hex (digest msg).

End MD5.

(* ===================================================================== *)
(** * JSON values and files *)
(* ===================================================================== *)

Module Json.

(** The values [json.dump] writes and [json.load] returns. *)
Inductive json : Type :=
| JNull
| JBool (b : bool)
| JInt (n : Z)
| JFloat (q : Q)
| JStr (s : string)
| JList (l : list json)
| JDict (d : list (string * json)).

(** [d.get(k)] on the items of a dict. *)
Fixpoint get (k : string) (d : list (string * json)) : option json :=
  match d with
  | [] => None
  | (k', v) :: d' => if String.eqb k k' then Some v else get k d'
  end.

(** [d[k] = v]: an existing key keeps its position, a new one goes last. *)
Fixpoint set (k : string) (v : json) (d : list (string * json)) : list (string * json) :=
  match d with
  | [] => [(k, v)]
  | (k', v') :: d' => if String.eqb k k' then (k, v) :: d' else (k', v') :: set k v d'
  end.

(** The number of chunks the encoder hands to [fp.write]: one per scalar,
    an opening and a closing one around the items of a list or dict, and one
    per key. *)
Fixpoint chunks (j : json) : nat :=
  match j with
  | JList l =>
      2 + (fix go (l : list json) : nat :=
             match l with [] => 0 | x :: r => chunks x + go r end) l
  | JDict d =>
      2 + (fix go (d : list (string * json)) : nat :=
             match d with [] => 0 | (_, v) :: r => 1 + chunks v + go r end) d
  | _ => 1
  end%nat.

End Json.

Module FS.
Import Json.

(** A file that is being, or has been, written by [json.dump]: it holds the
    first [written] chunks of the text of [payload]; [mtime] is the logical
    time of the last write. *)
Record file := { payload : json; written : nat; mtime : nat }.

(** A directory tree: path to file. *)
Abbreviation disk := (gmap string file).

Definition complete (f : file) : bool := (chunks (payload f) <=? written f)%nat.

(** [json.load]: a proper prefix of a document does not parse
    ([JSONDecodeError]). *)
Definition json_load (f : file) : option json :=
  if complete f then Some (payload f) else None.

(** [open(path, 'w')]: creates the file or truncates it. *)
Definition open_w (path : string) (j : json) (now : nat) (d : disk) : disk :=
  <[path := {| payload := j; written := 0; mtime := now |}]> d.

(** One [fp.write(chunk)] reaching the file. *)
Definition write_chunk (path : string) (d : disk) : disk :=
  match d !! path with
  | Some f => <[path := {| payload := payload f; written := S (written f); mtime := mtime f |}]> d
  | None => d
  end.

(** [src.replace(dst)]: the atomic rename of POSIX. *)
Definition replace (src dst : string) (d : disk) : disk :=
  match d !! src with
  | Some f => <[dst := f]> (delete src d)
  | None => d
  end.

(** The whole of [json.dump(j, open(path, 'w'))]. *)
Definition write_file (path : string) (j : json) (now : nat) (d : disk) : disk :=
  <[path := {| payload := j; written := chunks j; mtime := now |}]> d.

Definition starts_with (p s : string) : bool := String.prefix p s.

Definition ends_with (p s : string) : bool :=
  let n := String.length s in
  let k := String.length p in
  (k <=? n)%nat && String.eqb (substring (n - k) k s) p.

(** [dir.glob(prefix + "*" + suffix)]: the names that match, the star standing
    for any text without a path separator. *)
Definition glob (prefix suffix : string) (d : disk) : list string :=
  List.filter
    (fun n =>
       starts_with prefix n && ends_with suffix n
       && (String.length prefix + String.length suffix <=? String.length n)%nat
       && negb (PyStr.contains "/"
                  (substring (String.length prefix)
                     (String.length n - String.length prefix - String.length suffix) n)))
    (map fst (map_to_list d)).

(** Insertion of a name in a list sorted by [String.leb]. *)
Fixpoint insert_name (n : string) (l : list string) : list string :=
  match l with
  | [] => [n]
  | m :: l' => if String.leb n m then n :: l else m :: insert_name n l'
  end.

(** [sorted(names)]. *)
Definition sorted_names (l : list string) : list string :=
  fold_right insert_name [] l.

End FS.

(* ===================================================================== *)
(** * scripts/whisper_transcribe.py *)
(* ===================================================================== *)

Module Whisper.
Import Json FS.

(** ** Data structures *)

(** An item of [TranscriptSegment.words]. *)
Record WordInfo := {
  word : string;
  w_start : Q;
  w_end : Q;
  probability : Q
}.

Record TranscriptSegment := {
  id : Z;
  start : Q;
  end_ : Q;
  text : string;
  confidence : Q;
  words : option (list WordInfo)
}.

Record TranscriptResult := {
  language : string;
  duration : Q;
  segments : list TranscriptSegment;
  full_text : string;
  word_count : nat;
  average_confidence : Q;
  tr_model_name : string;
  timestamp : string
}.

Record CheckpointData := {
  video_file : string;
  video_hash : string;
  model : string;
  device : string;
  start_time : option Q;
  end_time : option Q;
  last_segment_id : Z;
  last_timestamp : Q;
  total_segments : Z;
  created_at : string;
  last_updated : string;
  start_timestamp : Q;
  speed : Q
}.

(** ** JSON forms *)

Definition as_float (j : json) : option Q :=
  match j with
  | JFloat q => Some q
  | JInt n => Some (inject_Z n)
  | _ => None
  end.

Definition as_int (j : json) : option Z :=
  match j with JInt n => Some n | _ => None end.

Definition as_str (j : json) : option string :=
  match j with JStr s => Some s | _ => None end.

Definition as_opt_float (j : json) : option (option Q) :=
  match j with
  | JNull => Some None
  | _ => q ← as_float j; Some (Some q)
  end.

Definition opt_float (o : option Q) : json :=
  match o with Some q => JFloat q | None => JNull end.

(** [asdict(data)], in the order of the fields. *)
Definition asdict (c : CheckpointData) : json :=
  JDict [ ("video_file", JStr (video_file c));
          ("video_hash", JStr (video_hash c));
          ("model", JStr (model c));
          ("device", JStr (device c));
          ("start_time", opt_float (start_time c));
          ("end_time", opt_float (end_time c));
          ("last_segment_id", JInt (last_segment_id c));
          ("last_timestamp", JFloat (last_timestamp c));
          ("total_segments", JInt (total_segments c));
          ("created_at", JStr (created_at c));
          ("last_updated", JStr (last_updated c));
          ("start_timestamp", JFloat (start_timestamp c));
          ("speed", JFloat (speed c)) ].

Definition checkpoint_fields : list string :=
  [ "video_file"; "video_hash"; "model"; "device"; "start_time"; "end_time";
    "last_segment_id"; "last_timestamp"; "total_segments"; "created_at";
    "last_updated"; "start_timestamp"; "speed" ].

(** [CheckpointData] built from the keywords of a dict: [None] is the [TypeError] of an unexpected or
    a missing keyword, or a value of another type than the field's; [speed]
    alone has a default. *)
Definition from_dict (j : json) : option CheckpointData :=
  match j with
  | JDict d =>
      if forallb (fun kv => existsb (String.eqb (fst kv)) checkpoint_fields) d then
        vf ← get "video_file" d ≫= as_str;
        vh ← get "video_hash" d ≫= as_str;
        mo ← get "model" d ≫= as_str;
        de ← get "device" d ≫= as_str;
        st ← get "start_time" d ≫= as_opt_float;
        en ← get "end_time" d ≫= as_opt_float;
        ls ← get "last_segment_id" d ≫= as_int;
        lt ← get "last_timestamp" d ≫= as_float;
        ts ← get "total_segments" d ≫= as_int;
        ca ← get "created_at" d ≫= as_str;
        lu ← get "last_updated" d ≫= as_str;
        sts ← get "start_timestamp" d ≫= as_float;
        sp ← match get "speed" d with
             | Some v => as_float v
             | None => Some 0%Q
             end;
        Some {| video_file := vf; video_hash := vh; model := mo; device := de;
                start_time := st; end_time := en; last_segment_id := ls;
                last_timestamp := lt; total_segments := ts; created_at := ca;
                last_updated := lu; start_timestamp := sts; speed := sp |}
      else None
  | _ => None
  end.

Definition word_to_json (w : WordInfo) : json :=
  JDict [ ("word", JStr (word w)); ("start", JFloat (w_start w));
          ("end", JFloat (w_end w)); ("probability", JFloat (probability w)) ].

Definition word_of_json (j : json) : option WordInfo :=
  match j with
  | JDict d =>
      w ← get "word" d ≫= as_str;
      s ← get "start" d ≫= as_float;
      e ← get "end" d ≫= as_float;
      p ← get "probability" d ≫= as_float;
      Some {| word := w; w_start := s; w_end := e; probability := p |}
  | _ => None
  end.

(** The dict [flush] writes for a segment. *)
Definition segment_to_json (s : TranscriptSegment) : json :=
  JDict [ ("id", JInt (id s)); ("start", JFloat (start s)); ("end", JFloat (end_ s));
          ("text", JStr (text s)); ("confidence", JFloat (confidence s));
          ("words", match words s with
                    | Some ws => JList (map word_to_json ws)
                    | None => JNull
                    end) ].

(** The segment [get_all_segments] builds from a dict of a batch file:
    [id], [start], [end] and [text] are required ([KeyError] otherwise),
    [confidence] and [words] are read with [.get].  The values are those
    [flush] writes: an integer, numbers, a string, and a list of words or
    [null].  A record that holds a value of another type has no segment
    here, while the program, which does not look at the types, would build
    an object with that value in it; nothing below is stated of such
    records. *)
Definition segment_of_json (j : json) : option TranscriptSegment :=
  match j with
  | JDict d =>
      i ← get "id" d ≫= as_int;
      s ← get "start" d ≫= as_float;
      e ← get "end" d ≫= as_float;
      t ← get "text" d ≫= as_str;
      c ← match get "confidence" d with
           | Some v => as_float v
           | None => Some 0%Q
           end;
      ws ← match get "words" d with
            | Some (JList l) => ws ← mapM word_of_json l; Some (Some ws)
            | Some JNull | None => Some None
            | Some _ => None
            end;
      Some {| id := i; start := s; end_ := e; text := t; confidence := c; words := ws |}
  | _ => None
  end.

(** ** CheckpointManager *)

Record CheckpointManager := {
  checkpoint_dir : string        (* the base directory joined with the hash *)
}.

Definition checkpoint_file (m : CheckpointManager) : string :=
  checkpoint_dir m ++ "/checkpoint.json".

(** [checkpoint_file.with_suffix('.tmp')]. *)
Definition temp_file (m : CheckpointManager) : string :=
  checkpoint_dir m ++ "/checkpoint.tmp".

Definition segments_dir (m : CheckpointManager) : string :=
  checkpoint_dir m ++ "/segments".

Definition has_checkpoint (m : CheckpointManager) (d : disk) : bool :=
  bool_decide (is_Some (d !! checkpoint_file m)).

(** Where [save_checkpoint] stands: before [open], inside [json.dump] with
    the file open, after the [with] block has closed the file, after
    [replace]. *)
Inductive save_pc := AtOpen | Dumping | Closed | Saved.

Record save_state := { pc : save_pc; dsk : disk }.

(** One step of [save_checkpoint m data].  A process that is killed, or an
    I/O error (which the [except] clause only logs), leaves the disk of the
    state reached so far. *)
Inductive save_step (m : CheckpointManager) (data : CheckpointData) :
  save_state -> save_state -> Prop :=
| step_open d :
    save_step m data {| pc := AtOpen; dsk := d |}
      {| pc := Dumping; dsk := open_w (temp_file m) (asdict data) 0 d |}
| step_write d f :
    d !! temp_file m = Some f ->
    complete f = false ->
    save_step m data {| pc := Dumping; dsk := d |}
      {| pc := Dumping; dsk := write_chunk (temp_file m) d |}
| step_close d f :
    d !! temp_file m = Some f ->
    complete f = true ->
    save_step m data {| pc := Dumping; dsk := d |} {| pc := Closed; dsk := d |}
| step_replace d :
    save_step m data {| pc := Closed; dsk := d |}
      {| pc := Saved; dsk := replace (temp_file m) (checkpoint_file m) d |}.

(** The states a run of [save_checkpoint] goes through from [s]. *)
Inductive save_reaches (m : CheckpointManager) (data : CheckpointData) (s : save_state) :
  save_state -> Prop :=
| reaches_refl : save_reaches m data s s
| reaches_step s1 s2 :
    save_reaches m data s s1 -> save_step m data s1 s2 -> save_reaches m data s s2.

(** What holds of every state of a run of [save_checkpoint m data] that
    started on the disk [d0]. *)
Definition save_inv (m : CheckpointManager) (data : CheckpointData) (d0 : disk)
    (s : save_state) : Prop :=
  match pc s with
  | AtOpen => dsk s = d0
  | Dumping =>
      dsk s !! checkpoint_file m = d0 !! checkpoint_file m /\
      exists f, dsk s !! temp_file m = Some f /\ payload f = asdict data
  | Closed =>
      dsk s !! checkpoint_file m = d0 !! checkpoint_file m /\
      exists f, dsk s !! temp_file m = Some f /\ payload f = asdict data
                /\ complete f = true
  | Saved =>
      exists f, dsk s !! checkpoint_file m = Some f /\ payload f = asdict data
                /\ complete f = true
  end.

(** [save_checkpoint] run to its end. *)
Definition save_checkpoint (m : CheckpointManager) (data : CheckpointData) (d : disk) : disk :=
  replace (temp_file m) (checkpoint_file m)
    (write_file (temp_file m) (asdict data) 0 d).

(** [load_checkpoint]: [None] when there is no file and when reading it
    fails. *)
Definition load_checkpoint (m : CheckpointManager) (d : disk) : option CheckpointData :=
  match d !! checkpoint_file m with
  | None => None
  | Some f => json_load f ≫= from_dict
  end.

(** [cleanup]: [shutil.rmtree(checkpoint_dir)]. *)
Definition cleanup (m : CheckpointManager) (d : disk) : disk :=
  filter (fun kv => starts_with (checkpoint_dir m ++ "/") (fst kv) = false) d.

(** ** SegmentBatcher *)

Record SegmentBatcher := {
  storage_dir : string;
  batch_size : Z;
  current_batch : list TranscriptSegment;
  batch_count : nat
}.

Definition new_batcher (dir : string) (size : Z) : SegmentBatcher :=
  {| storage_dir := dir; batch_size := size; current_batch := []; batch_count := 0 |}.

(** [f"batch_{batch_count:03d}.json"] under [storage_dir]. *)
Definition batch_file (b : SegmentBatcher) : string :=
  storage_dir b ++ "/batch_" ++ PyStr.of_int_pad 3 (Z.of_nat (batch_count b)) ++ ".json".

(** [flush]; the write of the batch file is taken to go through (when it
    does not, the [except] clause logs the error and keeps the batch). *)
Definition flush (b : SegmentBatcher) (d : disk) : SegmentBatcher * disk :=
  match current_batch b with
  | [] => (b, d)
  | _ =>
      ({| storage_dir := storage_dir b; batch_size := batch_size b;
          current_batch := []; batch_count := S (batch_count b) |},
       write_file (batch_file b) (JList (map segment_to_json (current_batch b))) 0 d)
  end.

Definition add_segment (seg : TranscriptSegment) (b : SegmentBatcher) (d : disk)
  : SegmentBatcher * disk :=
  let b' := {| storage_dir := storage_dir b; batch_size := batch_size b;
               current_batch := (current_batch b ++ [seg])%list;
               batch_count := batch_count b |} in
  if batch_size b' <=? Z.of_nat (length (current_batch b')) then flush b' d else (b', d).

(** The segments of one batch file, appended to [acc]; an item that cannot
    be read raises, and the [except] clause keeps what was appended before. *)
Fixpoint load_batch (items : list json) (acc : list TranscriptSegment)
  : list TranscriptSegment :=
  match items with
  | [] => acc
  | j :: rest =>
      match segment_of_json j with
      | Some s => load_batch rest (acc ++ [s])%list
      | None => acc
      end
  end.

Definition get_all_segments (b : SegmentBatcher) (d : disk) : list TranscriptSegment :=
  fold_left
    (fun acc name =>
       match d !! name ≫= json_load with
       | Some (JList items) => load_batch items acc
       | _ => acc
       end)
    (sorted_names (glob (storage_dir b ++ "/batch_") ".json" d)) [].

(** ** ProgressTracker *)

Record ProgressTracker := {
  total_duration : Q;
  pt_start_time : Q;
  last_update : Q;
  processed_duration : Q;
  pbar : bool                    (* a tqdm bar is shown *)
}.

(** [x > 0] on floats. *)
Definition positive (x : Q) : bool := negb (Qle_bool x 0).

Definition new_tracker (total now : Q) (bar : bool) : ProgressTracker :=
  {| total_duration := total; pt_start_time := now; last_update := now;
     processed_duration := 0; pbar := bar |}.

(** [get_speed], [now] being what [time.time()] returns. *)
Definition get_speed (now : Q) (t : ProgressTracker) : Q :=
  let elapsed := (now - pt_start_time t)%Q in
  if positive elapsed then (processed_duration t / elapsed)%Q else 0%Q.

Definition get_eta (now : Q) (t : ProgressTracker) : Q :=
  let speed := get_speed now t in
  let remaining_duration := (total_duration t - processed_duration t)%Q in
  if positive speed then (remaining_duration / speed)%Q else 0%Q.

(** [update]: without a bar the percentage is computed for the log line,
    which divides by [total_duration] ([None]: [ZeroDivisionError]). *)
Definition update (now seconds_processed : Q) (t : ProgressTracker) : option ProgressTracker :=
  let t' := {| total_duration := total_duration t; pt_start_time := pt_start_time t;
               last_update := now;
               processed_duration := (processed_duration t + seconds_processed)%Q;
               pbar := pbar t |} in
  if pbar t then Some t'
  else if Qeq_bool (total_duration t) 0 then None
  else Some t'.

(** ** WhisperTranscriber.transcribe_file *)

(** What [model.transcribe] returns: segments are dicts with [start], [end],
    [text] and possibly [words], whose items are read with [.get]. *)
Record RawWord := {
  rw_word : option string;
  rw_start : option Q;
  rw_end : option Q;
  rw_probability : option Q
}.

Record RawSegment := {
  rs_start : Q;
  rs_end : Q;
  rs_text : string;
  rs_words : option (list RawWord)
}.

Record WhisperResult := {
  wr_language : string;
  wr_segments : list RawSegment
}.

Record WhisperTranscriber := {
  model_name : string;
  device_name : string;
  ckpt_base : option string;               (* [self.checkpoint_dir] *)
  checkpoint_interval : Z;
  current_checkpoint_data : option CheckpointData
}.

(** The surroundings of one call: the clock ([time_at 0] before
    [model.transcribe], [time_at 1] when the tracker is made,
    [time_at (2 + i)] while segment [i] is handled, [time_at (2 + n)] at the
    end), the text of [datetime.now().isoformat()] at the same instants,
    whether a tqdm bar is shown, and the reply typed at the prompt, stripped
    and in lower case. *)
Record Env := {
  time_at : nat -> Q;
  iso_at : nat -> string;
  show_bar : bool;
  answer : string
}.

Definition with_current (self : WhisperTranscriber) (c : option CheckpointData)
  : WhisperTranscriber :=
  {| model_name := model_name self; device_name := device_name self;
     ckpt_base := ckpt_base self; checkpoint_interval := checkpoint_interval self;
     current_checkpoint_data := c |}.

(** The state of the loop over [result['segments']]. *)
Record LoopState := {
  ls_segments : list TranscriptSegment;
  ls_batcher : option SegmentBatcher;
  ls_tracker : ProgressTracker;
  ls_checkpoint : CheckpointData;
  ls_self : WhisperTranscriber;
  ls_disk : disk
}.

Inductive outcome := Running (st : LoopState) | Raised (st : LoopState).

Definition make_word (offset : Q) (w : RawWord) : WordInfo :=
  {| word := default "" (rw_word w);
     w_start := (default 0 (rw_start w) + offset)%Q;
     w_end := (default 0 (rw_end w) + offset)%Q;
     probability := default 0%Q (rw_probability w) |}.

Definition Qsum (l : list Q) : Q := fold_left Qplus l 0%Q.

Definition Qlen {A} (l : list A) : Q := inject_Z (Z.of_nat (length l)).

(** The confidence of a segment: the mean probability of its words, [1.0]
    when it has none. *)
Definition segment_confidence (ws : option (list WordInfo)) : Q :=
  match ws with
  | Some (_ :: _ as l) => (Qsum (map probability l) / Qlen l)%Q
  | _ => 1%Q
  end.

Definition make_segment (offset : Q) (i : nat) (seg : RawSegment) : TranscriptSegment :=
  let ws := option_map (map (make_word offset)) (rs_words seg) in
  {| id := Z.of_nat i;
     start := (rs_start seg + offset)%Q;
     end_ := (rs_end seg + offset)%Q;
     text := PyStr.strip (rs_text seg);
     confidence := segment_confidence ws;
     words := ws |}.

Definition set_progress (c : CheckpointData) (i : Z) (ts : Q) (updated : string) (sp : Q)
  : CheckpointData :=
  {| video_file := video_file c; video_hash := video_hash c; model := model c;
     device := device c; start_time := start_time c; end_time := end_time c;
     last_segment_id := i; last_timestamp := ts; total_segments := total_segments c;
     created_at := created_at c; last_updated := updated;
     start_timestamp := start_timestamp c; speed := sp |}.

(** The body of the loop for the pair [(i, seg)] of [enumerate]. *)
Definition loop_body (cm : option CheckpointManager) (env : Env) (offset : Q)
    (resume_from_segment : Z) (raw : list RawSegment)
    (i : nat) (seg : RawSegment) (st : LoopState) : outcome :=
  if Z.of_nat i <? resume_from_segment then Running st
  else
    let segment := make_segment offset i seg in
    let segs := (ls_segments st ++ [segment])%list in
    let '(sb, d) :=
      match ls_batcher st with
      | Some b => let '(b', d') := add_segment segment b (ls_disk st) in (Some b', d')
      | None => (None, ls_disk st)
      end in
    let now := time_at env (2 + i) in
    let tracked :=
      match i with
      | O => Some (ls_tracker st)
      | S j =>
          let prev_end := match raw !! j with Some p => rs_end p | None => 0%Q end in
          update now (rs_end seg - prev_end)%Q (ls_tracker st)
      end in
    let st1 := {| ls_segments := segs; ls_batcher := sb; ls_tracker := ls_tracker st;
                  ls_checkpoint := ls_checkpoint st; ls_self := ls_self st;
                  ls_disk := d |} in
    match tracked with
    | None => Raised st1
    | Some tr =>
        let st2 := {| ls_segments := segs; ls_batcher := sb; ls_tracker := tr;
                      ls_checkpoint := ls_checkpoint st; ls_self := ls_self st;
                      ls_disk := d |} in
        match cm with
        | None => Running st2
        | Some m =>
            let k := checkpoint_interval (ls_self st) in
            if k =? 0 then Raised st2
            else if (Z.of_nat i + 1) mod k =? 0 then
              let c := set_progress (ls_checkpoint st) (Z.of_nat i)
                         (rs_end seg + offset)%Q (iso_at env (2 + i)) (get_speed now tr) in
              Running {| ls_segments := segs; ls_batcher := sb; ls_tracker := tr;
                         ls_checkpoint := c;
                         ls_self := with_current (ls_self st) (Some c);
                         ls_disk := save_checkpoint m c d |}
            else Running st2
        end
    end.

(** The loop, from index [i] on. *)
Fixpoint run_loop (cm : option CheckpointManager) (env : Env) (offset : Q)
    (resume_from_segment : Z) (raw : list RawSegment)
    (i : nat) (todo : list RawSegment) (st : LoopState) : outcome :=
  match todo with
  | [] => Running st
  | seg :: todo' =>
      match loop_body cm env offset resume_from_segment raw i seg st with
      | Running st' => run_loop cm env offset resume_from_segment raw (S i) todo' st'
      | Raised st' => Raised st'
      end
  end.

(** What the code before the [try] block leaves: the managers, the segments
    taken over from the batch files and the index to resume from. *)
Record Prepared := {
  p_manager : option CheckpointManager;
  p_batcher : option SegmentBatcher;
  p_resumed : list TranscriptSegment;
  p_resume_from : Z;
  p_disk : disk
}.

Definition confirms (reply : string) : bool :=
  String.eqb reply "" || String.eqb reply "y" || String.eqb reply "yes".

Definition prepare (self : WhisperTranscriber) (hash : string)
    (resume_from_checkpoint : bool) (env : Env) (d : disk) : Prepared :=
  match ckpt_base self with
  | None =>
      {| p_manager := None; p_batcher := None; p_resumed := [];
         p_resume_from := 0; p_disk := d |}
  | Some base =>
      let m := {| checkpoint_dir := base ++ "/" ++ hash |} in
      let fresh := new_batcher (segments_dir m) 100 in
      let loaded :=
        if resume_from_checkpoint && has_checkpoint m d then load_checkpoint m d
        else None in
      match loaded with
      | Some c =>
          if confirms (answer env) then
            {| p_manager := Some m; p_batcher := Some fresh;
               p_resumed := get_all_segments fresh d;
               p_resume_from := last_segment_id c; p_disk := d |}
          else
            {| p_manager := Some m; p_batcher := Some fresh; p_resumed := [];
               p_resume_from := 0; p_disk := cleanup m d |}
      | None =>
          {| p_manager := Some m; p_batcher := Some fresh; p_resumed := [];
             p_resume_from := 0; p_disk := d |}
      end
  end.

Definition initial_checkpoint (self : WhisperTranscriber) (name hash : string)
    (offset : Q) (env : Env) (result : WhisperResult) : CheckpointData :=
  {| video_file := name; video_hash := hash; model := model_name self;
     device := device_name self;
     start_time := if positive offset then Some offset else None;
     end_time := None; last_segment_id := 0; last_timestamp := 0;
     total_segments := Z.of_nat (length (wr_segments result));
     created_at := iso_at env 1; last_updated := iso_at env 1;
     start_timestamp := time_at env 0; speed := 0 |}.

Definition initial_state (self : WhisperTranscriber) (name hash : string)
    (offset : Q) (env : Env) (result : WhisperResult) (p : Prepared) : LoopState :=
  let total := match last (wr_segments result) with
               | Some s => rs_end s
               | None => 0%Q
               end in
  {| ls_segments := []; ls_batcher := p_batcher p;
     ls_tracker := new_tracker total (time_at env 1) (show_bar env);
     ls_checkpoint := initial_checkpoint self name hash offset env result;
     ls_self := self; ls_disk := p_disk p |}.

(** The [except] clause: the emergency checkpoint, then the exception goes
    on to the caller. *)
Definition emergency (cm : option CheckpointManager) (st : LoopState) : disk :=
  match cm, current_checkpoint_data (ls_self st) with
  | Some m, Some c => save_checkpoint m c (ls_disk st)
  | _, _ => ls_disk st
  end.

(** [transcribe_file] on an existing file named [name] whose first megabyte
    hashes to [hash], [result] being what the model returns for it.  The
    transcript is [None] when an exception leaves the function. *)
Definition transcribe_file (self : WhisperTranscriber) (name hash : string)
    (start_time_offset : Q) (resume_from_checkpoint : bool)
    (env : Env) (result : WhisperResult) (d : disk)
  : option TranscriptResult * WhisperTranscriber * disk :=
  let p := prepare self hash resume_from_checkpoint env d in
  let cm := p_manager p in
  let raw := wr_segments result in
  match run_loop cm env start_time_offset (p_resume_from p) raw 0 raw
          (initial_state self name hash start_time_offset env result p) with
  | Raised st => (None, ls_self st, emergency cm st)
  | Running st =>
      let d1 := match ls_batcher st with
                | Some b => snd (flush b (ls_disk st))
                | None => ls_disk st
                end in
      let segs := match p_resumed p with
                  | [] => ls_segments st
                  | _ => (p_resumed p ++ ls_segments st)%list
                  end in
      let total_text := PyStr.join " " (map text segs) in
      let n := (2 + length raw)%nat in
      let processing_time := (time_at env n - time_at env 0)%Q in
      let st' := {| ls_segments := segs; ls_batcher := ls_batcher st;
                    ls_tracker := ls_tracker st; ls_checkpoint := ls_checkpoint st;
                    ls_self := ls_self st; ls_disk := d1 |} in
      if Qeq_bool processing_time 0 then (None, ls_self st, emergency cm st')
      else
        (Some {| language := wr_language result;
                 duration := match last segs with Some s => end_ s | None => 0%Q end;
                 segments := segs;
                 full_text := total_text;
                 word_count := length (PyStr.split total_text);
                 average_confidence :=
                   match segs with
                   | [] => 0%Q
                   | _ => (Qsum (map confidence segs) / Qlen segs)%Q
                   end;
                 tr_model_name := model_name self;
                 timestamp := iso_at env n |},
         ls_self st,
         match cm with Some m => cleanup m d1 | None => d1 end)
  end.

(** The disk a run leaves behind when the process is killed after the first
    [n] rounds of the loop. *)
Definition killed_after (n : nat) (self : WhisperTranscriber) (name hash : string)
    (start_time_offset : Q) (resume_from_checkpoint : bool)
    (env : Env) (result : WhisperResult) (d : disk) : disk :=
  let p := prepare self hash resume_from_checkpoint env d in
  let raw := wr_segments result in
  match run_loop (p_manager p) env start_time_offset (p_resume_from p) raw 0
          (firstn n raw)
          (initial_state self name hash start_time_offset env result p) with
  | Running st | Raised st => ls_disk st
  end.

End Whisper.

(* ===================================================================== *)
(** * kaggle/checkpoint_manager.py *)
(* ===================================================================== *)

Module Kaggle.
Import Json FS.

Inductive exn :=
| FileNotFoundError
| JSONDecodeError
| KeyError
| ZeroDivisionError
| TypeError
| AttributeError
| ValueError
| OverflowError.

Inductive result (A : Type) :=
| Ok (a : A)
| Raise (e : exn).
Arguments Ok {A} a.
Arguments Raise {A} e.

Record CheckpointManager := {
  video_name : string;
  output_dir : string;
  checkpoint_interval : Z
}.

(** The part of [checkpoint_pattern] before the star, under [output_dir]. *)
Definition checkpoint_prefix (m : CheckpointManager) : string :=
  output_dir m ++ "/" ++ video_name m ++ "_checkpoint_".

Definition final_file (m : CheckpointManager) : string :=
  output_dir m ++ "/" ++ video_name m ++ "_final_transcript.json".

(** [f"{video_name}_checkpoint_{segment_count:04d}.json"] under
    [output_dir]. *)
Definition checkpoint_file (m : CheckpointManager) (segment_count : nat) : string :=
  checkpoint_prefix m ++ PyStr.of_int_pad 4 (Z.of_nat segment_count) ++ ".json".

(** [output_dir.glob(checkpoint_pattern)], for a video name that is taken
    as it stands: one without [*], [?] and [[], which are pattern syntax
    when they occur in [checkpoint_pattern], and without [/]. *)
Definition plain_name (name : string) : bool :=
  negb (PyStr.contains "*" name) && negb (PyStr.contains "?" name)
  && negb (PyStr.contains "[" name) && negb (PyStr.contains "/" name).

Definition checkpoints (m : CheckpointManager) (d : disk) : list string :=
  glob (checkpoint_prefix m) ".json" d.

Definition has_checkpoint (m : CheckpointManager) (d : disk) : bool :=
  bool_decide (is_Some (d !! final_file m))
  || match checkpoints m d with [] => false | _ => true end.

Definition mtime_of (d : disk) (name : string) : nat :=
  match d !! name with Some f => mtime f | None => 0%nat end.

(** The head of [sorted(names, key=mtime, reverse=True)]: the first of the
    names with the latest modification time. *)
Fixpoint latest (d : disk) (names : list string) : option string :=
  match names with
  | [] => None
  | n :: rest =>
      match latest d rest with
      | Some n' => if (mtime_of d n <? mtime_of d n')%nat then Some n' else Some n
      | None => Some n
      end
  end.

(** [open] then [json.load] of a file that exists. *)
Definition read_json (d : disk) (name : string) : result json :=
  match d !! name with
  | None => Raise FileNotFoundError
  | Some f => match json_load f with
              | Some j => Ok j
              | None => Raise JSONDecodeError
              end
  end.

(** [len(v)] is defined. *)
Definition sized (v : json) : bool :=
  match v with JList _ | JDict _ | JStr _ => true | _ => false end.

(** [f"{v:.1f}"], as the log lines have it: a number is formatted (an
    [int] through its conversion to a float), a string is refused with
    [ValueError], anything else with [TypeError]. *)
Definition format_1f (v : json) : result unit :=
  match v with
  | JInt n => if Z.abs n <? 2 ^ 1024 - 2 ^ 970 then Ok tt else Raise OverflowError
  | JFloat _ | JBool _ => Ok tt
  | JStr _ => Raise ValueError
  | _ => Raise TypeError
  end.

(** [load_checkpoint]: the segments and the metadata of the final
    transcript when there is one, else of the most recent checkpoint, whose
    number of segments and progress are logged. *)
Definition load_checkpoint (m : CheckpointManager) (d : disk) : result (json * json) :=
  match d !! final_file m with
  | Some _ =>
      match read_json d (final_file m) with
      | Ok (JDict data) =>
          match get "segments" data, get "metadata" data with
          | Some s, Some md => Ok (s, md)
          | _, _ => Raise KeyError
          end
      | Ok _ => Raise TypeError
      | Raise e => Raise e
      end
  | None =>
      match latest d (checkpoints m d) with
      | None => Raise FileNotFoundError
      | Some name =>
          match read_json d name with
          | Ok (JDict data) =>
              let segments := default (JList []) (get "segments" data) in
              let metadata := default (JDict []) (get "metadata" data) in
              if sized segments then
                match metadata with
                | JDict md =>
                    match format_1f (default (JInt 0) (get "progress_percentage" md)) with
                    | Ok _ => Ok (segments, metadata)
                    | Raise e => Raise e
                    end
                | _ => Raise AttributeError
                end
              else Raise TypeError
          | Ok _ => Raise AttributeError
          | Raise e => Raise e
          end
      end
  end.

(** [{**metadata, k1: v1, ...}]. *)
Definition merged (metadata extra : list (string * json)) : list (string * json) :=
  fold_left (fun acc kv => set (fst kv) (snd kv) acc) extra metadata.

(** The record [save_checkpoint] builds, [stamp] being the text of
    [datetime.now().isoformat()]. *)
Definition checkpoint_data (m : CheckpointManager) (segments : list json)
    (metadata : list (string * json)) (stamp : string) : result json :=
  let segment_count := length segments in
  let count := inject_Z (Z.of_nat segment_count) in
  let total_duration :=
    match last segments with
    | None => Ok (JInt 0)
    | Some (JDict seg) => match get "end" seg with
                          | Some e => Ok e
                          | None => Raise KeyError
                          end
    | Some _ => Raise TypeError
    end in
  let estimated_total :=
    match get "estimated_total" metadata with
    | None => Ok count
    | Some (JInt n) => Ok (inject_Z n)
    | Some (JFloat q) => Ok q
    | Some (JBool b) => Ok (if b then 1%Q else 0%Q)
    | Some _ => Raise TypeError
    end in
  match total_duration, estimated_total with
  | Raise e, _ => Raise e
  | _, Raise e => Raise e
  | Ok last_time, Ok total =>
      if Qeq_bool total 0 then Raise ZeroDivisionError
      else
        Ok (JDict
          [ ("video_name", JStr (video_name m));
            ("timestamp", JStr stamp);
            ("metadata", JDict (merged metadata
               [ ("total_segments", JInt (Z.of_nat segment_count));
                 ("last_segment_time", last_time);
                 ("progress_percentage", JFloat (count / total * 100)%Q);
                 ("status", JStr "in_progress");
                 ("checkpoint_file",
                  JStr (video_name m ++ "_checkpoint_"
                        ++ PyStr.of_int_pad 4 (Z.of_nat segment_count) ++ ".json")) ]));
            ("segments", JList segments) ])
  end.

(** Whether [save_checkpoint] goes on to write: [Ok false] is the early
    [return None]. *)
Definition due (m : CheckpointManager) (segment_count : nat) (force : bool) : result bool :=
  if force then Ok true
  else if checkpoint_interval m =? 0 then Raise ZeroDivisionError
  else Ok (Z.of_nat segment_count mod checkpoint_interval m =? 0).

(** [save_checkpoint], [now] being the time of the write: the path
    returned, if any, and the disk. *)
Definition save_checkpoint (m : CheckpointManager)
    (segments : list json) (metadata : list (string * json)) (force : bool)
    (stamp : string) (now : nat) (d : disk) : result (option string) * disk :=
  match due m (length segments) force with
  | Raise e => (Raise e, d)
  | Ok false => (Ok None, d)
  | Ok true =>
      match checkpoint_data m segments metadata stamp with
      | Raise e => (Raise e, d)
      | Ok data =>
          let path := checkpoint_file m (length segments) in
          (Ok (Some path), write_file path data now d)
      end
  end.

(** The disk [save_checkpoint] leaves when the process is killed after [k]
    chunks of the record have reached the checkpoint file. *)
Definition save_checkpoint_killed (k : nat) (m : CheckpointManager)
    (segments : list json) (metadata : list (string * json)) (force : bool)
    (stamp : string) (now : nat) (d : disk) : disk :=
  match due m (length segments) force, checkpoint_data m segments metadata stamp with
  | Ok true, Ok data =>
      let path := checkpoint_file m (length segments) in
      Nat.iter k (write_chunk path) (open_w path data now d)
  | _, _ => d
  end.

(** [get_resume_point]: the number of segments of the checkpoint and the
    end of its last segment, which is logged with one decimal; [(0, 0.0)]
    when [load_checkpoint] raises [FileNotFoundError], any other exception
    going on to the caller. *)
Definition get_resume_point (m : CheckpointManager) (d : disk) : result (nat * json) :=
  match load_checkpoint m d with
  | Raise FileNotFoundError => Ok (0%nat, JFloat 0)
  | Raise e => Raise e
  | Ok (JList segments, _) =>
      match last segments with
      | None => Ok (0%nat, JFloat 0)
      | Some (JDict seg) =>
          match get "end" seg with
          | Some e => match format_1f e with
                      | Ok _ => Ok (length segments, e)
                      | Raise x => Raise x
                      end
          | None => Raise KeyError
          end
      | Some _ => Raise TypeError
      end
  | Ok (JDict [], _) | Ok (JStr "", _) => Ok (0%nat, JFloat 0)
  | Ok (JDict _, _) => Raise KeyError
  | Ok _ => Raise TypeError
  end.

End Kaggle.

(* ===================================================================== *)
(** * src/config.py and src/translation_pipeline.py *)
(* ===================================================================== *)

Module Pipeline.

(** ** Configuration (src/config.py) *)

Inductive TranslationModel := GPT_35_TURBO | GPT_4 | GPT_4_TURBO | LOCAL | MOCK.

(** [model.value]. *)
Definition value (m : TranslationModel) : string :=
  match m with
  | GPT_35_TURBO => "gpt-3.5-turbo"
  | GPT_4 => "gpt-4"
  | GPT_4_TURBO => "gpt-4-turbo-preview"
  | LOCAL => "local"
  | MOCK => "mock"
  end.

Record APIConfig := { max_retries : nat; timeout : nat; mock_mode : bool }.

Record ProcessingConfig := { max_workers : nat; batch_size : nat }.

Record Config := { api : APIConfig; processing : ProcessingConfig }.

(** The defaults of the dataclasses. *)
Definition default_config : Config :=
  {| api := {| max_retries := 3; timeout := 30; mock_mode := false |};
     processing := {| max_workers := 4; batch_size := 10 |} |}.

(** ** The context analyzer's records (src/context_analyzer.py) *)

Inductive DocumentType := TUTORIAL | ANALYSIS | NEWS | COMMENTARY | MIXED.

Definition doc_type_value (t : DocumentType) : string :=
  match t with
  | TUTORIAL => "tutorial" | ANALYSIS => "analysis" | NEWS => "news"
  | COMMENTARY => "commentary" | MIXED => "mixed"
  end.

Inductive TradingContext := BULLISH | BEARISH | NEUTRAL | REVERSAL | CONSOLIDATION.

(** [str] of a member of the enumeration. *)
Definition trading_context_str (t : TradingContext) : string :=
  match t with
  | BULLISH => "TradingContext.BULLISH" | BEARISH => "TradingContext.BEARISH"
  | NEUTRAL => "TradingContext.NEUTRAL" | REVERSAL => "TradingContext.REVERSAL"
  | CONSOLIDATION => "TradingContext.CONSOLIDATION"
  end.

(** The fields of [SegmentContext] the pipeline reads; [repr] is
    [str(segment_context)], through which alone the other fields of the
    dataclass matter here. *)
Record SegmentContext := {
  is_question : bool;
  is_metaphor : bool;
  key_terms : list string;
  repr : string
}.

Record DocumentContext := {
  doc_type : DocumentType;
  primary_topic : string;
  trading_context : TradingContext;
  segment_contexts : list SegmentContext
}.

(** ** Data structures *)

Record TranscriptionSegment := {
  id : Z;
  start_time : Q;
  end_time : Q;
  text : string;
  confidence : Q;
  speaker : option string
}.

Record TranslationResult := {
  segment_id : Z;
  original_text : string;
  translated_text : string;
  model_used : string;
  tr_confidence : Q;
  complexity_score : Q;
  cached : bool;
  cost_estimate : Q;
  processing_time : Q
}.

Record PipelineStats := {
  total_segments : nat;
  cached_segments : nat;
  gpt35_segments : nat;
  gpt4_segments : nat;
  local_segments : nat;
  total_cost : Q;
  total_time : Q;
  cache_hit_rate : Q;
  average_confidence : Q
}.

Definition new_stats : PipelineStats :=
  {| total_segments := 0; cached_segments := 0; gpt35_segments := 0;
     gpt4_segments := 0; local_segments := 0; total_cost := 0; total_time := 0;
     cache_hit_rate := 0; average_confidence := 0 |}.

(** ** TranslationCache *)

(** [memory_cache], the three counters of [cache_stats], and what
    [translation_cache.json] holds. *)
Record TranslationCache := {
  memory_cache : gmap string string;
  hits : nat;
  misses : nat;
  sets : nat;
  persistent_cache : option (gmap string string)
}.

Definition new_cache : TranslationCache :=
  {| memory_cache := ∅; hits := 0; misses := 0; sets := 0; persistent_cache := None |}.

Definition _generate_cache_key (text context model : string) : string :=
  let combined := text ++ "|" ++ context ++ "|" ++ model in
  MD5.hexdigest (PyStr.encode combined).

Definition get (text context model : string) (c : TranslationCache)
  : option string * TranslationCache :=
  let key := _generate_cache_key text context model in
  match memory_cache c !! key with
  | Some v =>
      (Some v, {| memory_cache := memory_cache c; hits := S (hits c); misses := misses c;
                  sets := sets c; persistent_cache := persistent_cache c |})
  | None =>
      (None, {| memory_cache := memory_cache c; hits := hits c; misses := S (misses c);
                sets := sets c; persistent_cache := persistent_cache c |})
  end.

Definition _save_persistent_cache (c : TranslationCache) : TranslationCache :=
  {| memory_cache := memory_cache c; hits := hits c; misses := misses c;
     sets := sets c; persistent_cache := Some (memory_cache c) |}.

Definition set (text translation context model : string) (c : TranslationCache)
  : TranslationCache :=
  let key := _generate_cache_key text context model in
  let c' := {| memory_cache := <[key := translation]> (memory_cache c);
               hits := hits c; misses := misses c; sets := S (sets c);
               persistent_cache := persistent_cache c |} in
  if (sets c' mod 10 =? 0)%nat then _save_persistent_cache c' else c'.

(** ** The pipeline and what surrounds it *)

(** The collaborators of a run.  [client] is [None] when no OpenAI client
    could be made; otherwise [client n model prompt] is how the call number
    [n] of [chat.completions.create] ends: the content of the first choice,
    or [None] for an exception.  [search_terms] and [find_term] belong to the
    dictionary manager: the (thai, english) pairs found, [None] when the
    search raises, and the English of the entry of a word, if it has one.
    [seconds_for] is the wall-clock time spent on a segment. *)
Record World := {
  client : option (nat -> TranslationModel -> string -> option string);
  search_terms : string -> option (list (string * string));
  find_term : string -> option string;
  seconds_for : Z -> Q
}.

(** The mutable state of a [TranslationPipeline]; [api_calls] counts the
    calls made to the client. *)
Record State := {
  cache : TranslationCache;
  stats : PipelineStats;
  api_calls : nat
}.

Definition new_state : State :=
  {| cache := new_cache; stats := new_stats; api_calls := 0 |}.

(** ** Routing *)

(** [a < b] and [a > b] on floats. *)
Definition Qltb (a b : Q) : bool := negb (Qle_bool b a).

(** [max(a, b)] and [min(a, b)]: the first argument unless the second is
    strictly beyond it. *)
Definition py_max (a b : Q) : Q := if Qltb a b then b else a.

Definition py_min (a b : Q) : Q := if Qltb b a then b else a.

Definition complex_patterns : list string :=
  [ "เหมือนกับ"; "อุปมา"; "สมมติว่า"; "ยกตัวอย่าง" ].

Definition _calculate_complexity (text : string) (segment_context : option SegmentContext) : Q :=
  let score := 0%Q in
  let score := if (200 <? PyStr.len text)%nat then (score + (2 # 10))%Q else score in
  let score :=
    match segment_context with
    | Some ctx =>
        let score := if is_metaphor ctx then (score + (3 # 10))%Q else score in
        let score := if (3 <? length (key_terms ctx))%nat then (score + (2 # 10))%Q else score in
        if is_question ctx then (score - (1 # 10))%Q else score
    | None => score
    end in
  let score :=
    if existsb (fun pattern => PyStr.contains pattern text) complex_patterns
    then (score + (2 # 10))%Q else score in
  py_min 1 (py_max 0 score).

Definition _select_model (complexity : Q) (segment_context : option SegmentContext)
  : TranslationModel :=
  if match segment_context with
     | Some ctx => is_metaphor ctx && Qltb (5 # 10) complexity
     | None => false
     end
  then GPT_4
  else if Qltb complexity (3 # 10) then GPT_35_TURBO
  else if Qltb complexity (7 # 10) then GPT_35_TURBO
  else GPT_4.

(** ** Translation *)

Definition _prepare_context_prompt (segment_context : option SegmentContext)
    (document_context : DocumentContext) : string :=
  let context_parts :=
    [ "Document Type: " ++ doc_type_value (doc_type document_context);
      "Primary Topic: " ++ primary_topic document_context;
      "Trading Context: " ++ trading_context_str (trading_context document_context) ] in
  let segment_parts :=
    match segment_context with
    | Some ctx =>
        ((match key_terms ctx with
          | [] => []
          | _ => [("Key Terms: " ++ PyStr.join ", " (firstn 5 (key_terms ctx)))%string]
          end)
         ++ (if is_metaphor ctx then ["Contains: Metaphors"] else [])
         ++ (if is_question ctx then ["Type: Question"] else []))%list
    | None => []
    end in
  PyStr.join (String "010" "") (context_parts ++ segment_parts)%list.

Definition nl : string := String "010" "".

(** [None]: the dictionary search raised. *)
Definition _build_translation_prompt (w : World) (text context_info : string)
    (model : TranslationModel) : option string :=
  entries ← search_terms w text;
  let term_hints := map (fun e => "- " ++ fst e ++ " = " ++ snd e) (firstn 5 entries) in
  Some ("Translate the following Thai text to English for a Forex trading video." ++ nl
        ++ "        " ++ nl
        ++ "CONTEXT:" ++ nl
        ++ context_info ++ nl ++ nl
        ++ "TERMINOLOGY HINTS:" ++ nl
        ++ match term_hints with [] => "None" | _ => PyStr.join nl term_hints end ++ nl ++ nl
        ++ "THAI TEXT:" ++ nl
        ++ String "034" text ++ String "034" nl ++ nl
        ++ "REQUIREMENTS:" ++ nl
        ++ "1. Maintain natural, conversational English" ++ nl
        ++ "2. Preserve all Forex terminology accurately" ++ nl
        ++ "3. Keep the same tone and style as the speaker" ++ nl
        ++ "4. Handle colloquialisms naturally" ++ nl
        ++ "5. Maintain timing-friendly segment length" ++ nl ++ nl
        ++ "ENGLISH TRANSLATION:").

Definition _mock_translation (text : string) : string :=
  let words := length (PyStr.split text) in
  "[Mock translation of " ++ PyStr.of_int (Z.of_nat words) ++ " words: "
  ++ PyStr.take 30 text ++ "...]".

Definition _fallback_translation (w : World) (text : string) : string :=
  PyStr.join " "
    (map (fun word => match find_term w word with
                      | Some english => english
                      | None => "[" ++ word ++ "]"
                      end)
         (PyStr.split text)).

(** [_perform_translation]: [None] when an exception leaves it.  The client
    is called once; when the call raises, the fallback translation is
    returned. *)
Definition _perform_translation (w : World) (text : string)
    (segment_context : option SegmentContext) (document_context : DocumentContext)
    (model : TranslationModel) (st : State) : option string * State :=
  let context_info := _prepare_context_prompt segment_context document_context in
  match _build_translation_prompt w text context_info model with
  | None => (None, st)
  | Some prompt =>
      match client w with
      | None => (Some (_mock_translation text), st)
      | Some create =>
          let st' := {| cache := cache st; stats := stats st;
                        api_calls := S (api_calls st) |} in
          match create (api_calls st) model prompt with
          | Some content => (Some (PyStr.strip content), st')
          | None => (Some (_fallback_translation w text), st')
          end
      end
  end.

Definition _estimate_cost (input_text output_text : string) (model : TranslationModel) : Q :=
  let input_tokens := (inject_Z (Z.of_nat (PyStr.len input_text)) / 4)%Q in
  let output_tokens := (inject_Z (Z.of_nat (PyStr.len output_text)) / 4)%Q in
  let '(cost_in, cost_out) :=
    match model with
    | GPT_4 => (1 # 100, 3 # 100)%Q
    | LOCAL => (0, 0)%Q
    | _ => (5 # 10000, 15 # 10000)%Q
    end in
  ((input_tokens / 1000) * cost_in + (output_tokens / 1000) * cost_out)%Q.

Definition with_cache (st : State) (c : TranslationCache) : State :=
  {| cache := c; stats := stats st; api_calls := api_calls st |}.

Definition with_stats (st : State) (s : PipelineStats) : State :=
  {| cache := cache st; stats := s; api_calls := api_calls st |}.

Definition count_cached (s : PipelineStats) : PipelineStats :=
  {| total_segments := total_segments s; cached_segments := S (cached_segments s);
     gpt35_segments := gpt35_segments s; gpt4_segments := gpt4_segments s;
     local_segments := local_segments s; total_cost := total_cost s;
     total_time := total_time s; cache_hit_rate := cache_hit_rate s;
     average_confidence := average_confidence s |}.

(** The cost and the model counters after a translation. *)
Definition count_translated (model : TranslationModel) (cost : Q) (s : PipelineStats)
  : PipelineStats :=
  {| total_segments := total_segments s; cached_segments := cached_segments s;
     gpt35_segments :=
       match model with GPT_35_TURBO => S (gpt35_segments s) | _ => gpt35_segments s end;
     gpt4_segments :=
       match model with GPT_4 => S (gpt4_segments s) | _ => gpt4_segments s end;
     local_segments :=
       match model with
       | GPT_35_TURBO | GPT_4 => local_segments s
       | _ => S (local_segments s)
       end;
     total_cost := (total_cost s + cost)%Q;
     total_time := total_time s; cache_hit_rate := cache_hit_rate s;
     average_confidence := average_confidence s |}.

(** [_translate_single_segment]: [None] when an exception leaves it. *)
Definition _translate_single_segment (w : World) (segment : TranscriptionSegment)
    (segment_context : option SegmentContext) (document_context : DocumentContext)
    (st : State) : option TranslationResult * State :=
  let context_str := match segment_context with Some ctx => repr ctx | None => "" end in
  let '(cached_translation, c1) := get (text segment) context_str "" (cache st) in
  let st1 := with_cache st c1 in
  match cached_translation with
  | Some (String _ _ as hit) =>
      (Some {| segment_id := id segment; original_text := text segment;
               translated_text := hit; model_used := "cache";
               tr_confidence := 1; complexity_score := 0; cached := true;
               cost_estimate := 0; processing_time := 1 # 1000 |},
       with_stats st1 (count_cached (stats st1)))
  | _ =>
      let complexity := _calculate_complexity (text segment) segment_context in
      let model := _select_model complexity segment_context in
      match _perform_translation w (text segment) segment_context document_context
              model st1 with
      | (None, st2) => (None, st2)
      | (Some translated, st2) =>
          let st3 := with_cache st2
                       (set (text segment) translated context_str (value model) (cache st2)) in
          let cost := _estimate_cost (text segment) translated model in
          (Some {| segment_id := id segment; original_text := text segment;
                   translated_text := translated; model_used := value model;
                   tr_confidence := match model with
                                    | GPT_4 => 95 # 100
                                    | _ => 90 # 100
                                    end;
                   complexity_score := complexity; cached := false;
                   cost_estimate := cost;
                   processing_time := seconds_for w (id segment) |},
           with_stats st3 (count_translated model cost (stats st3)))
      end
  end.

(** ** Translating the segments of a transcript *)

(** [l[i]] with Python's negative indices; [None] is [IndexError]. *)
Definition py_index {A} (l : list A) (i : Z) : option A :=
  if 0 <=? i then l !! Z.to_nat i
  else if - Z.of_nat (length l) <=? i then l !! Z.to_nat (Z.of_nat (length l) + i)
  else None.

(** The context looked up for a segment before its task is submitted;
    the outer [None] is the [IndexError] of [segment_contexts[seg_idx]]. *)
Definition context_for (document_context : DocumentContext) (segment : TranscriptionSegment)
  : option (option SegmentContext) :=
  let seg_idx := id segment - 1 in
  if seg_idx <? Z.of_nat (length (segment_contexts document_context)) then
    match py_index (segment_contexts document_context) seg_idx with
    | Some ctx => Some (Some ctx)
    | None => None
    end
  else Some None.

(** A task handed to the executor. *)
Definition Task : Type := TranscriptionSegment * option SegmentContext.

(** The tasks submitted for a batch, and whether the loop that submits them
    came to its end. *)
Fixpoint submit (document_context : DocumentContext) (batch : list TranscriptionSegment)
  : list Task * bool :=
  match batch with
  | [] => ([], true)
  | segment :: rest =>
      match context_for document_context segment with
      | None => ([], false)
      | Some ctx =>
          let '(tasks, ok) := submit document_context rest in
          ((segment, ctx) :: tasks, ok)
      end
  end.

(** The loop over [as_completed(futures)]: the tasks in the order in which
    they complete, each run as one step on the shared state; the result of a
    task that raised is logged and left out.  The program runs the tasks of
    a batch on the threads of an executor, where the updates of the
    counters are not atomic: the state this function returns is that of
    tasks that do not overlap, and the properties below that go through it
    are about the list of results only. *)
Fixpoint collect (w : World) (document_context : DocumentContext) (completed : list Task)
    (results : list TranslationResult) (st : State) : list TranslationResult * State :=
  match completed with
  | [] => (results, st)
  | (segment, ctx) :: rest =>
      match _translate_single_segment w segment ctx document_context st with
      | (Some result, st') => collect w document_context rest (results ++ [result])%list st'
      | (None, st') => collect w document_context rest results st'
      end
  end.

(** [segments[i:i+size]] for [i] in [range(0, len(segments), size)]. *)
Fixpoint batches {A} (fuel size : nat) (l : list A) : list (list A) :=
  match fuel with
  | O => []
  | S fuel' =>
      match l with
      | [] => []
      | _ => firstn size l :: batches fuel' size (skipn size l)
      end
  end.

(** [results.sort(key=lambda x: x.segment_id)]: a stable sort, here by
    insertion after the results that do not come later. *)
Fixpoint insert_result (r : TranslationResult) (l : list TranslationResult)
  : list TranslationResult :=
  match l with
  | [] => [r]
  | x :: l' => if segment_id r <? segment_id x then r :: l else x :: insert_result r l'
  end.

Definition sort_results (l : list TranslationResult) : list TranslationResult :=
  fold_left (fun acc r => insert_result r acc) l [].

Fixpoint run_batches (w : World) (completion : list Task -> list Task)
    (document_context : DocumentContext) (todo : list (list TranscriptionSegment))
    (results : list TranslationResult) (st : State)
  : option (list TranslationResult) * State :=
  match todo with
  | [] => (Some results, st)
  | batch :: rest =>
      let '(tasks, ok) := submit document_context batch in
      let '(results', st') := collect w document_context (completion tasks) results st in
      if ok then run_batches w completion document_context rest results' st'
      else (None, st')
  end.

(** [_translate_segments_with_context].  [completion] is the order in
    which the executor completes the tasks of a batch.  [None]: an exception
    leaves the function (a batch size of zero, a context index out of
    range). *)
Definition _translate_segments_with_context (config : Config) (w : World)
    (completion : list Task -> list Task)
    (segments : list TranscriptionSegment) (document_context : DocumentContext)
    (st : State) : option (list TranslationResult) * State :=
  match batch_size (processing config) with
  | O => (None, st)
  | size =>
      match run_batches w completion document_context
              (batches (length segments) size segments) [] st with
      | (Some results, st') => (Some (sort_results results), st')
      | (None, st') => (None, st')
      end
  end.

(** ** SRT output *)

(** [to_srt_timestamp]: the time is the float nearest to [time_seconds] (a
    float is nearest to itself), and [//], [%], [*] and [int] are those of
    floats. *)
Definition to_srt_timestamp (time_seconds : Q) : string :=
  let t := PyFloat.rn time_seconds in
  let hours := PyFloat.trunc (PyFloat.floordiv t 3600) in
  let minutes := PyFloat.trunc (PyFloat.floordiv (PyFloat.rem t 3600) 60) in
  let seconds := PyFloat.trunc (PyFloat.rem t 60) in
  let milliseconds := PyFloat.trunc (PyFloat.mul (PyFloat.rem t 1) 1000) in
  PyStr.of_int_pad 2 hours ++ ":" ++ PyStr.of_int_pad 2 minutes ++ ":"
  ++ PyStr.of_int_pad 2 seconds ++ "," ++ PyStr.of_int_pad 3 milliseconds.

Definition to_srt (segment : TranscriptionSegment) (translated : string) : string :=
  PyStr.of_int (id segment) ++ nl
  ++ to_srt_timestamp (start_time segment) ++ " --> "
  ++ to_srt_timestamp (end_time segment) ++ nl
  ++ translated ++ nl.

(** [{t.segment_id: t for t in translations}]. *)
Definition translation_map (translations : list TranslationResult) : gmap Z TranslationResult :=
  fold_left (fun m t => <[segment_id t := t]> m) translations ∅.

(** The loop that fills [srt_content]. *)
Definition srt_content (segments : list TranscriptionSegment)
    (translations : list TranslationResult) : list string :=
  let tm := translation_map translations in
  fold_left
    (fun content segment =>
       match tm !! id segment with
       | Some translation => (content ++ [to_srt segment (translated_text translation)])%list
       | None => (content ++ [to_srt segment ("[" ++ text segment ++ "]")%string])%list
       end)
    segments [].

(** How writing the output file ends: in full, not at all (the directory
    or the file cannot be made), or cut after some bytes. *)
Inductive write_outcome := Written | Refused | Truncated (n : nat).

(** [generate_srt]: the status returned and the text files afterwards. *)
Definition generate_srt (io : write_outcome) (segments : list TranscriptionSegment)
    (translations : list TranslationResult) (output_path : string)
    (files : gmap string string) : bool * gmap string string :=
  let body := PyStr.join nl (srt_content segments translations) in
  match io with
  | Written => (true, <[output_path := body]> files)
  | Refused => (false, files)
  | Truncated n => (false, <[output_path := substring 0 n body]> files)
  end.

(** ** Cache statistics *)

Record CacheStats := {
  stat_hits : nat;
  stat_misses : nat;
  hit_rate : Q;
  stat_size : nat
}.

Definition get_stats (c : TranslationCache) : CacheStats :=
  let total := (hits c + misses c)%nat in
  {| stat_hits := hits c;
     stat_misses := misses c;
     hit_rate := if (0 <? total)%nat
                 then (inject_Z (Z.of_nat (hits c)) / inject_Z (Z.of_nat total))%Q
                 else 0%Q;
     stat_size := size (memory_cache c) |}.

(** ** Post-processing: transitions between segments *)

Definition continuation_words : list string := ["and"; "but"; "so"; "because"; "then"].

(** [_segments_connected]; [lower] is [str.lower].  [None] is the
    [IndexError] of [text2.split()[0]]. *)
Definition _segments_connected (lower : string -> string) (text1 text2 : string)
  : option bool :=
  match text2 with
  | EmptyString => Some (existsb (String.eqb "") continuation_words)
  | _ =>
      match PyStr.split text2 with
      | [] => None
      | first :: _ => Some (existsb (String.eqb (lower first)) continuation_words)
      end
  end.

(** [_adjust_for_flow]; [islower] is [str.islower] on the first character. *)
Definition _adjust_for_flow (islower : string -> bool) (prev_text curr_text : string)
  : string :=
  if negb (String.eqb curr_text "") && islower (PyStr.take 1 curr_text) then
    if String.prefix "and " curr_text || String.prefix "but " curr_text
       || String.prefix "so " curr_text
    then curr_text
    else curr_text
  else curr_text.

Definition with_translated_text (r : TranslationResult) (t : string) : TranslationResult :=
  {| segment_id := segment_id r; original_text := original_text r;
     translated_text := t; model_used := model_used r;
     tr_confidence := tr_confidence r; complexity_score := complexity_score r;
     cached := cached r; cost_estimate := cost_estimate r;
     processing_time := processing_time r |}.

(** The loop of [_smooth_transitions] from the second result on, [prev]
    being the result before, as the loop has left it. *)
Fixpoint smooth_from (lower : string -> string) (islower : string -> bool)
    (prev : TranslationResult) (rest : list TranslationResult)
  : option (list TranslationResult) :=
  match rest with
  | [] => Some []
  | curr :: rest' =>
      match _segments_connected lower (original_text prev) (original_text curr) with
      | None => None
      | Some connected =>
          let curr' :=
            if connected
            then with_translated_text curr
                   (_adjust_for_flow islower (translated_text prev) (translated_text curr))
            else curr in
          match smooth_from lower islower curr' rest' with
          | Some out => Some (curr' :: out)
          | None => None
          end
      end
  end.

(** [_smooth_transitions]: the results as the loop leaves them, [None] when
    an exception leaves it. *)
Definition _smooth_transitions (lower : string -> string) (islower : string -> bool)
    (results : list TranslationResult) : option (list TranslationResult) :=
  match results with
  | [] => Some []
  | first :: rest =>
      match smooth_from lower islower first rest with
      | Some out => Some (first :: out)
      | None => None
      end
  end.

End Pipeline.

(* ===================================================================== *)
(** * Concrete runs *)
(* ===================================================================== *)

Module Scenario.

(** A transcription job of [n] one-second segments, checkpointed every ten
    segments under [.checkpoints]. *)
Definition raw (i : nat) : Whisper.RawSegment :=
  {| Whisper.rs_start := inject_Z (Z.of_nat i);
     Whisper.rs_end := inject_Z (Z.of_nat i + 1);
     Whisper.rs_text := " segment "; Whisper.rs_words := None |}.

Definition audio (n : nat) : Whisper.WhisperResult :=
  {| Whisper.wr_language := "th"; Whisper.wr_segments := map raw (seq 0 n) |}.

Definition env : Whisper.Env :=
  {| Whisper.time_at := fun k => inject_Z (Z.of_nat k);
     Whisper.iso_at := fun _ => "2025-01-01T00:00:00";
     Whisper.show_bar := true; Whisper.answer := "y" |}.

Definition transcriber : Whisper.WhisperTranscriber :=
  {| Whisper.model_name := "large-v3"; Whisper.device_name := "cpu";
     Whisper.ckpt_base := Some ".checkpoints"; Whisper.checkpoint_interval := 10;
     Whisper.current_checkpoint_data := None |}.

Definition manager : Whisper.CheckpointManager :=
  {| Whisper.checkpoint_dir := ".checkpoints/abcd1234" |}.

Definition ids (r : option Whisper.TranscriptResult * Whisper.WhisperTranscriber * FS.disk)
  : option (list Z) :=
  option_map (fun t => map Whisper.id (Whisper.segments t)) (fst (fst r)).

(** The run from an empty disk that nothing interrupts. *)
Definition uninterrupted (n : nat) :=
  Whisper.transcribe_file transcriber "video.mp4" "abcd1234" 0 false env (audio n) ∅.

(** The disk left by a run that is killed after [k] segments. *)
Definition killed (n k : nat) : FS.disk :=
  Whisper.killed_after k transcriber "video.mp4" "abcd1234" 0 false env (audio n) ∅.

(** The run that resumes on that disk, the user confirming. *)
Definition resumed (n k : nat) :=
  Whisper.transcribe_file transcriber "video.mp4" "abcd1234" 0 true env (audio n)
    (killed n k).

Definition checkpoint_record : Whisper.CheckpointData :=
  {| Whisper.video_file := "video.mp4"; Whisper.video_hash := "abcd1234";
     Whisper.model := "large-v3"; Whisper.device := "cpu";
     Whisper.start_time := None; Whisper.end_time := None;
     Whisper.last_segment_id := 9; Whisper.last_timestamp := 10;
     Whisper.total_segments := 25;
     Whisper.created_at := "2025-01-01T00:00:00";
     Whisper.last_updated := "2025-01-01T00:00:10";
     Whisper.start_timestamp := 0; Whisper.speed := 1 |}.

(** Two Kaggle checkpoints of the video [ep-01]. *)
Definition kaggle_manager : Kaggle.CheckpointManager :=
  {| Kaggle.video_name := "ep-01"; Kaggle.output_dir := "/kaggle/working/checkpoints";
     Kaggle.checkpoint_interval := 1 |}.

Definition kaggle_segment (i : Z) : Json.json :=
  Json.JDict [ ("id", Json.JInt i); ("start", Json.JFloat (inject_Z i));
               ("end", Json.JFloat (inject_Z (i + 1))); ("text", Json.JStr "segment") ].

Definition kaggle_metadata : list (string * Json.json) :=
  [ ("model_name", Json.JStr "large-v3"); ("estimated_total", Json.JInt 100) ].

Definition kaggle_first : FS.disk :=
  snd (Kaggle.save_checkpoint kaggle_manager [kaggle_segment 0] kaggle_metadata false
         "2025-01-01T00:00:00" 1 ∅).

(** The disk when the process is killed after [k] chunks of the second
    checkpoint. *)
Definition kaggle_killed (k : nat) : FS.disk :=
  Kaggle.save_checkpoint_killed k kaggle_manager [kaggle_segment 0; kaggle_segment 1]
    kaggle_metadata false "2025-01-01T00:00:10" 2 kaggle_first.

Definition kaggle_second : FS.disk :=
  snd (Kaggle.save_checkpoint kaggle_manager [kaggle_segment 0; kaggle_segment 1]
         kaggle_metadata false "2025-01-01T00:00:10" 2 kaggle_first).

(** A pipeline without an OpenAI client, one whose client fails on its
    first call only, and one whose dictionary search raises on one text. *)
Definition mock_world : Pipeline.World :=
  {| Pipeline.client := None; Pipeline.search_terms := fun _ => Some [];
     Pipeline.find_term := fun _ => None; Pipeline.seconds_for := fun _ => (1 # 2)%Q |}.

Definition flaky_world : Pipeline.World :=
  {| Pipeline.client :=
       Some (fun n _ _ => if (n =? 0)%nat then None else Some "The price is rising");
     Pipeline.search_terms := fun _ => Some [];
     Pipeline.find_term := fun _ => None; Pipeline.seconds_for := fun _ => (1 # 2)%Q |}.

Definition raising_world : Pipeline.World :=
  {| Pipeline.client := None;
     Pipeline.search_terms := fun t => if String.eqb t "สอง" then None else Some [];
     Pipeline.find_term := fun _ => None; Pipeline.seconds_for := fun _ => (1 # 2)%Q |}.

Definition document : Pipeline.DocumentContext :=
  {| Pipeline.doc_type := Pipeline.TUTORIAL; Pipeline.primary_topic := "forex";
     Pipeline.trading_context := Pipeline.NEUTRAL; Pipeline.segment_contexts := [] |}.

Definition segment (i : Z) (t : string) : Pipeline.TranscriptionSegment :=
  {| Pipeline.id := i; Pipeline.start_time := inject_Z i; Pipeline.end_time := inject_Z (i + 1);
     Pipeline.text := t; Pipeline.confidence := (95 # 100)%Q; Pipeline.speaker := None |}.

Definition price_up : Pipeline.TranscriptionSegment := segment 1 "ราคาขึ้น".

(** The same segment translated twice by the same pipeline. *)
Definition first_call :=
  Pipeline._translate_single_segment mock_world price_up None document Pipeline.new_state.

Definition second_call :=
  Pipeline._translate_single_segment mock_world price_up None document (snd first_call).

End Scenario.

(* ===================================================================== *)
(** * The specification's own words *)
(* ===================================================================== *)

Module Spec.
Import Pipeline.

(** The context is flagged as figurative. *)
Definition flagged_metaphor (ctx : option SegmentContext) : bool :=
  match ctx with Some c => is_metaphor c | None => false end.

Definition flagged_question (ctx : option SegmentContext) : bool :=
  match ctx with Some c => is_question c | None => false end.

Definition many_key_terms (ctx : option SegmentContext) : bool :=
  match ctx with Some c => (3 <? length (key_terms c))%nat | None => false end.

Definition has_hard_pattern (text : string) : bool :=
  existsb (fun pattern => PyStr.contains pattern text) complex_patterns.

Definition signal (present : bool) (weight : Q) : Q := if present then weight else 0%Q.

(** The weighted sum of section 4.5. *)
Definition weighted_sum (text : string) (ctx : option SegmentContext) : Q :=
  (signal (200 <? PyStr.len text)%nat (2 # 10)
   + signal (flagged_metaphor ctx) (3 # 10)
   + signal (many_key_terms ctx) (2 # 10)
   + signal (flagged_question ctx) (- (1 # 10))
   + signal (has_hard_pattern text) (2 # 10))%Q.

(** Clamping to [[0,1]]. *)
Definition clamp01 (x : Q) : Q := Qmin 1 (Qmax 0 x).

(** The figurative override of the tier ladder. *)
Definition override (score : Q) (ctx : option SegmentContext) : Prop :=
  flagged_metaphor ctx = true /\ (5 # 10 < score)%Q.

(** Results in segment-id order, and in strictly increasing order. *)
Definition id_le (a b : TranslationResult) : Prop := segment_id a <= segment_id b.

Definition id_lt (a b : TranslationResult) : Prop := segment_id a < segment_id b.

(** The number of the three further positive signals that are present. *)
Definition other_signals (text : string) (ctx : option SegmentContext) : nat :=
  (Nat.b2n (200 <? PyStr.len text)%nat + Nat.b2n (many_key_terms ctx)
   + Nat.b2n (has_hard_pattern text))%nat.

(** The segments a pipeline has counted. *)
Definition counted (s : PipelineStats) : nat :=
  (cached_segments s + gpt35_segments s + gpt4_segments s + local_segments s)%nat.

(** A source text that is not empty and holds white space only. *)
Definition blank (text : string) : Prop := text <> "" /\ PyStr.split text = [].

(** The string a context is looked up and stored under. *)
Definition context_string (ctx : option SegmentContext) : string :=
  match ctx with Some c => repr c | None => "" end.

(** A name matches the pattern [prefix*suffix] of [glob]. *)
Definition matches (prefix suffix n : string) : bool :=
  FS.starts_with prefix n && FS.ends_with suffix n
  && (String.length prefix + String.length suffix <=? String.length n)%nat
  && negb (PyStr.contains "/"
             (substring (String.length prefix)
                (String.length n - String.length prefix - String.length suffix) n)).

(** What keeps the loop of [transcribe_file] from raising: a progress
    tracker that does not divide by a zero total, and a checkpoint interval
    that is not zero when there is a checkpoint manager. *)
Definition tracker_ok (t : Whisper.ProgressTracker) : Prop :=
  Whisper.pbar t = true \/ Qeq_bool (Whisper.total_duration t) 0 = false.

Definition interval_ok (cm : option Whisper.CheckpointManager)
    (self : Whisper.WhisperTranscriber) : Prop :=
  cm = None \/ Whisper.checkpoint_interval self <> 0.

(** Two disks agree outside the directory [dir]; with a manager, outside
    its checkpoint directory, and without one, everywhere. *)
Definition same_outside (dir : string) (d1 d2 : FS.disk) : Prop :=
  forall p, FS.starts_with (dir ++ "/") p = false -> d1 !! p = d2 !! p.

Definition same_files (cm : option Whisper.CheckpointManager) (d1 d2 : FS.disk) : Prop :=
  match cm with
  | Some m => same_outside (Whisper.checkpoint_dir m) d1 d2
  | None => d1 = d2
  end.

(** The batcher of a run writes under the segments directory of its
    manager. *)
Definition batcher_of (cm : option Whisper.CheckpointManager)
    (b : option Whisper.SegmentBatcher) : Prop :=
  match b, cm with
  | Some b, Some m => Whisper.storage_dir b = Whisper.segments_dir m
  | Some _, None => False
  | None, _ => True
  end.

(** The state an iteration ends in, whether it raised or not. *)
Definition state_of (o : Whisper.outcome) : Whisper.LoopState :=
  match o with Whisper.Running st | Whisper.Raised st => st end.

(** The name of the batch file number [k] under [dir]. *)
Definition batch_name (dir : string) (k : nat) : string :=
  dir ++ "/batch_" ++ PyStr.of_int_pad 3 (Z.of_nat k) ++ ".json".

(** The segments of a job handed to a batcher one by one, as the loop of
    [transcribe_file] does, and the [flush] that follows the loop. *)
Definition add_all (segs : list Whisper.TranscriptSegment) (b : Whisper.SegmentBatcher)
    (d : FS.disk) : Whisper.SegmentBatcher * FS.disk :=
  fold_left (fun bd seg => Whisper.add_segment seg (fst bd) (snd bd)) segs (b, d).

Definition write_all (segs : list Whisper.TranscriptSegment) (b : Whisper.SegmentBatcher)
    (d : FS.disk) : Whisper.SegmentBatcher * FS.disk :=
  Whisper.flush (fst (add_all segs b d)) (snd (add_all segs b d)).

(** Strictly before, in the order of [sorted]. *)
Definition name_lt (a b : string) : Prop := String.le a b /\ a <> b.

(** What a batcher under [dir] has on disk after the segments [done]: its
    files are the batches [bs], in the order of their numbers, and no other
    file of the directory has the name of a batch file. *)
Definition batcher_inv (dir : string) (done : list Whisper.TranscriptSegment)
    (b : Whisper.SegmentBatcher) (d : FS.disk) : Prop :=
  Whisper.storage_dir b = dir
  /\ exists bs : list (list Whisper.TranscriptSegment),
       length bs = Whisper.batch_count b
       /\ (concat bs ++ Whisper.current_batch b)%list = done
       /\ (forall k batch, bs !! k = Some batch ->
             (d !! batch_name dir k) ≫= FS.json_load
             = Some (Json.JList (map Whisper.segment_to_json batch)))
       /\ (forall n, n ∈ FS.glob (dir ++ "/batch_") ".json" d ->
             exists k, (k < length bs)%nat /\ n = batch_name dir k).

(** The checkpoint on disk after [j] rounds of a run that saves one every
    [ci] segments: none before the first save, and then the record of the
    last save, which names the last segment of the last full interval. *)
Definition checkpointed (m : Whisper.CheckpointManager) (ci : Z) (j : nat) (d : FS.disk)
  : Prop :=
  if Z.of_nat j <? ci then d !! Whisper.checkpoint_file m = None
  else exists c, Whisper.load_checkpoint m d = Some c
                 /\ Whisper.last_segment_id c = ci * (Z.of_nat j / ci) - 1.

(** The state of a run that started afresh, after [j] rounds of its loop:
    the segments made so far, and what is on disk of them. *)
Definition fresh_inv (m : Whisper.CheckpointManager) (offset : Q)
    (raw : list Whisper.RawSegment) (ci : Z) (j : nat) (st : Whisper.LoopState) : Prop :=
  Whisper.ls_segments st = take j (imap (Whisper.make_segment offset) raw)
  /\ tracker_ok (Whisper.ls_tracker st)
  /\ Whisper.checkpoint_interval (Whisper.ls_self st) = ci
  /\ checkpointed m ci j (Whisper.ls_disk st)
  /\ exists b, Whisper.ls_batcher st = Some b
       /\ Whisper.batch_size b = 100
       /\ batcher_inv (Whisper.segments_dir m) (Whisper.ls_segments st) b (Whisper.ls_disk st)
       /\ Z.of_nat (Whisper.batch_count b) * 100
          + Z.of_nat (length (Whisper.current_batch b)) = Z.of_nat j
       /\ Z.of_nat (length (Whisper.current_batch b)) < 100.

(** The end of the model's segment of index [k], 0 when there is none. *)
Definition end_at (raw : list Whisper.RawSegment) (k : nat) : Q :=
  match raw !! k with Some p => Whisper.rs_end p | None => 0%Q end.

(** A value of a batch file that [get_all_segments] cannot make a segment
    of: one that is not an object (subscripting it raises [TypeError]), or
    an object without one of the keys [id], [start], [end] and [text], which
    are read with [seg_dict[...]] ([KeyError]). *)
Definition has_key (k : string) (d : list (string * Json.json)) : bool :=
  match Json.get k d with Some _ => true | None => false end.

Definition unreadable (j : Json.json) : bool :=
  match j with
  | Json.JDict d =>
      negb (has_key "id" d && has_key "start" d && has_key "end" d && has_key "text" d)
  | _ => true
  end.

End Spec.

(* ===================================================================== *)
(** * Properties *)
(* ===================================================================== *)

(** The test suite of RFC 1321, appendix A.5. *)
Example md5_empty : MD5.hexdigest (PyStr.encode "") = "d41d8cd98f00b204e9800998ecf8427e".
Proof. vm_compute. reflexivity. Qed.

Example md5_abc : MD5.hexdigest (PyStr.encode "abc") = "900150983cd24fb0d6963f7d28e17f72".
Proof. vm_compute. reflexivity. Qed.

Example md5_alphabet :
  MD5.hexdigest (PyStr.encode "abcdefghijklmnopqrstuvwxyz") = "c3fcd3d76192e4007dfb496cca67e13b".
Proof. vm_compute. reflexivity. Qed.

Example md5_two_blocks :
  MD5.hexdigest (PyStr.encode
    "12345678901234567890123456789012345678901234567890123456789012345678901234567890")
  = "57edf4a22be3c955ac49da2e2107b67a".
Proof. vm_compute. reflexivity. Qed.

Example len_thai : PyStr.len "ราคาขึ้น" = 8%nat.
Proof. reflexivity. Qed.

Example take_thai : PyStr.take 4 "ราคาขึ้น" = "ราคา".
Proof. reflexivity. Qed.

Example split_example : PyStr.split "  the trend   is your friend " = ["the"; "trend"; "is"; "your"; "friend"].
Proof. reflexivity. Qed.

Example of_int_pad_example : PyStr.of_int_pad 3 7 = "007" /\ PyStr.of_int 1205 = "1205" /\ PyStr.of_int 0 = "0".
Proof. repeat split; reflexivity. Qed.

(** ** Arithmetic on floats *)

Lemma Qltb_lt (a b : Q) : Pipeline.Qltb a b = true <-> (a < b)%Q.
Proof.
  unfold Pipeline.Qltb. rewrite negb_true_iff. split.
  - intros H. apply Qnot_le_lt. intros Hle. apply Qle_bool_iff in Hle. congruence.
  - intros H. destruct (Qle_bool b a) eqn:E; [|reflexivity].
    apply Qle_bool_iff in E. exfalso. exact (Qlt_not_le _ _ H E).
Qed.

Lemma Qltb_ge (a b : Q) : Pipeline.Qltb a b = false <-> (b <= a)%Q.
Proof.
  unfold Pipeline.Qltb. rewrite negb_false_iff. apply Qle_bool_iff.
Qed.

Lemma positive_lt (x : Q) : Whisper.positive x = true <-> (0 < x)%Q.
Proof. apply (Qltb_lt 0 x). Qed.

Lemma positive_le (x : Q) : Whisper.positive x = false <-> (x <= 0)%Q.
Proof. apply (Qltb_ge 0 x). Qed.

(** ** ProgressTracker *)

Section Progress.
Import Whisper.

Lemma get_speed_idle (now : Q) (t : ProgressTracker) :
  (processed_duration t == 0)%Q -> (get_speed now t == 0)%Q.
Proof.
  intros H. unfold get_speed. destruct (positive _); [|reflexivity].
  rewrite H. unfold Qdiv. apply Qmult_0_l.
Qed.

(** C5, as the specification has it, asks for an estimate that is not zero
    while nothing has been processed.  A tracker made for 100 seconds of
    audio, asked five seconds later, has speed 0 and answers 0. *)
Lemma get_eta_zero_when_idle :
  let t := new_tracker 100 0 true in
  (processed_duration t == 0)%Q /\ (get_speed 5 t == 0)%Q /\ (get_eta 5 t == 0)%Q.
Proof. vm_compute. repeat split; reflexivity. Qed.

(** C5 (amended): [get_eta] never fails; while the processed duration is
    zero the speed is zero and the estimate is the number 0, which thus
    stands for "unknown"; when the speed is positive the estimate is the
    remaining duration over the speed. *)
Theorem get_eta_spec (now : Q) (t : ProgressTracker) :
  ((processed_duration t == 0)%Q ->
     (get_speed now t == 0)%Q /\ (get_eta now t == 0)%Q) /\
  ((0 < get_speed now t)%Q ->
     (get_eta now t == (total_duration t - processed_duration t) / get_speed now t)%Q).
Proof.
  split.
  - intros H. pose proof (get_speed_idle now t H) as Hs. split; [exact Hs|].
    unfold get_eta. destruct (positive (get_speed now t)) eqn:E; [|reflexivity].
    apply positive_lt in E. rewrite Hs in E. exfalso. exact (Qlt_irrefl 0 E).
  - intros H. unfold get_eta. apply positive_lt in H. rewrite H. reflexivity.
Qed.

Lemma get_eta_spec_witness :
  (get_eta 5 (new_tracker 100 0 true) == 0)%Q /\
  (get_eta 10 {| total_duration := 100; pt_start_time := 0; last_update := 10;
                 processed_duration := 40; pbar := true |} == 15)%Q.
Proof.
  split.
  - apply (proj1 (get_eta_spec 5 (new_tracker 100 0 true))). reflexivity.
  - etransitivity.
    + apply (proj2 (get_eta_spec 10 _)). reflexivity.
    + reflexivity.
Defined.

End Progress.

(** ** Routing *)

Section Routing.
Import Pipeline Spec.

(** C6: the tier ladder with the figurative override.  The override, a
    context flagged as metaphor with a score above 0.5, gives GPT-4 whatever
    the ladder says; otherwise a score below 0.3 and a score from 0.3 to
    below 0.7 give GPT-3.5; a score of 0.7 or more gives GPT-4. *)
Theorem select_model_ladder (s : Q) (ctx : option SegmentContext) :
  (0 <= s <= 1)%Q ->
  (override s ctx -> _select_model s ctx = GPT_4) /\
  (~ override s ctx -> (s < 3 # 10)%Q -> _select_model s ctx = GPT_35_TURBO) /\
  (~ override s ctx -> (3 # 10 <= s < 7 # 10)%Q -> _select_model s ctx = GPT_35_TURBO) /\
  ((7 # 10 <= s)%Q -> _select_model s ctx = GPT_4).
Proof.
  intros _.
  assert (Hov : (match ctx with
                 | Some c => is_metaphor c && Qltb (5 # 10) s
                 | None => false
                 end) = true <-> override s ctx).
  { unfold override, flagged_metaphor. destruct ctx as [c|].
    - rewrite andb_true_iff, Qltb_lt. reflexivity.
    - split; [discriminate | intros [H _]; discriminate]. }
  unfold _select_model.
  destruct (match ctx with Some c => is_metaphor c && Qltb (5 # 10) s | None => false end)
    eqn:E.
  - repeat split; try reflexivity; intros Hn; exfalso; apply Hn, Hov; reflexivity.
  - assert (Hno : ~ override s ctx) by (intros H; apply Hov in H; discriminate).
    split; [intros H; contradiction|].
    split; [|split].
    + intros _ Hlt. apply Qltb_lt in Hlt. rewrite Hlt. reflexivity.
    + intros _ [_ Hlt]. apply Qltb_lt in Hlt. rewrite Hlt.
      destruct (Qltb s (3 # 10)); reflexivity.
    + intros Hge.
      assert (H7 : Qltb s (7 # 10) = false) by (apply Qltb_ge; exact Hge).
      assert (H3 : Qltb s (3 # 10) = false).
      { apply Qltb_ge. eapply Qle_trans; [|exact Hge]. discriminate. }
      rewrite H3, H7. reflexivity.
Qed.

Lemma select_model_ladder_witness :
  let ctx := Some {| is_question := false; is_metaphor := true;
                     key_terms := []; repr := "SegmentContext(...)" |} in
  _select_model (6 # 10) ctx = GPT_4 /\ _select_model (2 # 10) None = GPT_35_TURBO.
Proof.
  intros ctx. split.
  - refine (proj1 (select_model_ladder (6 # 10) ctx _) _).
    + split; discriminate.
    + split; reflexivity.
  - refine (proj1 (proj2 (select_model_ladder (2 # 10) None _)) _ _).
    + split; discriminate.
    + intros [H _]. discriminate.
    + reflexivity.
Defined.

(** C7: the complexity score is the weighted sum of the five signals,
    clamped to [[0,1]]; it lies in [[0,1]]; being a function of the text and
    of the context alone, it reads and changes no state. *)
Theorem calculate_complexity_spec (text : string) (ctx : option SegmentContext) :
  (_calculate_complexity text ctx == clamp01 (weighted_sum text ctx))%Q /\
  (0 <= _calculate_complexity text ctx <= 1)%Q.
Proof.
  unfold _calculate_complexity, weighted_sum, clamp01, has_hard_pattern,
    flagged_metaphor, flagged_question, many_key_terms, signal.
  destruct (200 <? PyStr.len text)%nat;
  destruct (existsb (fun pattern => PyStr.contains pattern text) complex_patterns);
  destruct ctx as [[q m k r]|]; cbn [is_question is_metaphor key_terms];
  try (destruct q); try (destruct m); try (destruct (3 <? length k)%nat);
  vm_compute; (split; [reflexivity | split; discriminate]).
Qed.

End Routing.

(** ** Checkpoints *)

Section Checkpoints.
Import Json FS Whisper.

Lemma append_inj_l (p a b : string) : p ++ a = p ++ b -> a = b.
Proof.
  induction p as [|c p IH]; simpl; intros H; [exact H|].
  injection H as H. exact (IH H).
Qed.

Lemma temp_file_ne (m : CheckpointManager) : temp_file m <> checkpoint_file m.
Proof.
  unfold temp_file, checkpoint_file. intros H. apply append_inj_l in H. discriminate.
Qed.

Lemma from_dict_asdict (data : CheckpointData) : from_dict (asdict data) = Some data.
Proof.
  destruct data as [vf vh mo de st en ls lt ts ca lu sts sp].
  destruct st, en; reflexivity.
Qed.

Lemma save_step_inv m data d0 s s' :
  save_inv m data d0 s -> save_step m data s s' -> save_inv m data d0 s'.
Proof.
  intros Hinv Hstep. pose proof (temp_file_ne m) as Hne.
  destruct Hstep as [d | d f Hf Hc | d f Hf Hc | d]; unfold save_inv in *; cbn in *.
  - subst d. unfold open_w. split.
    + apply lookup_insert_ne. exact Hne.
    + eexists. split; [apply lookup_insert_eq | reflexivity].
  - destruct Hinv as [Hck (g & Hg & Hp)]. unfold write_chunk. rewrite Hf. split.
    + rewrite lookup_insert_ne by exact Hne. exact Hck.
    + eexists. split; [apply lookup_insert_eq|]. cbn. congruence.
  - destruct Hinv as [Hck (g & Hg & Hp)]. split; [exact Hck|].
    exists f. repeat split; congruence.
  - destruct Hinv as [Hck (g & Hg & Hp & Hc)]. unfold replace. rewrite Hg.
    exists g. split; [apply lookup_insert_eq | split; assumption].
Qed.

Lemma save_reaches_inv m data d0 s :
  save_reaches m data {| pc := AtOpen; dsk := d0 |} s -> save_inv m data d0 s.
Proof.
  induction 1 as [|s1 s2 _ IH Hstep].
  - reflexivity.
  - exact (save_step_inv m data d0 s1 s2 IH Hstep).
Qed.

(** The writes of [json.dump], one chunk after the other. *)
Lemma dumping_reached m data d k :
  (k <= chunks (asdict data))%nat ->
  save_reaches m data {| pc := AtOpen; dsk := d |}
    {| pc := Dumping;
       dsk := <[temp_file m := {| payload := asdict data; written := k; mtime := 0 |}]> d |}.
Proof.
  induction k as [|k IH]; intros Hk.
  - eapply reaches_step; [apply reaches_refl | apply step_open].
  - eapply reaches_step; [apply IH; lia|].
    match goal with
    | |- save_step _ _ {| pc := _; dsk := ?d1 |} {| pc := _; dsk := ?d2 |} =>
        replace d2 with (write_chunk (temp_file m) d1)
    end.
    + eapply step_write; [apply lookup_insert_eq|].
      unfold complete; cbn [payload written]. apply Nat.leb_gt. lia.
    + unfold write_chunk. rewrite lookup_insert_eq. cbn [payload written mtime].
      apply insert_insert_eq.
Qed.

(** [save_checkpoint], the function [transcribe_file] uses, is the end of a
    run of the steps. *)
Lemma save_checkpoint_reached m data d :
  save_reaches m data {| pc := AtOpen; dsk := d |}
    {| pc := Saved; dsk := save_checkpoint m data d |}.
Proof.
  eapply reaches_step; [eapply reaches_step|].
  - apply (dumping_reached m data d (chunks (asdict data))). lia.
  - eapply step_close; [apply lookup_insert_eq|].
    unfold complete; cbn [payload written]. apply Nat.leb_refl.
  - apply step_replace.
Qed.

(** C2 (amended): [save_checkpoint] of scripts/whisper_transcribe.py is
    atomic.  Whatever state a run has reached when the process stops,
    [load_checkpoint] gives what it gave before the run or the new record
    in full; and a run that ends, which is a run of these steps, leaves the
    new record. *)
Theorem save_checkpoint_atomic (m : CheckpointManager) (data : CheckpointData)
    (d : disk) (s : save_state) :
  save_reaches m data {| pc := AtOpen; dsk := d |} s ->
  (load_checkpoint m (dsk s) = load_checkpoint m d
   \/ load_checkpoint m (dsk s) = Some data)
  /\ save_reaches m data {| pc := AtOpen; dsk := d |}
       {| pc := Saved; dsk := save_checkpoint m data d |}
  /\ load_checkpoint m (save_checkpoint m data d) = Some data.
Proof.
  intros Hs.
  assert (Hsaved : forall s', save_inv m data d s' -> pc s' = Saved ->
                     load_checkpoint m (dsk s') = Some data).
  { intros s' Hinv Hpc. unfold save_inv in Hinv. rewrite Hpc in Hinv.
    destruct Hinv as (f & Hf & Hp & Hc). unfold load_checkpoint, json_load.
    rewrite Hf, Hc, Hp. apply from_dict_asdict. }
  split; [|split].
  - pose proof (save_reaches_inv m data d s Hs) as Hinv.
    destruct (pc s) eqn:Hpc.
    + left. unfold save_inv in Hinv. rewrite Hpc in Hinv. congruence.
    + left. unfold save_inv in Hinv. rewrite Hpc in Hinv. destruct Hinv as [H _].
      unfold load_checkpoint. rewrite H. reflexivity.
    + left. unfold save_inv in Hinv. rewrite Hpc in Hinv. destruct Hinv as [H _].
      unfold load_checkpoint. rewrite H. reflexivity.
    + right. exact (Hsaved s Hinv Hpc).
  - apply save_checkpoint_reached.
  - apply (Hsaved {| pc := Saved; dsk := save_checkpoint m data d |}); [|reflexivity].
    apply save_reaches_inv, save_checkpoint_reached.
Qed.

End Checkpoints.

Section Checkpoint_runs.
Import Json FS Whisper Scenario.

Lemma save_checkpoint_atomic_witness :
  let s := {| pc := Dumping;
              dsk := open_w (temp_file manager) (asdict checkpoint_record) 0 ∅ |} in
  load_checkpoint manager (dsk s) = load_checkpoint manager ∅
  \/ load_checkpoint manager (dsk s) = Some checkpoint_record.
Proof.
  intros s. apply (proj1 (save_checkpoint_atomic manager checkpoint_record ∅ s
    (reaches_step manager checkpoint_record _ _ _
       (reaches_refl manager checkpoint_record _)
       (step_open manager checkpoint_record ∅)))).
Defined.

(** C2, as the specification has it, also covers [save_checkpoint] of
    kaggle/checkpoint_manager.py, which writes the numbered checkpoint file
    in place.  With one checkpoint on disk, a second save killed after three
    chunks leaves a newest file that does not parse: [load_checkpoint] then
    raises, and gives neither the first checkpoint nor the second. *)
Lemma kaggle_save_not_atomic :
  Kaggle.load_checkpoint kaggle_manager kaggle_first
    = Kaggle.Ok (JList [kaggle_segment 0],
                 JDict (Kaggle.merged kaggle_metadata
                   [ ("total_segments", JInt 1); ("last_segment_time", JFloat 1);
                     ("progress_percentage", JFloat (1 / 100 * 100));
                     ("status", JStr "in_progress");
                     ("checkpoint_file", JStr "ep-01_checkpoint_0001.json") ]))
  /\ Kaggle.load_checkpoint kaggle_manager (kaggle_killed 3)
       = Kaggle.Raise Kaggle.JSONDecodeError
  /\ (exists md, Kaggle.load_checkpoint kaggle_manager kaggle_second
                 = Kaggle.Ok (JList [kaggle_segment 0; kaggle_segment 1], md)).
Proof.
  split; [|split].
  - vm_compute. reflexivity.
  - vm_compute. reflexivity.
  - eexists. vm_compute. reflexivity.
Qed.

(** C1 at 25 segments, the process killed after segment 19, and at 105
    segments, the process killed after segment 99.  The uninterrupted run
    gives the ids 0 to 24.  The checkpoint of the first killed run names
    segment 19, no batch file exists yet, and the resumed run gives the ids
    19 to 24 only: 0 to 18 are missing.  The checkpoint of the second names
    segment 99, the first batch file holds 0 to 99, and the resumed run
    processes segment 99 again: its id is there twice. *)
Theorem resume_differs_from_uninterrupted_run :
  ids (uninterrupted 25) = Some (map Z.of_nat (seq 0 25))
  /\ option_map last_segment_id (load_checkpoint manager (killed 25 20)) = Some 19
  /\ ids (resumed 25 20) = Some (map Z.of_nat (seq 19 6))
  /\ ids (uninterrupted 105) = Some (map Z.of_nat (seq 0 105))
  /\ option_map last_segment_id (load_checkpoint manager (killed 105 100)) = Some 99
  /\ ids (resumed 105 100) = Some (map Z.of_nat (seq 0 100 ++ seq 99 6)%list).
Proof. vm_compute. repeat split; reflexivity. Qed.

End Checkpoint_runs.

(** ** The translation cache *)

Section Cache.
Import Pipeline Scenario.

(** The string hashed by the lookup of [_translate_single_segment] ends
    with a bar, the string hashed when its result is stored ends with the
    name of the model: they differ for every text, context and model. *)
Lemma lookup_and_store_hash_different_strings (text context : string)
    (model : TranslationModel) :
  text ++ "|" ++ context ++ "|" ++ "" <> text ++ "|" ++ context ++ "|" ++ value model.
Proof.
  intros H. apply (append_inj_l text) in H. apply (append_inj_l "|") in H.
  apply (append_inj_l context) in H. apply (append_inj_l "|") in H.
  destruct model; discriminate.
Qed.

(** C3 on the segment "ราคาขึ้น" translated twice without context.  The
    first call stores its result under the key made with the model name,
    the lookup of the second call uses the key made without it: it misses,
    the segment is translated again and its cost is added a second time. *)
Theorem second_call_is_charged_again :
  _generate_cache_key "ราคาขึ้น" "" "" <> _generate_cache_key "ราคาขึ้น" "" "gpt-3.5-turbo"
  /\ option_map cached (fst first_call) = Some false
  /\ option_map cached (fst second_call) = Some false
  /\ hits (cache (snd second_call)) = 0%nat
  /\ misses (cache (snd second_call)) = 2%nat
  /\ (0 < total_cost (stats (snd first_call)))%Q
  /\ (total_cost (stats (snd second_call)) == 2 * total_cost (stats (snd first_call)))%Q.
Proof. vm_compute. repeat split; try reflexivity; discriminate. Qed.

(** C4, as the specification has it, asks for one key for two
    serialisations of a context that differ in the order of the fields.
    The key is the MD5 of the text, the context string and the model joined
    by bars: the two orders give two keys, and what is stored under the one
    is not found under the other. *)
Lemma cache_key_depends_on_field_order :
  let a := "{'topic': 'trend', 'tone': 'casual'}" in
  let b := "{'tone': 'casual', 'topic': 'trend'}" in
  _generate_cache_key "ราคาขึ้น" a "cheap" <> _generate_cache_key "ราคาขึ้น" b "cheap"
  /\ fst (get "ราคาขึ้น" b "cheap" (set "ราคาขึ้น" "The price is rising" a "cheap" new_cache))
     = None.
Proof. vm_compute. split; [discriminate | reflexivity]. Qed.

Lemma set_memory_cache text translation context model c :
  memory_cache (set text translation context model c)
  = <[_generate_cache_key text context model := translation]> (memory_cache c).
Proof. unfold set. destruct (_ =? _)%nat; reflexivity. Qed.

(** C4 (amended): the key is a function of the text, the context string as
    it is given and the model; a translation stored under a text, a context
    string and a model is found by a lookup with the same three, which
    counts one more hit. *)
Theorem get_after_set (text translation context model : string) (c : TranslationCache) :
  let c' := set text translation context model c in
  fst (get text context model c') = Some translation
  /\ hits (snd (get text context model c')) = S (hits c')
  /\ misses (snd (get text context model c')) = misses c'.
Proof.
  intros c'. unfold get. subst c'. rewrite set_memory_cache, lookup_insert_eq.
  repeat split; reflexivity.
Qed.

End Cache.

(** ** Translating the segments of a transcript *)

Section Segments.
Import Pipeline.

Lemma translate_single_segment_id w s c doc st r st' :
  _translate_single_segment w s c doc st = (Some r, st') -> segment_id r = id s.
Proof.
  unfold _translate_single_segment.
  destruct (get _ _ _ _) as [[[|a hit]|] c1];
    try (intros H; injection H as <- _; reflexivity);
    destruct (_perform_translation _ _ _ _ _ _) as [[tr|] st2]; intros H;
    try discriminate; injection H as <- _; reflexivity.
Qed.

Lemma perform_translation_returns w t c doc model st :
  search_terms w t <> None ->
  exists tr st', _perform_translation w t c doc model st = (Some tr, st').
Proof.
  intros Hs. unfold _perform_translation, _build_translation_prompt.
  destruct (search_terms w t) as [entries|]; [|congruence]. cbn.
  destruct (client w) as [create|]; [|eauto].
  destruct (create _ _ _); eauto.
Qed.

Lemma translate_single_segment_returns w s c doc st :
  search_terms w (text s) <> None ->
  exists r st', _translate_single_segment w s c doc st = (Some r, st').
Proof.
  intros Hs. unfold _translate_single_segment.
  destruct (get _ _ _ _) as [[[|a hit]|] c1]; eauto;
    match goal with
    | |- context [_perform_translation ?w ?t ?c ?d ?m ?st] =>
        destruct (perform_translation_returns w t c d m st Hs) as (tr & st2 & ->)
    end; eauto.
Qed.

Lemma perform_translation_calls w t c doc model st tr st' :
  _perform_translation w t c doc model st = (tr, st') ->
  (api_calls st <= api_calls st' <= S (api_calls st))%nat.
Proof.
  unfold _perform_translation.
  destruct (_build_translation_prompt _ _ _ _); [|intros [= <- <-]; lia].
  destruct (client w) as [create|]; [|intros [= <- <-]; lia].
  destruct (create _ _ _); intros [= <- <-]; cbn; lia.
Qed.

Lemma translate_single_segment_calls w s c doc st r st' :
  _translate_single_segment w s c doc st = (r, st') ->
  (api_calls st <= api_calls st' <= S (api_calls st))%nat.
Proof.
  unfold _translate_single_segment.
  destruct (get _ _ _ _) as [[[|a hit]|] c1];
    try (intros [= <- <-]; cbn; lia);
    destruct (_perform_translation _ _ _ _ _ _) as [[tr|] st2] eqn:E;
    apply perform_translation_calls in E; cbn in E;
    intros [= <- <-]; cbn; lia.
Qed.

Lemma collect_spec w doc tasks : forall results st,
  exists extra st',
    collect w doc tasks results st = ((results ++ extra)%list, st')
    /\ (api_calls st' <= api_calls st + length tasks)%nat
    /\ sublist (map segment_id extra) (map (fun t : Task => id (fst t)) tasks)
    /\ (Forall (fun t : Task => search_terms w (text (fst t)) <> None) tasks ->
        map segment_id extra = map (fun t : Task => id (fst t)) tasks).
Proof.
  induction tasks as [|[s c] tasks IH]; intros results st; cbn [collect].
  - exists [], st. rewrite app_nil_r. repeat split; try constructor. cbn; lia.
  - destruct (_translate_single_segment w s c doc st) as [[r|] st1] eqn:E;
      pose proof (translate_single_segment_calls _ _ _ _ _ _ _ E) as Hcalls.
    + destruct (IH (results ++ [r])%list st1) as (extra & st' & -> & Hn & Hsub & Hall).
      exists (r :: extra), st'. split; [|split; [|split]].
      * rewrite <- app_assoc. reflexivity.
      * cbn [length]. lia.
      * cbn. rewrite (translate_single_segment_id _ _ _ _ _ _ _ E).
        apply sublist_skip. exact Hsub.
      * intros HF. inversion HF; subst. cbn.
        rewrite (translate_single_segment_id _ _ _ _ _ _ _ E). f_equal. auto.
    + destruct (IH results st1) as (extra & st' & -> & Hn & Hsub & Hall).
      exists extra, st'. split; [reflexivity|split; [|split]].
      * cbn [length]. lia.
      * cbn. apply sublist_cons. exact Hsub.
      * intros HF. inversion HF as [|? ? Hs _]; subst. cbn in Hs.
        destruct (translate_single_segment_returns w s c doc st Hs) as (r & st2 & E').
        congruence.
Qed.

Lemma submit_ok doc batch :
  Forall (fun s => context_for doc s <> None) batch ->
  exists tasks, submit doc batch = (tasks, true) /\ map fst tasks = batch.
Proof.
  induction 1 as [|s batch Hs _ (tasks & IH & Hm)]; cbn [submit].
  - exists []. split; reflexivity.
  - destruct (context_for doc s) as [c|]; [|congruence]. rewrite IH.
    exists ((s, c) :: tasks). split; [reflexivity|]. cbn. congruence.
Qed.

Lemma run_batches_spec w completion doc size :
  (0 < size)%nat ->
  (forall tasks : list Task, completion tasks ≡ₚ tasks) ->
  forall fuel l results st,
  (length l <= fuel)%nat ->
  Forall (fun s => context_for doc s <> None) l ->
  exists extra st',
    run_batches w completion doc (batches fuel size l) results st
      = (Some (results ++ extra)%list, st')
    /\ (api_calls st' <= api_calls st + length l)%nat
    /\ map segment_id extra ⊆+ map id l
    /\ (Forall (fun s => search_terms w (text s) <> None) l ->
        map segment_id extra ≡ₚ map id l).
Proof.
  intros Hsize Hperm. induction fuel as [|fuel IH]; intros l results st Hlen Hctx.
  - destruct l; [|cbn in Hlen; lia]. exists [], st. rewrite app_nil_r.
    repeat split; try constructor. cbn; lia.
  - destruct l as [|x l'].
    { exists [], st. rewrite app_nil_r. repeat split; try constructor. cbn; lia. }
    cbn [batches run_batches]. remember (x :: l') as l eqn:El.
    assert (Hsplit : map id l = (map id (firstn size l) ++ map id (skipn size l))%list)
      by (rewrite <- map_app, firstn_skipn; reflexivity).
    assert (Hc1 : Forall (fun s => context_for doc s <> None) (firstn size l))
      by (apply Forall_take; exact Hctx).
    assert (Hc2 : Forall (fun s => context_for doc s <> None) (skipn size l))
      by (apply Forall_drop; exact Hctx).
    destruct (submit_ok doc _ Hc1) as (tasks & -> & Hm).
    destruct (collect_spec w doc (completion tasks) results st)
      as (e1 & st1 & -> & Hn1 & Hsub1 & Hall1).
    assert (Hlen2 : (length (skipn size l) <= fuel)%nat).
    { rewrite length_skipn. lia. }
    destruct (IH (skipn size l) (results ++ e1)%list st1 Hlen2 Hc2)
      as (e2 & st2 & -> & Hn2 & Hsub2 & Hall2).
    assert (Hids : map (fun t : Task => id (fst t)) (completion tasks)
                   ≡ₚ map id (firstn size l)).
    { rewrite <- Hm, map_map. apply Permutation_map, Hperm. }
    exists (e1 ++ e2)%list, st2. split; [|split; [|split]].
    + rewrite <- app_assoc. reflexivity.
    + rewrite (Permutation_length (Hperm tasks)) in Hn1.
      assert (length tasks = length (firstn size l)) by (rewrite <- Hm, length_map; reflexivity).
      assert (length l = length (firstn size l) + length (skipn size l))%nat
        by (rewrite <- length_app, firstn_skipn; reflexivity).
      lia.
    + rewrite Hsplit, map_app. apply submseteq_app; [|exact Hsub2].
      rewrite <- Hids. apply sublist_submseteq, Hsub1.
    + intros Hs. rewrite Hsplit, map_app. apply Permutation_app.
      * rewrite <- Hids, Hall1; [reflexivity|].
        assert (Hs1 : Forall (fun s => search_terms w (text s) <> None) (firstn size l))
          by (apply Forall_take; exact Hs).
        rewrite <- Hm in Hs1. rewrite Forall_map in Hs1.
        eapply Permutation_Forall; [symmetry; apply Hperm | exact Hs1].
      * apply Hall2. apply Forall_drop. exact Hs.
Qed.


(** The stable sort by segment id. *)

Lemma insert_result_perm r l : insert_result r l ≡ₚ r :: l.
Proof.
  induction l as [|x l IH]; cbn [insert_result]; [reflexivity|].
  destruct (segment_id r <? segment_id x); [reflexivity|].
  rewrite IH. apply perm_swap.
Qed.

Lemma sort_results_perm l : sort_results l ≡ₚ l.
Proof.
  unfold sort_results.
  assert (H : forall acc, fold_left (fun acc r => insert_result r acc) l acc ≡ₚ (acc ++ l)%list).
  { induction l as [|r l IH]; intros acc; cbn [fold_left].
    - rewrite app_nil_r. reflexivity.
    - rewrite IH, insert_result_perm. rewrite (Permutation_middle acc l r). reflexivity. }
  exact (H []).
Qed.

Lemma insert_result_sorted r l :
  StronglySorted Spec.id_le l -> StronglySorted Spec.id_le (insert_result r l).
Proof.
  induction 1 as [|x l Hs IH Hx]; cbn [insert_result].
  - repeat constructor.
  - destruct (segment_id r <? segment_id x) eqn:E.
    + apply Z.ltb_lt in E. constructor; [constructor; assumption|].
      constructor; [unfold Spec.id_le; lia|].
      eapply Forall_impl; [exact Hx|]. unfold Spec.id_le. intros; cbn in *; lia.
    + apply Z.ltb_ge in E. constructor; [exact IH|].
      eapply Permutation_Forall; [symmetry; apply insert_result_perm|].
      constructor; [exact E | exact Hx].
Qed.

Lemma sort_results_sorted l : StronglySorted Spec.id_le (sort_results l).
Proof.
  unfold sort_results.
  assert (H : forall acc, StronglySorted Spec.id_le acc ->
                StronglySorted Spec.id_le (fold_left (fun acc r => insert_result r acc) l acc)).
  { induction l as [|r l IH]; intros acc Hacc; cbn [fold_left]; [exact Hacc|].
    apply IH, insert_result_sorted, Hacc. }
  apply H. constructor.
Qed.

Lemma sorted_strict l :
  StronglySorted Spec.id_le l -> NoDup (map segment_id l) -> StronglySorted Spec.id_lt l.
Proof.
  induction 1 as [|x l Hs IH Hx]; intros Hnd; [constructor|].
  cbn in Hnd. apply NoDup_cons in Hnd as [Hnotin Hnd].
  constructor; [exact (IH Hnd)|].
  rewrite Forall_forall in Hx |- *. intros y Hy. specialize (Hx y Hy).
  unfold Spec.id_le, Spec.id_lt in *.
  assert (segment_id x <> segment_id y); [|lia].
  intros Heq. apply Hnotin. rewrite Heq. apply list_elem_of_fmap_2. exact Hy.
Qed.

(** What [_translate_segments_with_context] returns, for any order of
    completion. *)
Lemma translate_segments_spec config w completion segments doc st :
  batch_size (processing config) <> 0%nat ->
  (forall tasks : list Task, completion tasks ≡ₚ tasks) ->
  Forall (fun s => context_for doc s <> None) segments ->
  exists out st',
    _translate_segments_with_context config w completion segments doc st = (Some out, st')
    /\ (api_calls st' <= api_calls st + length segments)%nat
    /\ StronglySorted Spec.id_le out
    /\ map segment_id out ⊆+ map id segments
    /\ (Forall (fun s => search_terms w (text s) <> None) segments ->
        map segment_id out ≡ₚ map id segments).
Proof.
  intros Hsize Hperm Hctx. unfold _translate_segments_with_context.
  destruct (batch_size (processing config)) as [|n] eqn:En; [congruence|].
  destruct (run_batches_spec w completion doc (S n) ltac:(lia) Hperm
              (length segments) segments [] st ltac:(lia) Hctx)
    as (extra & st' & -> & Hn & Hsub & Hall).
  cbn [app]. exists (sort_results extra), st'.
  split; [reflexivity|]. split; [exact Hn|]. split; [apply sort_results_sorted|].
  split.
  - rewrite (sort_results_perm extra). exact Hsub.
  - intros Hs. rewrite (sort_results_perm extra). exact (Hall Hs).
Qed.

End Segments.

Section Segments_claims.
Import Pipeline Scenario.

(** C9, as the specification has it, holds for every list of segments and
    lets a segment be missing from the output only if it is flagged as
    failed.  Two segments with the same id both come back, so the ids do not
    increase strictly; and a segment whose task raises (here the dictionary
    search raises on its text) is left out of the list that is returned,
    which says nothing about it. *)
Lemma translated_segments_counterexample :
  (exists a b st',
     _translate_segments_with_context default_config mock_world (@rev Task)
       [segment 1 "หนึ่ง"; segment 1 "สอง"] document new_state = (Some [a; b], st')
     /\ segment_id a = 1 /\ segment_id b = 1)
  /\ (exists a c st',
     _translate_segments_with_context default_config raising_world (@rev Task)
       [segment 1 "หนึ่ง"; segment 2 "สอง"; segment 3 "สาม"] document new_state
       = (Some [a; c], st')
     /\ segment_id a = 1 /\ segment_id c = 3).
Proof.
  split; do 3 eexists; (split; [vm_compute; reflexivity | split; reflexivity]).
Qed.

(** C9 (amended): with a positive batch size and context lookups that do
    not raise, [_translate_segments_with_context] returns a list, whatever
    the order in which the tasks of a batch complete.  The list is sorted by
    segment id; its ids are ids of input segments, each input segment
    giving at most one result; when the input ids are pairwise distinct the
    ids of the list increase strictly and none is repeated; and when no
    task raises no segment is missing.  A segment whose task raises is left
    out of the list without a flag. *)
Theorem translated_segments_are_ordered (config : Config) (w : World)
    (completion : list Task -> list Task) (segments : list TranscriptionSegment)
    (doc : DocumentContext) (st : State) :
  batch_size (processing config) <> 0%nat ->
  (forall tasks : list Task, completion tasks ≡ₚ tasks) ->
  Forall (fun s => context_for doc s <> None) segments ->
  exists out st',
    _translate_segments_with_context config w completion segments doc st = (Some out, st')
    /\ StronglySorted Spec.id_le out
    /\ map segment_id out ⊆+ map id segments
    /\ (NoDup (map id segments) ->
        StronglySorted Spec.id_lt out /\ NoDup (map segment_id out))
    /\ (Forall (fun s => search_terms w (text s) <> None) segments ->
        map segment_id out ≡ₚ map id segments).
Proof.
  intros Hsize Hperm Hctx.
  destruct (translate_segments_spec config w completion segments doc st Hsize Hperm Hctx)
    as (out & st' & Hrun & _ & Hsorted & Hsub & Hall).
  exists out, st'. split; [exact Hrun|]. split; [exact Hsorted|]. split; [exact Hsub|].
  split; [|exact Hall].
  intros Hnd.
  assert (Hnd' : NoDup (map segment_id out)).
  { destruct (submseteq_Permutation _ _ Hsub) as [k Hk].
    rewrite Hk in Hnd. apply NoDup_app in Hnd as [H _]. exact H. }
  split; [apply sorted_strict; assumption | exact Hnd'].
Qed.

Lemma translated_segments_are_ordered_witness :
  exists out st',
    _translate_segments_with_context default_config mock_world (@rev Task)
      [segment 1 "หนึ่ง"; segment 2 "สอง"; segment 3 "สาม"] document new_state
      = (Some out, st')
    /\ StronglySorted Spec.id_lt out
    /\ map segment_id out ≡ₚ [1; 2; 3].
Proof.
  destruct (translated_segments_are_ordered default_config mock_world (@rev Task)
              [segment 1 "หนึ่ง"; segment 2 "สอง"; segment 3 "สาม"] document new_state)
    as (out & st' & Hrun & _ & _ & Hstrict & Hall).
  - discriminate.
  - intros tasks. symmetry. apply Permutation_rev.
  - repeat constructor; discriminate.
  - exists out, st'. split; [exact Hrun|]. split.
    + apply Hstrict. apply (bool_decide_unpack _). vm_compute. exact I.
    + apply Hall. repeat constructor; discriminate.
Defined.

(** C8, as the specification has it, has a failing call retried up to
    [max_retries] = 3 times.  A client that fails on its first call only
    would have answered the second; [_perform_translation] calls it once
    and returns the fallback translation. *)
Lemma failed_call_is_not_retried :
  max_retries (api default_config) = 3%nat
  /\ _perform_translation flaky_world "ราคาขึ้น" None document GPT_35_TURBO new_state
     = (Some "[ราคาขึ้น]", {| cache := new_cache; stats := new_stats; api_calls := 1 |})
  /\ (exists create prompt,
        client flaky_world = Some create
        /\ create 0%nat GPT_35_TURBO prompt = None
        /\ create 1%nat GPT_35_TURBO prompt = Some "The price is rising").
Proof.
  split; [reflexivity|]. split; [vm_compute; reflexivity|].
  eexists; exists "". split; [reflexivity|]. split; reflexivity.
Qed.

(** C8 (amended): a failed external call is not retried and fails nothing.
    When the one call [_perform_translation] makes raises, the fallback
    translation is returned and the call is counted once; over a whole job,
    with a positive batch size, context lookups and dictionary searches that
    do not raise, and whatever the client does, every segment gets one
    result, none is marked failed, and the client is called at most once
    per segment. *)
Theorem failed_call_falls_back (config : Config) (w : World)
    (completion : list Task -> list Task) (segments : list TranscriptionSegment)
    (doc : DocumentContext) (st : State) :
  batch_size (processing config) <> 0%nat ->
  (forall tasks : list Task, completion tasks ≡ₚ tasks) ->
  Forall (fun s => context_for doc s <> None) segments ->
  Forall (fun s => search_terms w (text s) <> None) segments ->
  (forall create text ctx model prompt st0,
     client w = Some create ->
     _build_translation_prompt w text (_prepare_context_prompt ctx doc) model = Some prompt ->
     create (api_calls st0) model prompt = None ->
     _perform_translation w text ctx doc model st0
     = (Some (_fallback_translation w text),
        {| cache := cache st0; stats := stats st0; api_calls := S (api_calls st0) |}))
  /\ exists out st',
       _translate_segments_with_context config w completion segments doc st = (Some out, st')
       /\ map segment_id out ≡ₚ map id segments
       /\ (api_calls st' <= api_calls st + length segments)%nat.
Proof.
  intros Hsize Hperm Hctx Hs. split.
  - intros create text ctx model prompt st0 Hc Hp Hfail.
    unfold _perform_translation. rewrite Hp, Hc, Hfail. reflexivity.
  - destruct (translate_segments_spec config w completion segments doc st Hsize Hperm Hctx)
      as (out & st' & Hrun & Hn & _ & _ & Hall).
    exists out, st'. split; [exact Hrun|]. split; [exact (Hall Hs) | exact Hn].
Qed.

Lemma failed_call_falls_back_witness :
  exists out st',
    _translate_segments_with_context default_config flaky_world (@rev Task)
      [segment 1 "หนึ่ง"; segment 2 "สอง"; segment 3 "สาม"] document new_state
      = (Some out, st')
    /\ map segment_id out ≡ₚ [1; 2; 3]
    /\ (api_calls st' <= 3)%nat.
Proof.
  apply (proj2 (failed_call_falls_back default_config flaky_world (@rev Task)
                  [segment 1 "หนึ่ง"; segment 2 "สอง"; segment 3 "สาม"]
                  document new_state
                  ltac:(discriminate)
                  ltac:(intros tasks; symmetry; apply Permutation_rev)
                  ltac:(repeat constructor; discriminate)
                  ltac:(repeat constructor; discriminate))).
Defined.

End Segments_claims.

(** ** SRT output *)

Section Srt.
Import Pipeline Scenario.

(** The entry [generate_srt] makes for a segment. *)
Lemma srt_content_map segments translations :
  srt_content segments translations
  = map (fun segment =>
           match translation_map translations !! id segment with
           | Some translation => to_srt segment (translated_text translation)
           | None => to_srt segment ("[" ++ text segment ++ "]")
           end) segments.
Proof.
  unfold srt_content. generalize (translation_map translations) as tm. intros tm.
  match goal with
  | |- fold_left ?f _ _ = map ?g _ =>
      assert (H : forall acc, fold_left f segments acc = (acc ++ map g segments)%list)
  end.
  { induction segments as [|s segments IH]; intros acc; cbn [fold_left map].
    - rewrite app_nil_r. reflexivity.
    - rewrite IH. destruct (tm !! id s); rewrite <- app_assoc; reflexivity. }
  exact (H []).
Qed.

Lemma translation_map_lookup translations k :
  match translation_map translations !! k with
  | Some t => (t ∈ translations) /\ segment_id t = k
  | None => k ∉ map segment_id translations
  end.
Proof.
  unfold translation_map.
  assert (H : forall (m : gmap Z TranslationResult),
            match m !! k with
            | Some t => segment_id t = k
            | None => True
            end ->
            match fold_left (fun m t => <[segment_id t := t]> m) translations m !! k with
            | Some t => ((t ∈ translations) \/ (m !! k = Some t)) /\ segment_id t = k
            | None => (k ∉ map segment_id translations) /\ (m !! k = None)
            end).
  { induction translations as [|t ts IH]; intros m Hm; cbn [fold_left].
    - destruct (m !! k) eqn:E; [split; [right; reflexivity | exact Hm]|].
      split; [apply not_elem_of_nil | reflexivity].
    - specialize (IH (<[segment_id t := t]> m)).
      destruct (decide (segment_id t = k)) as [Heq|Hne].
      + subst k. rewrite lookup_insert_eq in IH. specialize (IH eq_refl).
        destruct (fold_left _ ts _ !! _) as [t'|].
        * destruct IH as [[Hin|Ht] Hid]; (split; [|exact Hid]); left;
            apply elem_of_cons.
          -- right. exact Hin.
          -- injection Ht as <-. left. reflexivity.
        * destruct IH as [_ ?]. discriminate.
      + rewrite lookup_insert_ne in IH by exact Hne. specialize (IH Hm).
        destruct (fold_left _ ts _ !! k) as [t'|].
        * destruct IH as [[Hin|Ht] Hid]; (split; [|exact Hid]).
          -- left. apply elem_of_cons. right. exact Hin.
          -- right. exact Ht.
        * destruct IH as [Hnotin Hnone]. split; [|exact Hnone].
          cbn [map]. intros Hin. apply elem_of_cons in Hin as [Hin|Hin];
            [congruence | exact (Hnotin Hin)]. }
  specialize (H ∅). rewrite lookup_empty in H. specialize (H I).
  destruct (fold_left _ translations ∅ !! k) as [t|].
  - destruct H as [[Hin|Hempty] Hid]; [split; assumption | discriminate].
  - exact (proj1 H).
Qed.

(** The timestamps follow the arithmetic of floats: the float written 4.35
    is a little less than 4.35, and its milliseconds are 349. *)
Lemma to_srt_timestamp_examples :
  to_srt_timestamp 0 = "00:00:00,000"
  /\ to_srt_timestamp (435 # 100) = "00:00:04,349"
  /\ to_srt_timestamp (5 # 2) = "00:00:02,500"
  /\ to_srt_timestamp (3725 + (1 # 8)) = "01:02:05,125"
  /\ to_srt_timestamp 359999 = "99:59:59,000"
  /\ to_srt_timestamp (- (1 # 2)) = "-1:59:59,500".
Proof. vm_compute. repeat split. Qed.

(** C10: [generate_srt] makes one entry per input segment, in the order of
    the input.  An entry is the id of its segment, the line of its two
    timestamps and a text, each followed by a newline; the text of a segment
    without a translation is its original text in square brackets, that of a
    segment with one is the text of a translation with its id.  The function
    always returns a status: [True] with the entries joined by newlines in
    the output file when the write goes through, [False] when it does
    not. *)
Theorem generate_srt_spec (io : write_outcome) (segments : list TranscriptionSegment)
    (translations : list TranslationResult) (output_path : string)
    (files : gmap string string) :
  let entries := srt_content segments translations in
  length entries = length segments
  /\ (forall i segment, segments !! i = Some segment ->
        exists body,
          entries !! i
          = Some (PyStr.of_int (id segment) ++ nl
                  ++ to_srt_timestamp (start_time segment) ++ " --> "
                  ++ to_srt_timestamp (end_time segment) ++ nl
                  ++ body ++ nl)
          /\ (id segment ∉ map segment_id translations ->
                body = "[" ++ text segment ++ "]")
          /\ (id segment ∈ map segment_id translations ->
                exists t, t ∈ translations /\ segment_id t = id segment
                          /\ body = translated_text t))
  /\ (io = Written ->
        generate_srt io segments translations output_path files
        = (true, <[output_path := PyStr.join nl entries]> files))
  /\ (io <> Written ->
        fst (generate_srt io segments translations output_path files) = false).
Proof.
  intros entries. subst entries. rewrite srt_content_map.
  split; [apply length_map|]. split; [|split].
  - intros i segment Hi. rewrite list_lookup_fmap, Hi. cbn [fmap option_fmap option_map].
    pose proof (translation_map_lookup translations (id segment)) as Hl.
    destruct (translation_map translations !! id segment) as [t|].
    + destruct Hl as [Hin Hid]. exists (translated_text t).
      split; [reflexivity|]. split.
      * intros Hnot. exfalso. apply Hnot. rewrite <- Hid.
        apply list_elem_of_fmap_2. exact Hin.
      * intros _. exists t. split; [exact Hin|]. split; [exact Hid | reflexivity].
    + exists ("[" ++ text segment ++ "]"). split; [reflexivity|]. split.
      * intros _. reflexivity.
      * intros Hin. contradiction.
  - intros ->. unfold generate_srt. rewrite srt_content_map. reflexivity.
  - intros Hio. destruct io; [congruence | reflexivity | reflexivity].
Qed.

Lemma generate_srt_spec_witness :
  srt_content [segment 1 "หนึ่ง"; segment 2 "สอง"] [] !! 1%nat
  = Some ("2" ++ nl ++ "00:00:02,000 --> 00:00:03,000" ++ nl ++ "[สอง]" ++ nl)
  /\ fst (generate_srt (Truncated 5) [segment 1 "หนึ่ง"] [] "output/translated.srt" ∅) = false.
Proof.
  pose proof (generate_srt_spec (Truncated 5) [segment 1 "หนึ่ง"] []
                "output/translated.srt" ∅) as (_ & _ & _ & Hfail).
  pose proof (generate_srt_spec Written [segment 1 "หนึ่ง"; segment 2 "สอง"] []
                "output/translated.srt" ∅) as (_ & Hentry & _ & _).
  split.
  - destruct (Hentry 1%nat (segment 2 "สอง") eq_refl) as (body & -> & Hbody & _).
    rewrite Hbody; [reflexivity|]. cbn. set_solver.
  - apply Hfail. discriminate.
Defined.

End Srt.

(* ===================================================================== *)
(** * Further properties of the translation pipeline *)
(* ===================================================================== *)

Section Routing_composed.
Import Pipeline Spec.

(** Routing of a segment: GPT-4 is chosen exactly when the context is
    flagged as a metaphor and at least two of the three further positive
    signals (a text of more than 200 characters, more than three key terms,
    a hard pattern) are present; every other segment, and every segment
    without context, goes to GPT-3.5.  No other model is ever chosen. *)
Theorem model_of_segment (text : string) (ctx : option SegmentContext) :
  _select_model (_calculate_complexity text ctx) ctx
  = if flagged_metaphor ctx && (2 <=? other_signals text ctx)%nat
    then GPT_4 else GPT_35_TURBO.
Proof.
  unfold _select_model, _calculate_complexity, other_signals, has_hard_pattern,
    flagged_metaphor, many_key_terms.
  destruct (200 <? PyStr.len text)%nat;
  destruct (existsb (fun pattern => PyStr.contains pattern text) complex_patterns);
  destruct ctx as [[q m k r]|]; cbn [is_question is_metaphor key_terms];
  try (destruct q); try (destruct m); try (destruct (3 <? length k)%nat);
  vm_compute; reflexivity.
Qed.

Lemma select_model_two_models (s : Q) (ctx : option SegmentContext) :
  _select_model s ctx = GPT_35_TURBO \/ _select_model s ctx = GPT_4.
Proof.
  unfold _select_model.
  destruct (match ctx with Some c => _ | None => _ end); [right; reflexivity|].
  destruct (Qltb s (3 # 10)); [left; reflexivity|].
  destruct (Qltb s (7 # 10)); [left | right]; reflexivity.
Qed.

End Routing_composed.

Section Cache_more.
Import Pipeline Spec Scenario.

(** [set] overwrites: of two translations stored under the same text,
    context and model the later one is found, and the cache does not grow;
    an entry under any other key is left as it was. *)
Theorem set_overwrites (text tr1 tr2 context model : string) (c : TranslationCache) :
  let c1 := set text tr1 context model c in
  let c2 := set text tr2 context model c1 in
  fst (get text context model c2) = Some tr2
  /\ size (memory_cache c2) = size (memory_cache c1)
  /\ (forall key, key <> _generate_cache_key text context model ->
        memory_cache c2 !! key = memory_cache c !! key).
Proof.
  intros c1 c2. subst c1 c2. split; [|split].
  - unfold get. rewrite set_memory_cache, lookup_insert_eq. reflexivity.
  - rewrite !set_memory_cache. apply map_size_insert_Some.
    rewrite lookup_insert_eq. eauto.
  - intros key Hne. rewrite !set_memory_cache.
    rewrite !lookup_insert_ne by congruence. reflexivity.
Qed.

Lemma set_overwrites_witness :
  fst (get "ราคาขึ้น" "" "gpt-4"
         (set "ราคาขึ้น" "The price rises" "" "gpt-4"
            (set "ราคาขึ้น" "Price up" "" "gpt-4" new_cache)))
  = Some "The price rises"
  /\ memory_cache (set "ราคาขึ้น" "The price rises" "" "gpt-4"
                     (set "ราคาขึ้น" "Price up" "" "gpt-4" new_cache))
       !! "0123456789abcdef0123456789abcdef" = None.
Proof.
  pose proof (set_overwrites "ราคาขึ้น" "Price up" "The price rises" "" "gpt-4" new_cache)
    as (Hget & _ & Hother).
  split; [exact Hget|].
  rewrite (Hother "0123456789abcdef0123456789abcdef"); [reflexivity|].
  vm_compute. discriminate.
Defined.

Lemma get_counts text context model c :
  (hits (snd (get text context model c)) + misses (snd (get text context model c)))%nat
  = S (hits c + misses c)
  /\ memory_cache (snd (get text context model c)) = memory_cache c
  /\ sets (snd (get text context model c)) = sets c.
Proof.
  unfold get. destruct (memory_cache c !! _); cbn; repeat split; lia.
Qed.

Lemma set_counts text translation context model c :
  hits (set text translation context model c) = hits c
  /\ misses (set text translation context model c) = misses c
  /\ sets (set text translation context model c) = S (sets c).
Proof. unfold set. destruct (_ =? _)%nat; repeat split; reflexivity. Qed.

(** The counters of the cache: a lookup counts as exactly one hit or one
    miss and changes nothing else, a store counts neither; the hit rate of
    [get_stats] is the share of hits among the lookups, a number between 0
    and 1, and it is 0 as long as nothing was looked up. *)
Theorem cache_counters (text translation context model : string) (c : TranslationCache) :
  let g := snd (get text context model c) in
  let s := set text translation context model c in
  (hits g + misses g)%nat = S (hits c + misses c)
  /\ memory_cache g = memory_cache c
  /\ (hits s = hits c /\ misses s = misses c)
  /\ (0 <= hit_rate (get_stats c) <= 1)%Q
  /\ (hit_rate (get_stats c) * inject_Z (Z.of_nat (hits c + misses c))
      == inject_Z (Z.of_nat (hits c)))%Q
  /\ ((hits c + misses c = 0)%nat -> hit_rate (get_stats c) = 0%Q).
Proof.
  intros g s. subst g s.
  destruct (get_counts text context model c) as (Hg & Hm & _).
  destruct (set_counts text translation context model c) as (Hh & Hmi & _).
  split; [exact Hg|]. split; [exact Hm|]. split; [split; assumption|].
  unfold get_stats; cbn [hit_rate].
  destruct (0 <? hits c + misses c)%nat eqn:E.
  - apply Nat.ltb_lt in E.
    assert (Hpos : (0 < inject_Z (Z.of_nat (hits c + misses c)))%Q).
    { change 0%Q with (inject_Z 0). rewrite <- Zlt_Qlt. lia. }
    split; [split|split].
    + apply Qle_shift_div_l; [exact Hpos|]. rewrite Qmult_0_l.
      change 0%Q with (inject_Z 0). rewrite <- Zle_Qle. lia.
    + apply Qle_shift_div_r; [exact Hpos|]. rewrite Qmult_1_l.
      rewrite <- Zle_Qle. lia.
    + field. intros H. rewrite H in Hpos. exact (Qlt_irrefl 0 Hpos).
    + intros Hz. lia.
  - apply Nat.ltb_ge in E. assert (hits c = 0%nat) as -> by lia.
    assert (misses c = 0%nat) as -> by lia.
    split; [split; discriminate | split; reflexivity].
Qed.

Lemma cache_counters_witness : hit_rate (get_stats new_cache) = 0%Q.
Proof.
  destruct (cache_counters "" "" "" "" new_cache) as (_ & _ & _ & _ & _ & Hzero).
  apply Hzero. reflexivity.
Defined.

End Cache_more.

Section Cached_path.
Import Pipeline Spec Scenario.

(** A lookup that hits costs nothing: when the cache holds a translation
    that is not empty under the key of the segment's text and context (made
    with an empty model name), the segment gets that translation, marked as
    cached and with no cost, without any call to the client or the
    dictionary and without a change to the accumulated cost or the cache. *)
Theorem cached_translation_is_free (w : World) (segment : TranscriptionSegment)
    (ctx : option SegmentContext) (doc : DocumentContext) (st : State) (tr : string) :
  memory_cache (cache st)
    !! _generate_cache_key (text segment) (context_string ctx) "" = Some tr ->
  tr <> "" ->
  exists r st',
    _translate_single_segment w segment ctx doc st = (Some r, st')
    /\ translated_text r = tr /\ cached r = true /\ model_used r = "cache"
    /\ (cost_estimate r == 0)%Q
    /\ api_calls st' = api_calls st
    /\ total_cost (stats st') = total_cost (stats st)
    /\ cached_segments (stats st') = S (cached_segments (stats st))
    /\ memory_cache (cache st') = memory_cache (cache st).
Proof.
  intros Hkey Hne. unfold _translate_single_segment, get.
  fold (context_string ctx). rewrite Hkey.
  destruct tr as [|a tr]; [congruence|].
  eexists; eexists. split; [reflexivity|]. cbn. repeat split; reflexivity.
Qed.

Lemma cached_translation_is_free_witness :
  exists r st',
    _translate_single_segment mock_world price_up None document
      (with_cache new_state (set "ราคาขึ้น" "The price is rising" "" "" new_cache))
      = (Some r, st')
    /\ translated_text r = "The price is rising" /\ cached r = true.
Proof.
  destruct (cached_translation_is_free mock_world price_up None document
              (with_cache new_state (set "ราคาขึ้น" "The price is rising" "" "" new_cache))
              "The price is rising")
    as (r & st' & Hrun & Htr & Hc & _).
  - vm_compute. reflexivity.
  - discriminate.
  - exists r, st'. repeat split; assumption.
Defined.

(** An empty cached translation is not used: the lookup counts a hit, but
    the segment is translated again (when the dictionary search does not
    raise), the result is not marked as cached and the entry stored under
    the key made with the model's name. *)
Theorem empty_cached_translation_is_ignored (w : World) (segment : TranscriptionSegment)
    (ctx : option SegmentContext) (doc : DocumentContext) (st : State) :
  memory_cache (cache st)
    !! _generate_cache_key (text segment) (context_string ctx) "" = Some "" ->
  search_terms w (text segment) <> None ->
  exists r st',
    _translate_single_segment w segment ctx doc st = (Some r, st')
    /\ cached r = false
    /\ hits (cache st') = S (hits (cache st))
    /\ cached_segments (stats st') = cached_segments (stats st)
    /\ memory_cache (cache st')
         !! _generate_cache_key (text segment) (context_string ctx) (model_used r)
       = Some (translated_text r).
Proof.
  intros Hkey Hs. unfold _translate_single_segment, get.
  fold (context_string ctx). rewrite Hkey.
  match goal with
  | |- context [_perform_translation ?w ?t ?c ?d ?m ?s] =>
      destruct (perform_translation_returns w t c d m s Hs) as (tr & st2 & E);
      pose proof (perform_translation_calls _ _ _ _ _ _ _ _ E) as Hcalls;
      assert (Hcache : cache st2 = cache s /\ stats st2 = stats s)
  end.
  { revert E. unfold _perform_translation.
    destruct (_build_translation_prompt _ _ _ _); [|discriminate].
    destruct (client w) as [create|]; [|intros [= _ <-]; split; reflexivity].
    destruct (create _ _ _); intros [= _ <-]; split; reflexivity. }
  rewrite E. destruct Hcache as [Hc Hst].
  eexists; eexists. split; [reflexivity|]. cbn.
  split; [reflexivity|]. rewrite Hc, Hst. cbn.
  destruct (set_counts (text segment) tr (context_string ctx)
              (value (_select_model (_calculate_complexity (text segment) ctx) ctx))
              {| memory_cache := memory_cache (cache st); hits := S (hits (cache st));
                 misses := misses (cache st); sets := sets (cache st);
                 persistent_cache := persistent_cache (cache st) |}) as (Hh & _ & _).
  split; [exact Hh|].
  split.
  - destruct (_select_model _ ctx); reflexivity.
  - rewrite set_memory_cache. apply lookup_insert_eq.
Qed.

Lemma empty_cached_translation_is_ignored_witness :
  exists r st',
    _translate_single_segment mock_world price_up None document
      (with_cache new_state (set "ราคาขึ้น" "" "" "" new_cache)) = (Some r, st')
    /\ cached r = false.
Proof.
  destruct (empty_cached_translation_is_ignored mock_world price_up None document
              (with_cache new_state (set "ราคาขึ้น" "" "" "" new_cache)))
    as (r & st' & Hrun & Hc & _).
  - vm_compute. reflexivity.
  - discriminate.
  - exists r, st'. split; assumption.
Defined.

End Cached_path.

Section Contexts.
Import Pipeline Spec Scenario.

Lemma py_index_minus_one {A} (l : list A) : py_index l (-1) = last l.
Proof.
  unfold py_index. change (0 <=? -1) with false. cbn match.
  destruct l as [|x l _] using rev_ind; [reflexivity|].
  rewrite length_app, last_snoc. cbn [length].
  assert (H2 : (- Z.of_nat (length l + 1) <=? -1) = true) by (apply Z.leb_le; lia).
  rewrite H2.
  replace (Z.to_nat (Z.of_nat (length l + 1) + -1)) with (length l) by lia.
  rewrite lookup_app_r by lia. rewrite Nat.sub_diag. reflexivity.
Qed.

(** The context of a segment is the one at index [id - 1]: a segment with
    id 1 or more gets it, or none when the list is too short, and never
    raises; the negative index of a segment with id 0 picks the last
    context of the document, and raises when there is none. *)
Theorem context_for_index (doc : DocumentContext) (segment : TranscriptionSegment) :
  (1 <= id segment ->
     context_for doc segment
     = Some (segment_contexts doc !! Z.to_nat (id segment - 1)))
  /\ (id segment = 0 ->
     context_for doc segment
     = match last (segment_contexts doc) with
       | Some c => Some (Some c)
       | None => None
       end).
Proof.
  unfold context_for. split.
  - intros Hid. unfold py_index. destruct (id segment - 1 <? _) eqn:E.
    + apply Z.ltb_lt in E.
      assert (H0 : (0 <=? id segment - 1) = true) by (apply Z.leb_le; lia).
      rewrite H0.
      destruct (segment_contexts doc !! Z.to_nat (id segment - 1)) eqn:El;
        [reflexivity|].
      apply lookup_ge_None in El. lia.
    + apply Z.ltb_ge in E. f_equal. symmetry. apply lookup_ge_None. lia.
  - intros ->. change (0 - 1) with (-1). rewrite py_index_minus_one.
    assert (H1 : (-1 <? Z.of_nat (length (segment_contexts doc))) = true)
      by (apply Z.ltb_lt; lia).
    rewrite H1. reflexivity.
Qed.

Lemma context_for_index_witness :
  let c1 := {| is_question := false; is_metaphor := false; key_terms := []; repr := "one" |} in
  let c2 := {| is_question := true; is_metaphor := false; key_terms := []; repr := "two" |} in
  let doc := {| doc_type := TUTORIAL; primary_topic := "forex"; trading_context := NEUTRAL;
                segment_contexts := [c1; c2] |} in
  context_for doc (segment 1 "หนึ่ง") = Some (Some c1)
  /\ context_for doc (segment 0 "ศูนย์") = Some (Some c2).
Proof.
  intros c1 c2 doc. split.
  - apply (proj1 (context_for_index doc (segment 1 "หนึ่ง"))). cbn. lia.
  - apply (proj2 (context_for_index doc (segment 0 "ศูนย์"))). reflexivity.
Defined.

End Contexts.

Section Srt_more.
Import Pipeline Spec Scenario.

Lemma translation_map_app ts1 ts2 k :
  translation_map (ts1 ++ ts2) !! k
  = match translation_map ts2 !! k with
    | Some t => Some t
    | None => translation_map ts1 !! k
    end.
Proof.
  unfold translation_map. rewrite fold_left_app.
  match goal with
  | |- context [fold_left ?f ts1 ?e] => generalize (fold_left f ts1 e)
  end.
  induction ts2 as [|t ts2 IH] using rev_ind; intros m0.
  - cbn. rewrite lookup_empty. reflexivity.
  - rewrite !fold_left_app. cbn [fold_left].
    destruct (decide (segment_id t = k)) as [<-|Hne].
    + rewrite !lookup_insert_eq. reflexivity.
    + rewrite !lookup_insert_ne by exact Hne. apply IH.
Qed.

(** When several translations carry the same segment id, the SRT shows the
    last of them. *)
Theorem last_translation_wins (segment : TranscriptionSegment)
    (before after : list TranslationResult) (t : TranslationResult) :
  segment_id t = id segment ->
  id segment ∉ map segment_id after ->
  srt_content [segment] (before ++ t :: after) = [to_srt segment (translated_text t)].
Proof.
  intros Hid Hnot. rewrite srt_content_map. cbn [map].
  rewrite translation_map_app.
  change (t :: after) with ([t] ++ after)%list. rewrite translation_map_app.
  pose proof (translation_map_lookup after (id segment)) as Hl.
  destruct (translation_map after !! id segment) as [t'|].
  - destruct Hl as [Hin Hid']. exfalso. apply Hnot. rewrite <- Hid'.
    apply list_elem_of_fmap_2. exact Hin.
  - unfold translation_map at 1. cbn [fold_left]. rewrite Hid, lookup_insert_eq.
    reflexivity.
Qed.

Lemma last_translation_wins_witness :
  let r (t : string) :=
    {| segment_id := 1; original_text := "ราคาขึ้น"; translated_text := t;
       model_used := "gpt-4"; tr_confidence := 1; complexity_score := 0;
       cached := false; cost_estimate := 0; processing_time := 0 |} in
  srt_content [price_up] ([r "Price up"] ++ r "The price rises" :: [])
  = [to_srt price_up "The price rises"].
Proof.
  intros r. apply (last_translation_wins price_up [r "Price up"] [] (r "The price rises")).
  - reflexivity.
  - apply not_elem_of_nil.
Defined.

End Srt_more.

Section Batches.
Import Pipeline Spec Scenario.

Lemma batches_spec {A} (size : nat) : (0 < size)%nat ->
  forall (fuel : nat) (l : list A), (length l <= fuel)%nat ->
  concat (batches fuel size l) = l
  /\ Forall (fun b => (0 < length b <= size)%nat) (batches fuel size l).
Proof.
  intros Hsize. induction fuel as [|fuel IH]; intros l Hlen.
  - destruct l; [split; constructor | cbn in Hlen; lia].
  - destruct l as [|x l']; [split; constructor|].
    cbn [batches]. remember (x :: l') as l eqn:El.
    assert (Hl : (0 < length l)%nat) by (subst l; cbn; lia).
    destruct (IH (skipn size l)) as [Hc Hf]; [rewrite length_skipn; lia|].
    split.
    + cbn [concat]. rewrite Hc. apply firstn_skipn.
    + constructor; [|exact Hf]. rewrite length_firstn. lia.
Qed.

(** The batches of [_translate_segments_with_context] are the segments cut
    into consecutive pieces: put end to end they are the input, none is
    empty and none holds more than [batch_size] segments. *)
Theorem batches_partition {A} (size : nat) (l : list A) :
  (0 < size)%nat ->
  concat (batches (length l) size l) = l
  /\ Forall (fun b => (0 < length b <= size)%nat) (batches (length l) size l).
Proof. intros Hsize. apply batches_spec; [exact Hsize | lia]. Qed.

Lemma batches_partition_witness :
  batches 5 2 [1; 2; 3; 4; 5] = [[1; 2]; [3; 4]; [5]]
  /\ concat (batches 5 2 [1; 2; 3; 4; 5]) = [1; 2; 3; 4; 5].
Proof.
  split; [reflexivity|].
  apply (proj1 (batches_partition 2 [1; 2; 3; 4; 5] ltac:(lia))).
Defined.

End Batches.

Section Accounting.
Import Pipeline Spec Scenario.

Lemma perform_translation_state w t c doc model st tr st' :
  _perform_translation w t c doc model st = (tr, st') ->
  cache st' = cache st /\ stats st' = stats st.
Proof.
  unfold _perform_translation.
  destruct (_build_translation_prompt _ _ _ _); [|intros [= _ <-]; split; reflexivity].
  destruct (client w) as [create|]; [|intros [= _ <-]; split; reflexivity].
  destruct (create _ _ _); intros [= _ <-]; split; reflexivity.
Qed.

Lemma estimate_cost_nonneg input output model : (0 <= _estimate_cost input output model)%Q.
Proof.
  unfold _estimate_cost.
  assert (Hlen : forall s, (0 <= inject_Z (Z.of_nat (PyStr.len s)) / 4 / 1000)%Q).
  { intros s. apply Qle_shift_div_l; [reflexivity|]. rewrite Qmult_0_l.
    apply Qle_shift_div_l; [reflexivity|]. rewrite Qmult_0_l.
    change 0%Q with (inject_Z 0). rewrite <- Zle_Qle. lia. }
  destruct model; cbn match;
    (refine (Qplus_le_compat 0 _ 0 _ _ _);
     apply Qmult_le_0_compat; try apply Hlen; discriminate).
Qed.

(** One call is accounted for once.  A call of [_translate_single_segment]
    that returns a result adds exactly the cost estimate of that result,
    which is never negative, to the accumulated cost, and counts the result
    under exactly one counter: the cached segments when the result is
    marked as cached, else the counter of the model named in the result,
    which is GPT-3.5 or GPT-4 and never the local one.  This is a call
    that runs by itself; nothing is stated here of calls that run at the
    same time on the threads of the executor. *)
Theorem call_is_accounted (w : World) (segment : TranscriptionSegment)
    (ctx : option SegmentContext) (doc : DocumentContext) (st st' : State)
    (r : TranslationResult) :
  _translate_single_segment w segment ctx doc st = (Some r, st') ->
  (total_cost (stats st') == total_cost (stats st) + cost_estimate r)%Q
  /\ (0 <= cost_estimate r)%Q
  /\ counted (stats st') = S (counted (stats st))
  /\ local_segments (stats st') = local_segments (stats st)
  /\ (if cached r
      then cached_segments (stats st') = S (cached_segments (stats st))
           /\ (cost_estimate r == 0)%Q
      else cached_segments (stats st') = cached_segments (stats st)
           /\ ((model_used r = value GPT_35_TURBO
                /\ gpt35_segments (stats st') = S (gpt35_segments (stats st)))
               \/ (model_used r = value GPT_4
                   /\ gpt4_segments (stats st') = S (gpt4_segments (stats st))))).
Proof.
  unfold _translate_single_segment.
  destruct (get _ _ _ _) as [[[|a hit]|] c1].
  2: { intros [= <- <-]. cbn. unfold counted; cbn.
       split; [symmetry; apply Qplus_0_r|]. split; [discriminate|].
       split; [lia|]. split; [reflexivity|]. split; reflexivity. }
  all: destruct (_perform_translation _ _ _ _ _ _) as [[tr|] st2] eqn:E;
    apply perform_translation_state in E; cbn in E; destruct E as [_ Hst];
    intros [= <- <-];
    cbn -[_estimate_cost]; rewrite Hst; unfold counted; cbn -[_estimate_cost];
    destruct (select_model_two_models (_calculate_complexity (text segment) ctx) ctx)
      as [-> | ->];
    cbn -[_estimate_cost];
    (split; [reflexivity|]; split; [apply estimate_cost_nonneg|];
     split; [lia|]; split; [reflexivity|]; split; [reflexivity|]);
    [left | right]; split; reflexivity.
Qed.

Lemma call_is_accounted_witness :
  gpt35_segments (stats (snd first_call)) = 1%nat
  /\ cached_segments (stats (snd first_call)) = 0%nat.
Proof.
  destruct first_call as [[r|] st'] eqn:E; [|vm_compute in E; discriminate].
  destruct (call_is_accounted mock_world price_up None document new_state st' r E)
    as (_ & _ & _ & _ & H).
  assert (Hc : cached r = false).
  { vm_compute in E. injection E as <- _. reflexivity. }
  rewrite Hc in H. destruct H as [Hcached [[_ H35]|[Hm _]]].
  - cbn [snd]. split; [exact H35 | exact Hcached].
  - exfalso. vm_compute in E. injection E as <- _. discriminate Hm.
Defined.

End Accounting.

Section Smoothing.
Import Pipeline Spec Scenario.

Lemma adjust_for_flow_id islower prev curr : _adjust_for_flow islower prev curr = curr.
Proof.
  unfold _adjust_for_flow.
  destruct (_ && _); [destruct (_ || _ || _)|]; reflexivity.
Qed.

Lemma segments_connected_raises lower text1 text2 :
  _segments_connected lower text1 text2 = None <-> blank text2.
Proof.
  unfold _segments_connected, blank. destruct text2 as [|a t].
  - split; [discriminate | intros [H _]; congruence].
  - destruct (PyStr.split (String a t)).
    + split; [intros _; split; [discriminate | reflexivity] | reflexivity].
    + split; [discriminate | intros [_ H]; discriminate].
Qed.

Lemma with_translated_text_same r : with_translated_text r (translated_text r) = r.
Proof. destruct r; reflexivity. Qed.

Lemma smooth_from_spec lower islower rest : forall prev,
  (Exists (fun r => blank (original_text r)) rest ->
     smooth_from lower islower prev rest = None)
  /\ (~ Exists (fun r => blank (original_text r)) rest ->
     smooth_from lower islower prev rest = Some rest).
Proof.
  induction rest as [|curr rest IH]; intros prev; cbn [smooth_from].
  - split; [intros H; inversion H | reflexivity].
  - rewrite adjust_for_flow_id, with_translated_text_same.
    destruct (_segments_connected lower (original_text prev) (original_text curr))
      as [connected|] eqn:E.
    + assert (Hnb : ~ blank (original_text curr)).
      { intros Hb. apply (segments_connected_raises lower (original_text prev)) in Hb.
        congruence. }
      assert (Hc : (if connected then curr else curr) = curr) by (destruct connected; reflexivity).
      rewrite Hc. destruct (IH curr) as [IH1 IH2]. split.
      * intros H. inversion H as [? ? Hb|? ? Hex]; subst; [contradiction|].
        rewrite (IH1 Hex). reflexivity.
      * intros H. rewrite IH2; [reflexivity|]. intros Hex. apply H.
        apply Exists_cons_tl. exact Hex.
    + apply segments_connected_raises in E. split; [reflexivity|].
      intros H. exfalso. apply H. apply Exists_cons_hd. exact E.
Qed.

(** [_smooth_transitions] changes no translation: it leaves the results as
    they are, or raises; it raises exactly when the source text of some
    result after the first is not empty and holds white space only. *)
Theorem smooth_transitions_changes_nothing (lower : string -> string)
    (islower : string -> bool) (results : list TranslationResult) :
  (Exists (fun r => blank (original_text r)) (tail results) ->
     _smooth_transitions lower islower results = None)
  /\ (~ Exists (fun r => blank (original_text r)) (tail results) ->
     _smooth_transitions lower islower results = Some results).
Proof.
  destruct results as [|first rest]; cbn [_smooth_transitions tail].
  - split; [intros H; inversion H | reflexivity].
  - destruct (smooth_from_spec lower islower rest first) as [H1 H2]. split.
    + intros H. rewrite (H1 H). reflexivity.
    + intros H. rewrite (H2 H). reflexivity.
Qed.

Lemma smooth_transitions_changes_nothing_witness :
  let r (i : Z) (source : string) :=
    {| segment_id := i; original_text := source; translated_text := "and so on";
       model_used := "gpt-4"; tr_confidence := 1; complexity_score := 0;
       cached := false; cost_estimate := 0; processing_time := 0 |} in
  _smooth_transitions (fun s => s) (fun _ => true) [r 1 "หนึ่ง"; r 2 "  "] = None
  /\ _smooth_transitions (fun s => s) (fun _ => true) [r 1 "  "; r 2 "and then"]
     = Some [r 1 "  "; r 2 "and then"].
Proof.
  intros r. split.
  - apply (proj1 (smooth_transitions_changes_nothing _ _ [r 1 "หนึ่ง"; r 2 "  "])).
    apply Exists_cons_hd. split; [discriminate | reflexivity].
  - apply (proj2 (smooth_transitions_changes_nothing _ _ [r 1 "  "; r 2 "and then"])).
    intros H. inversion H as [? ? [_ Hb]|? ? Hex]; subst; [discriminate | inversion Hex].
Defined.

End Smoothing.

(* ===================================================================== *)
(** * Further properties of the checkpoint files *)
(* ===================================================================== *)

Section Files.
Import Json FS Spec.

Lemma glob_elem (prefix suffix : string) (d : disk) (n : string) :
  n ∈ glob prefix suffix d <-> is_Some (d !! n) /\ matches prefix suffix n = true.
Proof.
  unfold glob, matches. rewrite list_elem_of_In, filter_In, <- list_elem_of_In.
  rewrite list_elem_of_fmap. split.
  - intros [([n' f] & -> & Hin) Hm]. apply elem_of_map_to_list in Hin.
    cbn. split; [eauto | exact Hm].
  - intros [[f Hf] Hm]. split; [|exact Hm].
    exists (n, f). split; [reflexivity|]. apply elem_of_map_to_list. exact Hf.
Qed.

Lemma glob_NoDup (prefix suffix : string) (d : disk) : NoDup (glob prefix suffix d).
Proof.
  unfold glob. apply NoDup_ListNoDup, List.NoDup_filter, NoDup_ListNoDup.
  apply NoDup_fst_map_to_list.
Qed.

End Files.

Section Kaggle_more.
Import Json FS Spec Kaggle Scenario.

Lemma latest_elem (d : disk) (names : list string) (n : string) :
  latest d names = Some n -> n ∈ names.
Proof.
  revert n. induction names as [|x names IH]; intros n; cbn [latest]; [discriminate|].
  destruct (latest d names) as [n'|].
  - destruct (_ <? _)%nat; intros [= <-].
    + apply elem_of_cons. right. apply IH. reflexivity.
    + apply elem_of_cons. left. reflexivity.
  - intros [= <-]. apply elem_of_cons. left. reflexivity.
Qed.

Lemma latest_nil (d : disk) (names : list string) :
  latest d names = None -> names = [].
Proof.
  destruct names as [|x names]; [reflexivity|]. cbn [latest].
  destruct (latest d names); [destruct (_ <? _)%nat|]; discriminate.
Qed.

(** [has_checkpoint] and [load_checkpoint] agree: [load_checkpoint] raises
    [FileNotFoundError] exactly when [has_checkpoint] is false, and then
    [get_resume_point] is the start, segment 0 at time 0.0.  Any other
    failure of the load, such as a file that does not parse, is not turned
    into a fresh start. *)
Theorem has_checkpoint_load (m : CheckpointManager) (d : disk) :
  (has_checkpoint m d = false <-> load_checkpoint m d = Raise FileNotFoundError)
  /\ (has_checkpoint m d = false -> get_resume_point m d = Ok (0%nat, JFloat 0))
  /\ (forall e, e <> FileNotFoundError -> load_checkpoint m d = Raise e ->
        get_resume_point m d = Raise e).
Proof.
  assert (Hiff : has_checkpoint m d = false <-> load_checkpoint m d = Raise FileNotFoundError).
  { unfold has_checkpoint, load_checkpoint, read_json. split.
    - intros H. apply orb_false_iff in H as [Hf Hc].
      apply bool_decide_eq_false in Hf.
      destruct (d !! final_file m) as [f|]; [exfalso; apply Hf; eauto|].
      destruct (checkpoints m d); [reflexivity | discriminate].
    - destruct (d !! final_file m) as [f|] eqn:Ef.
      + destruct (json_load f) as [[| | | | | |data]|]; try discriminate.
        destruct (get "segments" data), (get "metadata" data); discriminate.
      + intros H. apply orb_false_iff. split.
        * apply bool_decide_eq_false. intros [? ?]. discriminate.
        * destruct (latest d (checkpoints m d)) as [name|] eqn:El.
          -- exfalso. apply latest_elem in El. apply glob_elem in El as [[f Hf] _].
             rewrite Hf in H.
             destruct (json_load f) as [[| | | | | |data]|]; try discriminate.
             cbv zeta in H. destruct (sized _); [|discriminate].
             destruct (default (JDict []) (get "metadata" data)) as [| | | | | |md];
               try discriminate.
             destruct (format_1f _) as [[]|e'] eqn:Efmt; [discriminate|].
             injection H as ->. unfold format_1f in Efmt.
             destruct (default _ _); try discriminate.
             destruct (_ <? _); discriminate.
          -- apply latest_nil in El. rewrite El. reflexivity. }
  split; [exact Hiff|]. split.
  - intros H. apply Hiff in H. unfold get_resume_point. rewrite H. reflexivity.
  - intros e He H. unfold get_resume_point. rewrite H. destruct e; congruence.
Qed.

Lemma has_checkpoint_load_witness :
  get_resume_point kaggle_manager ∅ = Ok (0%nat, JFloat 0)
  /\ get_resume_point kaggle_manager (kaggle_killed 3) = Raise JSONDecodeError.
Proof.
  destruct (has_checkpoint_load kaggle_manager ∅) as (_ & Hnone & _).
  destruct (has_checkpoint_load kaggle_manager (kaggle_killed 3)) as (_ & _ & Hraise).
  split.
  - apply Hnone. vm_compute. reflexivity.
  - apply Hraise; [discriminate|]. vm_compute. reflexivity.
Defined.

(** A checkpoint of no segments cannot be saved: unless the metadata gives
    an [estimated_total], [save_checkpoint] of an empty list raises
    [ZeroDivisionError], forced or not (zero segments are a multiple of
    every interval, and the progress is then 0 divided by 0), and writes
    nothing. *)
Theorem save_checkpoint_empty (m : CheckpointManager) (metadata : list (string * json))
    (force : bool) (stamp : string) (now : nat) (d : disk) :
  get "estimated_total" metadata = None ->
  save_checkpoint m [] metadata force stamp now d = (Raise ZeroDivisionError, d).
Proof.
  intros Hm. unfold save_checkpoint, due, checkpoint_data. cbn [length last].
  rewrite Hm. cbn.
  destruct force; [reflexivity|].
  destruct (checkpoint_interval m =? 0) eqn:E; [reflexivity|].
  rewrite Z.mod_0_l by (apply Z.eqb_neq; exact E). reflexivity.
Qed.

Lemma save_checkpoint_empty_witness :
  save_checkpoint kaggle_manager [] [("model_name", JStr "large-v3")] true
    "2025-01-01T00:00:00" 1 ∅ = (Raise ZeroDivisionError, ∅).
Proof. apply save_checkpoint_empty. reflexivity. Defined.

End Kaggle_more.


Section Batch_files.
Import Json FS Spec Whisper Scenario.

Lemma word_round_trip (w : WordInfo) : word_of_json (word_to_json w) = Some w.
Proof. destruct w; reflexivity. Qed.

Lemma words_round_trip (ws : list WordInfo) :
  mapM word_of_json (map word_to_json ws) = Some ws.
Proof.
  induction ws as [|w ws IH]; [reflexivity|].
  cbn [map mapM]. rewrite word_round_trip. cbn. rewrite IH. reflexivity.
Qed.

Lemma segment_round_trip (s : TranscriptSegment) :
  segment_of_json (segment_to_json s) = Some s.
Proof.
  destruct s as [i st en t c ws]. unfold segment_to_json, segment_of_json.
  cbn -[mapM]. destruct ws as [ws|]; [|reflexivity].
  rewrite words_round_trip. reflexivity.
Qed.

Lemma unreadable_none (j : json) : unreadable j = true -> segment_of_json j = None.
Proof.
  destruct j as [| | | | | |d]; try reflexivity. unfold unreadable, has_key, segment_of_json.
  destruct (get "id" d) as [i|]; [|reflexivity].
  destruct (get "start" d) as [s|]; [|intros _; cbn; destruct (as_int i); reflexivity].
  destruct (get "end" d) as [e|];
    [|intros _; cbn; destruct (as_int i); [cbn; destruct (as_float s)|]; reflexivity].
  destruct (get "text" d) as [t|]; [discriminate|].
  intros _. cbn. destruct (as_int i); [cbn|reflexivity].
  destruct (as_float s); [cbn|reflexivity]. destruct (as_float e); reflexivity.
Qed.

(** The records [flush] writes for the segments of a batch are read back by
    [get_all_segments] as the same segments, words included, in the same
    order; a record that is not an object, or that lacks one of the keys
    [id], [start], [end] and [text], ends the reading of its file, what
    came before it being kept and what comes after it dropped. *)
Theorem batch_round_trip (batch acc : list TranscriptSegment) (bad : json)
    (rest : list json) :
  load_batch (map segment_to_json batch) acc = (acc ++ batch)%list
  /\ (unreadable bad = true ->
      load_batch (map segment_to_json batch ++ bad :: rest) acc = (acc ++ batch)%list).
Proof.
  revert acc. induction batch as [|s batch IH]; intros acc; cbn [map load_batch app].
  - rewrite app_nil_r. split; [reflexivity|]. intros H.
    rewrite (unreadable_none bad H). reflexivity.
  - rewrite segment_round_trip. destruct (IH (acc ++ [s])%list) as [IH1 IH2].
    rewrite <- app_assoc in IH1, IH2. split; [exact IH1 | exact IH2].
Qed.

Lemma batch_round_trip_witness :
  let s := {| id := 0; start := 0; end_ := 1; text := "สวัสดี"; confidence := 1;
              words := Some [ {| word := "สวัสดี"; w_start := 0; w_end := 1;
                                 probability := 1 |} ] |} in
  load_batch (map segment_to_json [s] ++ JDict [("id", JInt 1)] :: [segment_to_json s]) []
  = [s].
Proof.
  intros s.
  apply (proj2 (batch_round_trip [s] [] (JDict [("id", JInt 1)]) [segment_to_json s])).
  reflexivity.
Defined.

End Batch_files.

Section Cleanup.
Import Json FS Spec Whisper Scenario.

Lemma append_cons (c : ascii) (a b : string) : String c a ++ b = String c (a ++ b).
Proof. reflexivity. Qed.

Lemma prefix_app (p s : string) : String.prefix p (p ++ s) = true.
Proof.
  induction p as [|c p IH].
  - destruct s; reflexivity.
  - rewrite append_cons. cbn [String.prefix].
    destruct (ascii_dec c c); [exact IH | congruence].
Qed.

Lemma prefix_inv (p n : string) :
  String.prefix p n = true -> exists s, n = p ++ s.
Proof.
  revert n. induction p as [|c p IH]; intros n H.
  - exists n. reflexivity.
  - destruct n as [|c' n]; [discriminate|]. cbn [String.prefix] in H.
    destruct (ascii_dec c c') as [<-|]; [|discriminate].
    destruct (IH n H) as [s ->]. exists s. reflexivity.
Qed.

Lemma append_assoc (a b c : string) : (a ++ b) ++ c = a ++ (b ++ c).
Proof.
  induction a as [|x a IH]; [reflexivity|].
  rewrite !append_cons. f_equal. exact IH.
Qed.

Lemma cleanup_lookup (m : CheckpointManager) (d : disk) (p : string) :
  cleanup m d !! p
  = if starts_with (checkpoint_dir m ++ "/") p then None else d !! p.
Proof.
  unfold cleanup. rewrite map_lookup_filter.
  destruct (starts_with (checkpoint_dir m ++ "/") p) eqn:Es;
    destruct (d !! p) as [f|]; try reflexivity; cbn [mbind option_bind].
  - rewrite option_guard_False; [reflexivity|]. cbn [fst]. rewrite Es. discriminate.
  - rewrite option_guard_True; [reflexivity|]. cbn [fst]. exact Es.
Qed.

(** [cleanup] removes the checkpoint and every batch file, and nothing
    outside the checkpoint directory: afterwards there is no checkpoint to
    load and no segment to take over, and every file whose path does not
    start with the directory is as it was. *)
Theorem cleanup_removes_job (m : CheckpointManager) (d : disk) (size : Z) :
  has_checkpoint m (cleanup m d) = false
  /\ load_checkpoint m (cleanup m d) = None
  /\ get_all_segments (new_batcher (segments_dir m) size) (cleanup m d) = []
  /\ (forall p, starts_with (checkpoint_dir m ++ "/") p = false ->
        cleanup m d !! p = d !! p).
Proof.
  assert (Hck : cleanup m d !! checkpoint_file m = None).
  { rewrite cleanup_lookup. unfold checkpoint_file, starts_with.
    change "/checkpoint.json" with ("/" ++ "checkpoint.json").
    rewrite <- append_assoc, prefix_app. reflexivity. }
  split; [|split; [|split]].
  - unfold has_checkpoint. rewrite Hck. apply bool_decide_eq_false.
    intros [? ?]. discriminate.
  - unfold load_checkpoint. rewrite Hck. reflexivity.
  - unfold get_all_segments. cbn [storage_dir new_batcher].
    assert (Hg : glob (segments_dir m ++ "/batch_") ".json" (cleanup m d) = []).
    { apply elem_of_nil_inv. intros n Hn.
      apply glob_elem in Hn as [[f Hf] Hm]. rewrite cleanup_lookup in Hf.
      unfold matches in Hm. apply andb_true_iff in Hm as [Hm _].
      apply andb_true_iff in Hm as [Hm _]. apply andb_true_iff in Hm as [Hm _].
      apply prefix_inv in Hm as [s ->]. unfold segments_dir, starts_with in Hf.
      replace (((checkpoint_dir m ++ "/segments") ++ "/batch_") ++ s)
        with ((checkpoint_dir m ++ "/") ++ ("segments" ++ "/batch_" ++ s)) in Hf
        by (change "/segments" with ("/" ++ "segments"); rewrite !append_assoc;
            reflexivity).
      rewrite prefix_app in Hf. discriminate Hf. }
    rewrite Hg. reflexivity.
  - intros p Hp. rewrite cleanup_lookup, Hp. reflexivity.
Qed.

Lemma cleanup_removes_job_witness :
  cleanup manager (killed 105 100) !! "output/video.json" = killed 105 100 !! "output/video.json"
  /\ has_checkpoint manager (killed 105 100) = true
  /\ has_checkpoint manager (cleanup manager (killed 105 100)) = false.
Proof.
  destruct (cleanup_removes_job manager (killed 105 100) 100) as (Hno & _ & _ & Hkeep).
  split; [apply Hkeep; reflexivity|]. split; [vm_compute; reflexivity | exact Hno].
Defined.

End Cleanup.

Section Transcribe.
Import Json FS Spec Whisper Scenario.

Lemma update_ok (now s : Q) (t : ProgressTracker) :
  tracker_ok t -> exists t', update now s t = Some t' /\ tracker_ok t'.
Proof.
  unfold tracker_ok, update. intros [H|H]; rewrite H.
  - eexists. split; [reflexivity|]. left. reflexivity.
  - destruct (pbar t) eqn:Hb; eexists; (split; [reflexivity|]); cbn; auto.
Qed.

Lemma loop_body_segments (cm : option CheckpointManager) (env : Env) (offset : Q)
    (r : Z) (raw : list RawSegment) (i : nat) (seg : RawSegment) (st : LoopState) :
  tracker_ok (ls_tracker st) -> interval_ok cm (ls_self st) ->
  exists st', loop_body cm env offset r raw i seg st = Running st'
    /\ tracker_ok (ls_tracker st') /\ interval_ok cm (ls_self st')
    /\ ls_segments st'
       = (ls_segments st ++ if Z.of_nat i <? r then [] else [make_segment offset i seg])%list.
Proof.
  intros Htr Hint. unfold loop_body. destruct (Z.of_nat i <? r) eqn:Hr.
  { exists st. rewrite app_nil_r. auto. }
  assert (Hup : exists tr,
             match i with
             | O => Some (ls_tracker st)
             | S j => update (time_at env (2 + i))
                        (rs_end seg - match raw !! j with Some p => rs_end p | None => 0%Q end)%Q
                        (ls_tracker st)
             end = Some tr /\ tracker_ok tr).
  { destruct i; [eauto|]. apply update_ok. exact Htr. }
  destruct Hup as (tr & Hup & Htr').
  destruct (ls_batcher st) as [b|]; [destruct (add_segment _ b _) as [b' d']|];
    rewrite Hup; (destruct cm as [m|]; [|eexists; split; [reflexivity|]; cbn; auto]);
    (destruct Hint as [Hint|Hint]; [discriminate|]);
    rewrite (proj2 (Z.eqb_neq _ _) Hint);
    destruct (_ =? 0); eexists; (split; [reflexivity|]); cbn;
    (split; [exact Htr'|]); (split; [right; exact Hint | reflexivity]).
Qed.

Lemma run_loop_segments (cm : option CheckpointManager) (env : Env) (offset : Q)
    (r : Z) (raw todo : list RawSegment) (i : nat) (st : LoopState) :
  tracker_ok (ls_tracker st) -> interval_ok cm (ls_self st) ->
  exists st', run_loop cm env offset r raw i todo st = Running st'
    /\ ls_segments st'
       = (ls_segments st
          ++ drop (Z.to_nat r - i) (imap (fun j => make_segment offset (i + j)) todo))%list.
Proof.
  revert i st. induction todo as [|seg todo IH]; intros i st Htr Hint.
  - exists st. cbn. rewrite drop_nil, app_nil_r. auto.
  - cbn [run_loop].
    destruct (loop_body_segments cm env offset r raw i seg st Htr Hint)
      as (st1 & -> & Htr1 & Hint1 & Hs1).
    destruct (IH (S i) st1 Htr1 Hint1) as (st2 & -> & Hs2).
    exists st2. split; [reflexivity|]. rewrite Hs2, Hs1, <- app_assoc. f_equal.
    cbn [imap]. rewrite Nat.add_0_r.
    assert (Hext : imap ((fun j => make_segment offset (i + j)) ∘ S) todo
                   = imap (fun j => make_segment offset (S i + j)) todo).
    { apply imap_ext. intros j x _. cbn. f_equal. lia. }
    rewrite Hext. destruct (Z.of_nat i <? r) eqn:Hr.
    + apply Z.ltb_lt in Hr.
      replace (Z.to_nat r - i)%nat with (S (Z.to_nat r - S i)) by lia. reflexivity.
    + apply Z.ltb_ge in Hr.
      replace (Z.to_nat r - i)%nat with 0%nat by lia.
      replace (Z.to_nat r - S i)%nat with 0%nat by lia. reflexivity.
Qed.

Lemma prepare_interval (self : WhisperTranscriber) (hash : string) (resume : bool)
    (env : Env) (d : disk) :
  ckpt_base self = None \/ checkpoint_interval self <> 0 ->
  interval_ok (p_manager (prepare self hash resume env d)) self.
Proof.
  intros [H|H]; [left | right; exact H].
  unfold prepare. rewrite H. reflexivity.
Qed.

Lemma transcribe_file_spec (self : WhisperTranscriber) (name hash : string)
    (offset : Q) (resume : bool) (env : Env) (result : WhisperResult) (d : disk) :
  let raw := wr_segments result in
  let p := prepare self hash resume env d in
  (show_bar env = true
   \/ ~ (match last raw with Some s => rs_end s | None => 0 end == 0)%Q) ->
  (ckpt_base self = None \/ checkpoint_interval self <> 0) ->
  ~ (time_at env (2 + length raw) - time_at env 0 == 0)%Q ->
  exists tr self' d',
    transcribe_file self name hash offset resume env result d = (Some tr, self', d')
    /\ segments tr
       = (p_resumed p ++ drop (Z.to_nat (p_resume_from p)) (imap (make_segment offset) raw))%list.
Proof.
  intros raw p Hbar Hint Htime. unfold transcribe_file. fold raw. fold p.
  set (st0 := initial_state self name hash offset env result p).
  assert (Htr0 : tracker_ok (ls_tracker st0)).
  { unfold tracker_ok. cbn. fold raw. destruct Hbar as [Hb|Hb]; [left; exact Hb|right].
    destruct (Qeq_bool _ 0) eqn:E; [|reflexivity].
    apply Qeq_bool_iff in E. contradiction. }
  assert (Hint0 : interval_ok (p_manager p) (ls_self st0)).
  { apply prepare_interval. exact Hint. }
  destruct (run_loop_segments (p_manager p) env offset (p_resume_from p) raw raw 0 st0
              Htr0 Hint0) as (st1 & -> & Hs).
  destruct (Qeq_bool (time_at env (2 + length raw) - time_at env 0) 0) eqn:E.
  { apply Qeq_bool_iff in E. contradiction. }
  eexists _, _, _. split; [reflexivity|]. cbn [segments].
  rewrite Hs. cbn [ls_segments st0 initial_state app]. rewrite Nat.sub_0_r.
  destruct (p_resumed p); reflexivity.
Qed.

(** A run of [transcribe_file] that no exception ends (the progress is
    shown on a bar, or the audio does not end at second zero; the
    checkpoint interval is not zero when checkpoints are kept; the clock
    has moved) returns a transcript, and its segments are the segments
    taken over from the batch files, followed by one segment for each
    segment of the model from the index of the checkpoint on, the segment
    of index [i] carrying the id [i]. *)
Theorem transcribe_file_segments (self : WhisperTranscriber) (name hash : string)
    (offset : Q) (resume : bool) (env : Env) (result : WhisperResult) (d : disk) :
  let raw := wr_segments result in
  let p := prepare self hash resume env d in
  (show_bar env = true
   \/ ~ (match last raw with Some s => rs_end s | None => 0 end == 0)%Q) ->
  (ckpt_base self = None \/ checkpoint_interval self <> 0) ->
  ~ (time_at env (2 + length raw) - time_at env 0 == 0)%Q ->
  exists tr self' d',
    transcribe_file self name hash offset resume env result d = (Some tr, self', d')
    /\ segments tr
       = (p_resumed p ++ drop (Z.to_nat (p_resume_from p)) (imap (make_segment offset) raw))%list.
Proof. exact (transcribe_file_spec self name hash offset resume env result d). Qed.

Lemma transcribe_file_segments_witness :
  exists tr self' d',
    resumed 25 15 = (Some tr, self', d')
    /\ map id (segments tr)
       = [9; 10; 11; 12; 13; 14; 15; 16; 17; 18; 19; 20; 21; 22; 23; 24].
Proof.
  destruct (transcribe_file_segments transcriber "video.mp4" "abcd1234" 0 true env
              (audio 25) (killed 25 15)) as (tr & self' & d' & Hrun & Hsegs).
  - left. reflexivity.
  - right. discriminate.
  - vm_compute. discriminate.
  - exists tr, self', d'. split; [exact Hrun|]. rewrite Hsegs. vm_compute. reflexivity.
Defined.

(** A run that is not asked to resume and that no exception ends returns
    one segment for each segment of the model, in their order: segment [i]
    has the id [i], the times of the model's segment shifted by the
    offset, and its text stripped. *)
Theorem fresh_run_segments (self : WhisperTranscriber) (name hash : string)
    (offset : Q) (env : Env) (result : WhisperResult) (d : disk) :
  let raw := wr_segments result in
  (show_bar env = true
   \/ ~ (match last raw with Some s => rs_end s | None => 0 end == 0)%Q) ->
  (ckpt_base self = None \/ checkpoint_interval self <> 0) ->
  ~ (time_at env (2 + length raw) - time_at env 0 == 0)%Q ->
  exists tr self' d',
    transcribe_file self name hash offset false env result d = (Some tr, self', d')
    /\ segments tr = imap (make_segment offset) raw
    /\ map id (segments tr) = map Z.of_nat (seq 0 (length raw))
    /\ map text (segments tr) = map (fun s => PyStr.strip (rs_text s)) raw.
Proof.
  intros raw Hbar Hint Htime.
  destruct (transcribe_file_spec self name hash offset false env result d Hbar Hint Htime)
    as (tr & self' & d' & Hrun & Hsegs).
  assert (Hp : p_resumed (prepare self hash false env d) = []
               /\ p_resume_from (prepare self hash false env d) = 0).
  { unfold prepare. destruct (ckpt_base self); split; reflexivity. }
  destruct Hp as [Hp1 Hp2]. rewrite Hp1, Hp2 in Hsegs. cbn in Hsegs. fold raw in Hsegs.
  exists tr, self', d'. split; [exact Hrun|]. split; [exact Hsegs|]. rewrite Hsegs.
  clear. generalize raw. intros l.
  assert (G : forall k,
             map id (imap (fun j => make_segment offset (k + j)) l)
             = map Z.of_nat (seq k (length l))
             /\ map text (imap (fun j => make_segment offset (k + j)) l)
                = map (fun s => PyStr.strip (rs_text s)) l).
  { induction l as [|x l IH]; intros k; [split; reflexivity|].
    cbn [imap map length seq]. rewrite Nat.add_0_r.
    assert (Hext : imap ((fun j => make_segment offset (k + j)) ∘ S) l
                   = imap (fun j => make_segment offset (S k + j)) l).
    { apply imap_ext. intros j y _. cbn. f_equal. lia. }
    rewrite Hext. destruct (IH (S k)) as [IH1 IH2]. rewrite IH1, IH2.
    split; reflexivity. }
  exact (G 0%nat).
Qed.

Lemma fresh_run_segments_witness :
  option_map (fun t => map id (segments t)) (fst (fst (uninterrupted 4)))
  = Some [0; 1; 2; 3].
Proof.
  destruct (fresh_run_segments transcriber "video.mp4" "abcd1234" 0 env (audio 4) ∅)
    as (tr & self' & d' & Hrun & _ & Hids & _).
  - left. reflexivity.
  - right. discriminate.
  - vm_compute. discriminate.
  - unfold uninterrupted. rewrite Hrun. cbn [fst option_map]. rewrite Hids. reflexivity.
Defined.

Lemma inside_dir (dir rest : string) : starts_with (dir ++ "/") (dir ++ "/" ++ rest) = true.
Proof. unfold starts_with. rewrite <- append_assoc. apply prefix_app. Qed.

Lemma inside_checkpoint_file (m : CheckpointManager) :
  starts_with (checkpoint_dir m ++ "/") (checkpoint_file m) = true.
Proof. exact (inside_dir (checkpoint_dir m) "checkpoint.json"). Qed.

Lemma inside_temp_file (m : CheckpointManager) :
  starts_with (checkpoint_dir m ++ "/") (temp_file m) = true.
Proof. exact (inside_dir (checkpoint_dir m) "checkpoint.tmp"). Qed.

Lemma inside_batch_file (m : CheckpointManager) (b : SegmentBatcher) :
  storage_dir b = segments_dir m ->
  starts_with (checkpoint_dir m ++ "/") (batch_file b) = true.
Proof.
  intros H. unfold batch_file. rewrite H. unfold segments_dir.
  change "/segments" with ("/" ++ "segments"). rewrite !append_assoc.
  apply inside_dir.
Qed.

Lemma same_outside_refl (dir : string) (d : disk) : same_outside dir d d.
Proof. intros p _. reflexivity. Qed.

Lemma same_outside_insert (dir : string) (d1 d : disk) (p : string) (f : file) :
  starts_with (dir ++ "/") p = true -> same_outside dir d1 d ->
  same_outside dir (<[p := f]> d1) d.
Proof.
  intros Hp H q Hq. rewrite lookup_insert_ne; [apply H, Hq|]. intros ->. congruence.
Qed.

Lemma same_outside_delete (dir : string) (d1 d : disk) (p : string) :
  starts_with (dir ++ "/") p = true -> same_outside dir d1 d ->
  same_outside dir (delete p d1) d.
Proof.
  intros Hp H q Hq. rewrite lookup_delete_ne; [apply H, Hq|]. intros ->. congruence.
Qed.

Lemma same_outside_save (m : CheckpointManager) (c : CheckpointData) (d1 d : disk) :
  same_outside (checkpoint_dir m) d1 d ->
  same_outside (checkpoint_dir m) (save_checkpoint m c d1) d.
Proof.
  intros H. unfold save_checkpoint, replace, write_file. rewrite lookup_insert_eq.
  apply same_outside_insert; [apply inside_checkpoint_file|].
  apply same_outside_delete; [apply inside_temp_file|].
  apply same_outside_insert; [apply inside_temp_file | exact H].
Qed.

Lemma same_files_refl (cm : option CheckpointManager) (d : disk) : same_files cm d d.
Proof. destruct cm; [apply same_outside_refl | reflexivity]. Qed.

Lemma flush_files (cm : option CheckpointManager) (b : SegmentBatcher) (d1 d : disk) :
  batcher_of cm (Some b) -> same_files cm d1 d ->
  batcher_of cm (Some (fst (flush b d1))) /\ same_files cm (snd (flush b d1)) d.
Proof.
  intros Hb H. destruct cm as [m|]; [|contradiction]. cbn in Hb, H. unfold flush.
  destruct (current_batch b) eqn:E; cbn [fst snd]; (split; [exact Hb|]); [exact H|].
  unfold write_file. apply same_outside_insert; [|exact H].
  apply inside_batch_file. exact Hb.
Qed.

Lemma add_segment_files (cm : option CheckpointManager) (seg : TranscriptSegment)
    (b : SegmentBatcher) (d1 d : disk) :
  batcher_of cm (Some b) -> same_files cm d1 d ->
  batcher_of cm (Some (fst (add_segment seg b d1)))
  /\ same_files cm (snd (add_segment seg b d1)) d.
Proof.
  intros Hb H. unfold add_segment. cbn [batch_size current_batch].
  destruct (_ <=? _).
  - apply flush_files; [|exact H]. destruct cm; [exact Hb | contradiction].
  - cbn [fst snd]. split; [|exact H]. destruct cm; [exact Hb | contradiction].
Qed.

Lemma loop_body_files (cm : option CheckpointManager) (env : Env) (offset : Q)
    (r : Z) (raw : list RawSegment) (i : nat) (seg : RawSegment) (st : LoopState)
    (d : disk) :
  batcher_of cm (ls_batcher st) -> same_files cm (ls_disk st) d ->
  let st' := state_of (loop_body cm env offset r raw i seg st) in
  batcher_of cm (ls_batcher st') /\ same_files cm (ls_disk st') d.
Proof.
  intros Hb H. unfold loop_body. destruct (Z.of_nat i <? r); [split; assumption|].
  set (segment := make_segment offset i seg).
  assert (Hadd : let sbd := match ls_batcher st with
                            | Some b => let '(b', d') := add_segment segment b (ls_disk st) in
                                        (Some b', d')
                            | None => (None, ls_disk st)
                            end in
                 batcher_of cm (fst sbd) /\ same_files cm (snd sbd) d).
  { destruct (ls_batcher st) as [b|]; [|split; [exact I | exact H]].
    destruct (add_segment_files cm segment b (ls_disk st) d Hb H) as [H1 H2].
    destruct (add_segment segment b (ls_disk st)). split; [exact H1 | exact H2]. }
  cbn zeta in Hadd.
  destruct (match ls_batcher st with Some b => _ | None => _ end) as [sb d1].
  destruct Hadd as [Hb1 Hd1]. cbn [fst snd] in Hb1, Hd1.
  destruct (match i with O => _ | S j => _ end) as [tr|]; [|split; assumption].
  destruct cm as [m|]; [|split; assumption].
  destruct (_ =? 0); [split; assumption|].
  destruct (_ =? 0); [|split; assumption].
  cbn. split; [exact Hb1|]. apply same_outside_save. exact Hd1.
Qed.

Lemma run_loop_files (cm : option CheckpointManager) (env : Env) (offset : Q)
    (r : Z) (raw todo : list RawSegment) (d : disk) (i : nat) (st : LoopState) :
  batcher_of cm (ls_batcher st) -> same_files cm (ls_disk st) d ->
  let st' := state_of (run_loop cm env offset r raw i todo st) in
  batcher_of cm (ls_batcher st') /\ same_files cm (ls_disk st') d.
Proof.
  revert i st. induction todo as [|seg todo IH]; intros i st Hb H; [split; assumption|].
  cbn [run_loop].
  pose proof (loop_body_files cm env offset r raw i seg st d Hb H) as Hbody.
  destruct (loop_body cm env offset r raw i seg st) as [st1|st1]; cbn in Hbody.
  - apply IH; tauto.
  - exact Hbody.
Qed.

Lemma emergency_files (cm : option CheckpointManager) (st : LoopState) (d : disk) :
  same_files cm (ls_disk st) d -> same_files cm (emergency cm st) d.
Proof.
  intros H. unfold emergency. destruct cm as [m|]; [|exact H].
  destruct (current_checkpoint_data _); [|exact H]. apply same_outside_save. exact H.
Qed.

Lemma cleanup_same (m : CheckpointManager) (d1 d : disk) :
  same_outside (checkpoint_dir m) d1 d -> cleanup m d1 = cleanup m d.
Proof.
  intros H. apply map_eq. intros p. rewrite !cleanup_lookup.
  destruct (starts_with _ p) eqn:E; [reflexivity | apply H, E].
Qed.

Lemma cleanup_outside (m : CheckpointManager) (d : disk) :
  same_outside (checkpoint_dir m) (cleanup m d) d.
Proof. intros p Hp. rewrite cleanup_lookup, Hp. reflexivity. Qed.

Lemma prepare_files (self : WhisperTranscriber) (hash : string) (resume : bool)
    (env : Env) (d : disk) :
  let p := prepare self hash resume env d in
  batcher_of (p_manager p) (p_batcher p) /\ same_files (p_manager p) (p_disk p) d
  /\ p_manager p = option_map (fun base => {| checkpoint_dir := base ++ "/" ++ hash |})
                     (ckpt_base self).
Proof.
  unfold prepare. destruct (ckpt_base self) as [base|]; [|cbn; auto].
  destruct (if resume && _ then _ else None) as [c|];
    [destruct (confirms _)|]; cbn; (split; [reflexivity|]); (split; [|reflexivity]);
    try apply same_outside_refl.
  exact (cleanup_outside {| checkpoint_dir := base ++ "/" ++ hash |} d).
Qed.

(** [transcribe_file] writes under its checkpoint directory only: whether
    it returns or raises, every file outside that directory is as it was,
    and without a checkpoint directory the disk is not touched at all.  A
    run that returns a transcript has removed the checkpoint directory, so
    it leaves the disk it found, less that directory. *)
Theorem transcribe_file_keeps_other_files (self : WhisperTranscriber)
    (name hash : string) (offset : Q) (resume : bool) (env : Env)
    (result : WhisperResult) (d : disk) :
  let run := transcribe_file self name hash offset resume env result d in
  match ckpt_base self with
  | None => snd run = d
  | Some base =>
      let m := {| checkpoint_dir := base ++ "/" ++ hash |} in
      (forall p, starts_with (checkpoint_dir m ++ "/") p = false -> snd run !! p = d !! p)
      /\ (is_Some (fst (fst run)) -> snd run = cleanup m d)
  end.
Proof.
  intros run.
  assert (G : same_files (p_manager (prepare self hash resume env d)) (snd run) d
              /\ (is_Some (fst (fst run)) ->
                  forall m, p_manager (prepare self hash resume env d) = Some m ->
                            snd run = cleanup m d)).
  { subst run. unfold transcribe_file.
    destruct (prepare_files self hash resume env d) as (Hb0 & Hd0 & _).
    set (p := prepare self hash resume env d) in *.
    set (st0 := initial_state self name hash offset env result p).
    pose proof (run_loop_files (p_manager p) env offset (p_resume_from p)
                  (wr_segments result) (wr_segments result) d 0 st0 Hb0 Hd0) as Hrun.
    destruct (run_loop _ _ _ _ _ _ _ st0) as [st1|st1]; cbn in Hrun;
      destruct Hrun as [Hb1 Hd1].
    - assert (Hfl : same_files (p_manager p)
                      match ls_batcher st1 with
                      | Some b => snd (flush b (ls_disk st1))
                      | None => ls_disk st1
                      end d).
      { destruct (ls_batcher st1) as [b|]; [|exact Hd1].
        apply (flush_files (p_manager p) b (ls_disk st1) d Hb1 Hd1). }
      destruct (Qeq_bool _ 0); cbn [fst snd].
      + split; [|intros [? ?]; discriminate].
        apply emergency_files. exact Hfl.
      + destruct (p_manager p) as [m|] eqn:Em.
        * split.
          -- intros q Hq. rewrite cleanup_lookup, Hq. apply Hfl, Hq.
          -- intros _ m' [= <-]. apply cleanup_same. exact Hfl.
        * split; [exact Hfl|]. intros _ m' [=].
    - cbn [fst snd]. split; [|intros [? ?]; discriminate].
      apply emergency_files. exact Hd1. }
  destruct (prepare_files self hash resume env d) as (_ & _ & Hm).
  destruct G as [G1 G2]. rewrite Hm in G1, G2.
  destruct (ckpt_base self) as [base|]; cbn in G1, G2 |- *.
  - split; [exact G1|]. intros Hs. apply G2; [exact Hs | reflexivity].
  - exact G1.
Qed.

Lemma transcribe_file_keeps_other_files_witness :
  snd (resumed 25 15) = cleanup manager (killed 25 15)
  /\ has_checkpoint manager (killed 25 15) = true
  /\ has_checkpoint manager (snd (resumed 25 15)) = false.
Proof.
  pose proof (transcribe_file_keeps_other_files transcriber "video.mp4" "abcd1234" 0 true env
                (audio 25) (killed 25 15)) as [_ H].
  split; [|split; vm_compute; reflexivity].
  apply H. vm_compute. eexists. reflexivity.
Defined.

End Transcribe.

Section Batcher.
Import Json FS Spec Whisper Scenario.

(** Strings. *)

Lemma length_append (a b : string) :
  String.length (a ++ b) = (String.length a + String.length b)%nat.
Proof. induction a as [|c a IH]; [reflexivity|]. rewrite append_cons. cbn. rewrite IH. reflexivity. Qed.

Lemma substring_skip (p s : string) (n k : nat) :
  substring (String.length p + n) k (p ++ s) = substring n k s.
Proof. induction p as [|c p IH]; [reflexivity|]. rewrite append_cons. cbn. exact IH. Qed.

Lemma substring_take (m s : string) : substring 0 (String.length m) (m ++ s) = m.
Proof.
  induction m as [|c m IH].
  - destruct s; reflexivity.
  - rewrite append_cons. cbn. rewrite IH. reflexivity.
Qed.

Lemma append_nil_r (a : string) : a ++ "" = a.
Proof. induction a as [|c a IH]; [reflexivity|]. rewrite append_cons, IH. reflexivity. Qed.

Lemma matches_name (pre mid suf : string) :
  matches pre suf (pre ++ mid ++ suf) = negb (PyStr.contains "/" mid).
Proof.
  unfold matches, starts_with, ends_with. rewrite prefix_app. rewrite !length_append.
  replace (String.length suf <=? String.length pre + (String.length mid + String.length suf))%nat
    with true by (symmetry; apply Nat.leb_le; lia).
  replace (String.length pre + (String.length mid + String.length suf) - String.length suf)%nat
    with (String.length pre + (String.length mid + 0))%nat by lia.
  rewrite substring_skip.
  replace (String.length mid + 0)%nat with (String.length mid + 0)%nat by reflexivity.
  rewrite (substring_skip mid suf 0 (String.length suf)).
  rewrite <- (append_nil_r suf) at 2. rewrite substring_take. rewrite String.eqb_refl.
  replace (String.length pre + String.length suf <=?
           String.length pre + (String.length mid + String.length suf))%nat
    with true by (symmetry; apply Nat.leb_le; lia).
  replace (String.length pre + (String.length mid + String.length suf)
           - String.length pre - String.length suf)%nat
    with (String.length mid) by lia.
  rewrite <- (Nat.add_0_r (String.length pre)). rewrite substring_skip, substring_take.
  reflexivity.
Qed.

Lemma leb_app (p a b : string) : String.leb (p ++ a) (p ++ b) = String.leb a b.
Proof.
  induction p as [|c p IH]; [reflexivity|]. rewrite !append_cons.
  unfold String.leb in *. cbn [String.compare].
  assert (Hc : Ascii.compare c c = Eq) by (unfold Ascii.compare; apply N.compare_refl).
  rewrite Hc. exact IH.
Qed.

(** The names of the first thousand batch files. *)

Lemma names_increasing :
  Sorted name_lt (map (fun k => PyStr.of_int_pad 3 (Z.of_nat k) ++ ".json") (seq 0 1000)).
Proof. unfold name_lt. apply (bool_decide_unpack _). vm_compute. exact I. Qed.

Lemma names_no_slash :
  forallb (fun k => negb (PyStr.contains "/" (PyStr.of_int_pad 3 (Z.of_nat k)))) (seq 0 1000)
  = true.
Proof. vm_compute. reflexivity. Qed.

Lemma name_lt_trans : Transitive name_lt.
Proof.
  intros a b c [Hab Nab] [Hbc Nbc]. split; [etrans; eassumption|].
  intros ->. apply Nab. apply (anti_symm String.le); assumption.
Qed.

Lemma name_lt_app (p a b : string) : name_lt a b -> name_lt (p ++ a) (p ++ b).
Proof.
  intros [H N]. split.
  - unfold String.le in *. rewrite leb_app. exact H.
  - intros E. apply N. exact (String.app_inj p _ _ E).
Qed.

Lemma batch_names_sorted (dir : string) (c : nat) :
  (c <= 1000)%nat -> StronglySorted name_lt (map (batch_name dir) (seq 0 c)).
Proof.
  intros Hc.
  assert (H : StronglySorted name_lt (map (batch_name dir) (seq 0 1000))).
  { apply (@Sorted_StronglySorted _ name_lt name_lt_trans).
    pose proof (Sorted_fmap (fun s => dir ++ "/batch_" ++ s) name_lt name_lt
                  (map (fun k => PyStr.of_int_pad 3 (Z.of_nat k) ++ ".json") (seq 0 1000)))
      as Hf.
    rewrite <- list_fmap_compose in Hf. apply Hf; [|exact names_increasing].
    intros a b Hab. rewrite <- !append_assoc. apply name_lt_app. exact Hab. }
  replace 1000%nat with (c + (1000 - c))%nat in H by lia.
  rewrite seq_app, map_app in H. apply StronglySorted_app_1_l in H. exact H.
Qed.

Lemma batch_name_fresh (dir : string) (c : nat) :
  (c < 1000)%nat -> batch_name dir c ∉ map (batch_name dir) (seq 0 c).
Proof.
  intros Hc Hin.
  pose proof (batch_names_sorted dir (S c) ltac:(lia)) as H.
  rewrite seq_S, map_app in H. cbn [map] in H.
  pose proof (StronglySorted_app_1_elem_of _ _ _ _ _ H Hin ltac:(left)) as [_ N].
  apply N. reflexivity.
Qed.

Lemma batch_names_NoDup (dir : string) (c : nat) :
  (c <= 1000)%nat -> NoDup (map (batch_name dir) (seq 0 c)).
Proof.
  induction c as [|c IH]; intros Hc; [constructor|].
  rewrite seq_S, map_app. cbn [map]. apply NoDup_app. split; [apply IH; lia|]. split.
  - intros x Hx Hx'. apply list_elem_of_singleton in Hx'. subst x.
    exact (batch_name_fresh dir c ltac:(lia) Hx).
  - apply NoDup_singleton.
Qed.

Lemma batch_name_matches (dir : string) (k : nat) :
  (k < 1000)%nat -> matches (dir ++ "/batch_") ".json" (batch_name dir k) = true.
Proof.
  intros Hk. unfold batch_name. rewrite <- append_assoc, matches_name.
  pose proof names_no_slash as H. rewrite forallb_forall in H.
  apply H. apply in_seq. lia.
Qed.

Lemma batch_name_elem (dir : string) (c k : nat) :
  (k < c)%nat -> batch_name dir k ∈ map (batch_name dir) (seq 0 c).
Proof.
  intros Hk. apply list_elem_of_fmap. exists k. split; [reflexivity|].
  apply elem_of_seq. lia.
Qed.

(** Sorting of names. *)

Lemma insert_name_perm (n : string) (l : list string) : insert_name n l ≡ₚ n :: l.
Proof.
  induction l as [|x l IH]; cbn [insert_name]; [reflexivity|].
  destruct (String.leb n x); [reflexivity|]. rewrite IH. apply perm_swap.
Qed.

Lemma sorted_names_perm (l : list string) : sorted_names l ≡ₚ l.
Proof.
  induction l as [|x l IH]; [reflexivity|]. cbn [sorted_names fold_right].
  rewrite insert_name_perm. constructor. exact IH.
Qed.

Lemma insert_name_sorted (n : string) (l : list string) :
  StronglySorted String.le l -> StronglySorted String.le (insert_name n l).
Proof.
  induction 1 as [|x l Hs IH Hx]; cbn [insert_name]; [repeat constructor|].
  destruct (String.leb n x) eqn:E.
  - assert (Hnx : String.le n x) by (unfold String.le; rewrite E; exact I).
    constructor; [constructor; assumption|]. constructor; [exact Hnx|].
    eapply Forall_impl; [exact Hx|]. intros y Hy. etrans; eassumption.
  - constructor; [exact IH|].
    eapply Permutation_Forall; [symmetry; apply insert_name_perm|].
    constructor; [|exact Hx].
    destruct (String.le_total n x) as [H|H]; [|exact H].
    unfold String.le in H. rewrite E in H. contradiction.
Qed.

Lemma sorted_names_sorted (l : list string) : StronglySorted String.le (sorted_names l).
Proof.
  induction l as [|x l IH]; [constructor|]. cbn [sorted_names fold_right].
  apply insert_name_sorted. exact IH.
Qed.

Lemma sorted_names_unique (l names : list string) :
  l ≡ₚ names -> StronglySorted name_lt names -> sorted_names l = names.
Proof.
  intros Hp Hs. apply (StronglySorted_unique String.le).
  - apply sorted_names_sorted.
  - clear Hp. induction Hs as [|x names Hs IH Hx]; constructor; [exact IH|].
    eapply Forall_impl; [exact Hx|]. intros y [Hy _]. exact Hy.
  - rewrite sorted_names_perm. exact Hp.
Qed.

(** Reading. *)

Lemma load_batch_segments (batch acc : list TranscriptSegment) :
  load_batch (map segment_to_json batch) acc = (acc ++ batch)%list.
Proof.
  revert acc. induction batch as [|s batch IH]; intros acc; cbn [map load_batch].
  - rewrite app_nil_r. reflexivity.
  - rewrite segment_round_trip, IH, <- app_assoc. reflexivity.
Qed.

Lemma read_batches (dir : string) (d : disk) (bs : list (list TranscriptSegment)) :
  forall (k0 : nat) (acc : list TranscriptSegment),
  (forall k batch, bs !! k = Some batch ->
     (d !! batch_name dir (k0 + k)) ≫= json_load = Some (JList (map segment_to_json batch))) ->
  fold_left
    (fun acc name =>
       match d !! name ≫= json_load with
       | Some (JList items) => load_batch items acc
       | _ => acc
       end)
    (map (batch_name dir) (seq k0 (length bs))) acc
  = (acc ++ concat bs)%list.
Proof.
  induction bs as [|batch bs IH]; intros k0 acc H; cbn [length seq map fold_left concat].
  - rewrite app_nil_r. reflexivity.
  - pose proof (H 0%nat batch eq_refl) as H0. rewrite Nat.add_0_r in H0. rewrite H0.
    rewrite load_batch_segments, IH, <- app_assoc; [reflexivity|].
    intros k b Hk. replace (S k0 + k)%nat with (k0 + S k)%nat by lia.
    apply H. exact Hk.
Qed.

(** Writing. *)

Lemma flush_inv (dir : string) (done : list TranscriptSegment) (b : SegmentBatcher)
    (d : disk) :
  batcher_inv dir done b d -> (batch_count (fst (flush b d)) <= 1000)%nat ->
  batcher_inv dir done (fst (flush b d)) (snd (flush b d))
  /\ current_batch (fst (flush b d)) = [].
Proof.
  intros (Hdir & bs & Hlen & Hdone & Hfiles & Hglob). unfold flush, batch_file.
  destruct (current_batch b) as [|s batch] eqn:E; cbn [fst snd batch_count].
  { intros _. split; [|exact E]. split; [exact Hdir|]. exists bs. rewrite E. auto. }
  intros Hc. split; [|reflexivity]. split; [exact Hdir|].
  exists (bs ++ [s :: batch])%list. cbn [batch_count current_batch].
  rewrite Hdir, <- Hlen. fold (batch_name dir (length bs)). unfold write_file.
  split; [rewrite length_app; cbn; lia|].
  split; [rewrite concat_app, app_nil_r; cbn [concat]; rewrite app_nil_r; exact Hdone|].
  split.
  - intros k bt Hk. destruct (decide (k = length bs)) as [->|Hne].
    + rewrite lookup_insert_eq. rewrite list_lookup_middle in Hk by reflexivity.
      injection Hk as <-. cbn. unfold json_load, complete. cbn [payload written].
      rewrite Nat.leb_refl. reflexivity.
    + assert (Hlt : (k < length bs)%nat).
      { apply lookup_lt_Some in Hk. rewrite length_app in Hk. cbn in Hk. lia. }
      rewrite lookup_app_l in Hk by exact Hlt.
      rewrite lookup_insert_ne; [apply Hfiles, Hk|].
      intros Heq. apply (batch_name_fresh dir (length bs)); [lia|].
      rewrite Heq. apply batch_name_elem. exact Hlt.
  - intros n Hn. apply glob_elem in Hn as [Hn Hm].
    destruct (decide (n = batch_name dir (length bs))) as [->|Hne].
    + exists (length bs). rewrite length_app. cbn. split; [lia | reflexivity].
    + rewrite lookup_insert_ne in Hn by congruence.
      destruct (Hglob n) as (k & Hk & ->); [apply glob_elem; auto|].
      exists k. rewrite length_app. cbn. split; [lia | reflexivity].
Qed.

Lemma add_segment_inv (dir : string) (done : list TranscriptSegment)
    (seg : TranscriptSegment) (b : SegmentBatcher) (d : disk) :
  batcher_inv dir done b d -> (batch_count (fst (add_segment seg b d)) <= 1000)%nat ->
  batcher_inv dir (done ++ [seg]) (fst (add_segment seg b d)) (snd (add_segment seg b d)).
Proof.
  intros (Hdir & bs & Hlen & Hdone & Hfiles & Hglob). unfold add_segment.
  cbn [batch_size current_batch].
  assert (Hinv : batcher_inv dir (done ++ [seg])
                   {| storage_dir := storage_dir b; batch_size := batch_size b;
                      current_batch := (current_batch b ++ [seg])%list;
                      batch_count := batch_count b |} d).
  { split; [exact Hdir|]. exists bs. cbn [batch_count current_batch].
    rewrite app_assoc, Hdone. auto. }
  destruct (_ <=? _); [|intros _; exact Hinv].
  intros Hc. apply flush_inv; assumption.
Qed.

Lemma add_segment_count (seg : TranscriptSegment) (b : SegmentBatcher) (d : disk) :
  (batch_count b <= batch_count (fst (add_segment seg b d)))%nat.
Proof.
  unfold add_segment, flush. cbn [batch_size current_batch].
  destruct (_ <=? _); [|cbn; lia].
  destruct (current_batch b ++ [seg])%list; cbn; lia.
Qed.

Lemma add_all_snoc (segs : list TranscriptSegment) (seg : TranscriptSegment)
    (b : SegmentBatcher) (d : disk) :
  add_all (segs ++ [seg]) b d
  = add_segment seg (fst (add_all segs b d)) (snd (add_all segs b d)).
Proof. unfold add_all. rewrite fold_left_app. reflexivity. Qed.

Lemma add_all_inv (dir : string) (segs : list TranscriptSegment) (b : SegmentBatcher)
    (d : disk) :
  batcher_inv dir [] b d -> (batch_count (fst (add_all segs b d)) <= 1000)%nat ->
  batcher_inv dir segs (fst (add_all segs b d)) (snd (add_all segs b d)).
Proof.
  intros H0. induction segs as [|seg segs IH] using rev_ind; [intros _; exact H0|].
  rewrite add_all_snoc. intros Hc. apply add_segment_inv; [|exact Hc].
  apply IH. etrans; [apply (add_segment_count seg _ (snd (add_all segs b d)))|exact Hc].
Qed.

Lemma flush_count (b : SegmentBatcher) (d : disk) :
  (batch_count b <= batch_count (fst (flush b d)))%nat.
Proof. unfold flush. destruct (current_batch b); cbn; lia. Qed.

Lemma new_batcher_inv (dir : string) (size : Z) (d : disk) :
  glob (dir ++ "/batch_") ".json" d = [] -> batcher_inv dir [] (new_batcher dir size) d.
Proof.
  intros Hg. split; [reflexivity|]. exists []. cbn. split; [reflexivity|].
  split; [reflexivity|]. split; [intros k batch Hk; discriminate|].
  intros n Hn. rewrite Hg in Hn. inversion Hn.
Qed.

Lemma read_inv (dir : string) (size : Z) (segs : list TranscriptSegment)
    (b : SegmentBatcher) (d : disk) :
  batcher_inv dir segs b d -> current_batch b = [] -> (batch_count b <= 1000)%nat ->
  get_all_segments (new_batcher dir size) d = segs.
Proof.
  intros (Hdir & bs & Hlen & Hdone & Hfiles & Hglob) Hcur Hc.
  rewrite Hcur, app_nil_r in Hdone. rewrite <- Hlen in Hc.
  unfold get_all_segments. cbn [storage_dir new_batcher].
  assert (Hnames : sorted_names (glob (dir ++ "/batch_") ".json" d)
                   = map (batch_name dir) (seq 0 (length bs))).
  { apply sorted_names_unique; [|apply batch_names_sorted; exact Hc].
    apply NoDup_Permutation; [apply glob_NoDup | apply batch_names_NoDup; exact Hc|].
    intros n. split.
    - intros Hn. destruct (Hglob n Hn) as (k & Hk & ->). apply batch_name_elem. exact Hk.
    - intros Hn. apply list_elem_of_fmap in Hn as (k & -> & Hk). apply elem_of_seq in Hk.
      destruct (lookup_lt_is_Some_2 bs k ltac:(lia)) as [batch Hb].
      apply glob_elem. split; [|apply batch_name_matches; lia].
      specialize (Hfiles k batch Hb). destruct (d !! batch_name dir k); [eauto|discriminate]. }
  rewrite Hnames, (read_batches dir d bs 0 []); [exact Hdone|].
  intros k batch Hk. apply Hfiles. exact Hk.
Qed.

(** The round trip of a [SegmentBatcher]: when the directory holds no
    batch file, the segments handed to [add_segment] one by one and flushed
    at the end are what [get_all_segments] reads back, in the same order,
    whatever the batch size, as long as no more than a thousand batch files
    are written (the number in a file name has three digits, and the files
    are read in the order of their names). *)
Theorem batcher_round_trip (dir : string) (size : Z) (segs : list TranscriptSegment)
    (d : disk) :
  glob (dir ++ "/batch_") ".json" d = [] ->
  (batch_count (fst (write_all segs (new_batcher dir size) d)) <= 1000)%nat ->
  get_all_segments (new_batcher dir size) (snd (write_all segs (new_batcher dir size) d))
  = segs.
Proof.
  intros Hg Hc. unfold write_all in *.
  pose proof (flush_count (fst (add_all segs (new_batcher dir size) d))
                (snd (add_all segs (new_batcher dir size) d))) as Hle.
  pose proof (add_all_inv dir segs (new_batcher dir size) d (new_batcher_inv dir size d Hg)
                ltac:(lia)) as Hinv.
  destruct (flush_inv dir segs _ _ Hinv Hc) as [Hinv' Hcur].
  exact (read_inv dir size segs _ _ Hinv' Hcur Hc).
Qed.

Lemma batcher_round_trip_witness :
  let segs := map (fun i => make_segment 0 i (raw i)) (seq 0 5) in
  get_all_segments (new_batcher "seg" 2) (snd (write_all segs (new_batcher "seg" 2) ∅))
  = segs.
Proof.
  intros segs. apply batcher_round_trip.
  - reflexivity.
  - apply Nat.leb_le. vm_compute. reflexivity.
Defined.

Lemma add_all_fill (dir : string) (size : Z) (segs : list TranscriptSegment) (d : disk) :
  0 < size ->
  let b := fst (add_all segs (new_batcher dir size) d) in
  batch_size b = size
  /\ Z.of_nat (batch_count b) * size + Z.of_nat (length (current_batch b))
     = Z.of_nat (length segs)
  /\ Z.of_nat (length (current_batch b)) < size.
Proof.
  intros Hsize. induction segs as [|seg segs IH] using rev_ind.
  - cbn. lia.
  - rewrite add_all_snoc. cbn zeta in IH |- *. destruct IH as (Hs & Hfill & Hlt).
    set (b := fst (add_all segs (new_batcher dir size) d)) in *.
    unfold add_segment, flush. cbn [batch_size current_batch]. rewrite Hs.
    rewrite !length_app in *. cbn [length] in *.
    destruct (size <=? _) eqn:E.
    + apply Z.leb_le in E.
      destruct (current_batch b ++ [seg])%list eqn:Ec.
      { destruct (current_batch b); discriminate. }
      cbn [fst batch_size batch_count current_batch length]. lia.
    + apply Z.leb_gt in E.
      cbn [fst batch_size batch_count current_batch]. rewrite length_app. cbn [length]. lia.
Qed.

(** A batcher with a batch size of one or more writes a file each time
    [batch_size] segments have come in and keeps the rest in memory: after
    [n] segments it has written [n // batch_size] files, each of them full,
    and holds the [n % batch_size] segments that only [flush] will write. *)
Theorem add_segment_fills_batches (dir : string) (size : Z) (segs : list TranscriptSegment)
    (d : disk) :
  0 < size ->
  let b := fst (add_all segs (new_batcher dir size) d) in
  Z.of_nat (batch_count b) = Z.of_nat (length segs) / size
  /\ Z.of_nat (length (current_batch b)) = Z.of_nat (length segs) mod size.
Proof.
  intros Hsize b. destruct (add_all_fill dir size segs d Hsize) as (_ & Hfill & Hlt).
  fold b in Hfill, Hlt. split.
  - apply (Z.div_unique _ _ _ (Z.of_nat (length (current_batch b)))); lia.
  - apply (Z.mod_unique _ _ (Z.of_nat (batch_count b))); lia.
Qed.

Lemma add_segment_fills_batches_witness :
  let b := fst (add_all (map (fun i => make_segment 0 i (raw i)) (seq 0 250))
                  (new_batcher "seg" 100) ∅) in
  Z.of_nat (batch_count b) = 2 /\ Z.of_nat (length (current_batch b)) = 50.
Proof.
  intros b.
  destruct (add_segment_fills_batches "seg" 100
              (map (fun i => make_segment 0 i (raw i)) (seq 0 250)) ∅ ltac:(lia))
    as [H1 H2].
  fold b in H1, H2. rewrite H1, H2, length_map, length_seq. split; reflexivity.
Defined.

End Batcher.

Section Kaggle_round_trip.
Import Json FS Spec Kaggle Scenario.

(** The digits of a number hold no path separator. *)

Lemma contains_slash_cons (c : ascii) (s : string) :
  c <> "/"%char -> PyStr.contains "/" (String c s) = PyStr.contains "/" s.
Proof.
  intros Hc. cbn [PyStr.contains String.prefix].
  destruct (ascii_dec "/" c) as [E|_]; [congruence | reflexivity].
Qed.

Lemma contains_slash_app (a b : string) :
  PyStr.contains "/" a = false -> PyStr.contains "/" b = false ->
  PyStr.contains "/" (a ++ b) = false.
Proof.
  induction a as [|c a IH]; intros Ha Hb; [exact Hb|].
  rewrite append_cons. destruct (ascii_dec c "/") as [->|Hc].
  - cbn [PyStr.contains String.prefix] in Ha.
    destruct (ascii_dec "/" "/") as [_|N]; [|congruence].
    destruct a; cbn [String.prefix orb] in Ha; discriminate Ha.
  - rewrite contains_slash_cons in Ha |- * by exact Hc. apply IH; assumption.
Qed.

Lemma digit_no_slash (d : Z) : 0 <= d < 10 -> PyStr.digit d <> "/"%char.
Proof.
  intros Hd.
  assert (H : d = 0 \/ d = 1 \/ d = 2 \/ d = 3 \/ d = 4 \/ d = 5 \/ d = 6 \/ d = 7
              \/ d = 8 \/ d = 9) by lia.
  repeat (destruct H as [->|H]; [discriminate|]). subst d. discriminate.
Qed.

Lemma digits_go_no_slash (fuel : nat) : forall (n : Z) (acc : string),
  PyStr.contains "/" acc = false -> PyStr.contains "/" (PyStr.digits_go fuel n acc) = false.
Proof.
  induction fuel as [|fuel IH]; intros n acc Hacc; cbn [PyStr.digits_go]; [exact Hacc|].
  assert (H : PyStr.contains "/" (String (PyStr.digit (n mod 10)) acc) = false).
  { rewrite contains_slash_cons; [exact Hacc|].
    apply digit_no_slash. apply Z.mod_pos_bound. lia. }
  destruct (n <? 10); [exact H | apply IH, H].
Qed.

Lemma zeros_no_slash (k : nat) : PyStr.contains "/" (PyStr.zeros k) = false.
Proof.
  induction k as [|k IH]; [reflexivity|]. cbn [PyStr.zeros].
  rewrite contains_slash_cons; [exact IH | discriminate].
Qed.

Lemma of_int_pad_no_slash (w n : nat) :
  PyStr.contains "/" (PyStr.of_int_pad w (Z.of_nat n)) = false.
Proof.
  unfold PyStr.of_int_pad, PyStr.of_int.
  replace (Z.of_nat n <? 0) with false by (symmetry; apply Z.ltb_ge; lia).
  apply contains_slash_app; [apply zeros_no_slash|].
  apply digits_go_no_slash. reflexivity.
Qed.

Lemma checkpoint_file_matches (m : CheckpointManager) (n : nat) :
  matches (checkpoint_prefix m) ".json" (checkpoint_file m n) = true.
Proof.
  unfold checkpoint_file. rewrite matches_name, of_int_pad_no_slash. reflexivity.
Qed.

Lemma final_file_ne (m : CheckpointManager) (n : nat) : final_file m <> checkpoint_file m n.
Proof.
  unfold final_file, checkpoint_file, checkpoint_prefix. rewrite !append_assoc.
  intros E. apply String.app_inj in E. apply String.app_inj in E. apply String.app_inj in E.
  revert E. generalize (PyStr.of_int_pad 4 (Z.of_nat n) ++ ".json"). intros x E.
  rewrite !append_cons in E. discriminate E.
Qed.

Lemma latest_max (d : disk) (names : list string) (n : string) :
  n ∈ names ->
  (forall n', n' ∈ names -> n' <> n -> (mtime_of d n' < mtime_of d n)%nat) ->
  latest d names = Some n.
Proof.
  induction names as [|x names IH]; intros Hin Hmax; [inversion Hin|].
  cbn [latest]. destruct (decide (x = n)) as [->|Hx].
  - destruct (latest d names) as [n'|] eqn:E; [|reflexivity].
    destruct (decide (n' = n)) as [->|Hn]; [destruct (_ <? _)%nat; reflexivity|].
    assert (H : (mtime_of d n' < mtime_of d n)%nat).
    { apply Hmax; [|exact Hn]. apply elem_of_cons. right. eapply latest_elem. exact E. }
    replace (mtime_of d n <? mtime_of d n')%nat with false
      by (symmetry; apply Nat.ltb_ge; lia).
    reflexivity.
  - apply elem_of_cons in Hin as [->|Hin]; [contradiction|].
    rewrite IH; [|exact Hin|].
    + replace (mtime_of d x <? mtime_of d n)%nat with true; [reflexivity|].
      symmetry. apply Nat.ltb_lt. apply Hmax; [apply elem_of_cons; left; reflexivity|exact Hx].
    + intros n' Hn' Hne. apply Hmax; [apply elem_of_cons; right; exact Hn' | exact Hne].
Qed.

Lemma get_set_eq (k : string) (v : json) (d : list (string * json)) :
  get k (set k v d) = Some v.
Proof.
  induction d as [|[k' v'] d IH]; cbn [set get].
  - rewrite String.eqb_refl. reflexivity.
  - destruct (String.eqb k k') eqn:E; cbn [get].
    + rewrite String.eqb_refl. reflexivity.
    + rewrite E. exact IH.
Qed.

Lemma get_set_ne (k k' : string) (v : json) (d : list (string * json)) :
  k <> k' -> get k (set k' v d) = get k d.
Proof.
  intros Hne. assert (Hkk : String.eqb k k' = false) by (apply String.eqb_neq; exact Hne).
  induction d as [|[k0 v0] d IH]; cbn [set get].
  - rewrite Hkk. reflexivity.
  - destruct (String.eqb k' k0) eqn:E; cbn [get].
    + apply String.eqb_eq in E. subst k0. rewrite Hkk. reflexivity.
    + destruct (String.eqb k k0); [reflexivity | exact IH].
Qed.

Lemma merged_progress (metadata : list (string * json)) (a b c e f : json) :
  get "progress_percentage"
    (merged metadata [ ("total_segments", a); ("last_segment_time", b);
                       ("progress_percentage", c); ("status", e);
                       ("checkpoint_file", f) ])
  = Some c.
Proof.
  unfold merged. cbn [fold_left fst snd].
  rewrite (get_set_ne "progress_percentage" "checkpoint_file") by discriminate.
  rewrite (get_set_ne "progress_percentage" "status") by discriminate.
  apply get_set_eq.
Qed.

(** What [save_checkpoint] has written is what [load_checkpoint] reads.
    For a video name without pattern characters, when there is no final
    transcript and the checkpoint files already there are older, a save
    that returns a path leaves a disk on which [load_checkpoint] gives back
    the very list of segments that was saved, and [get_resume_point] its
    length and the end of its last segment, if that end is a number: what
    is not a number cannot be logged with one decimal, and the exception
    goes on to the caller. *)
Theorem save_then_load (m : CheckpointManager) (segments : list json)
    (metadata : list (string * json)) (force : bool) (stamp : string) (now : nat)
    (d d' : disk) (path : string) :
  plain_name (video_name m) = true ->
  d !! final_file m = None ->
  (forall name, name ∈ checkpoints m d -> (mtime_of d name < now)%nat) ->
  save_checkpoint m segments metadata force stamp now d = (Ok (Some path), d') ->
  exists md t,
    load_checkpoint m d' = Ok (JList segments, JDict md)
    /\ match last segments with
       | None => t = JFloat 0
       | Some s => exists seg, s = JDict seg /\ get "end" seg = Some t
       end
    /\ get_resume_point m d'
       = match format_1f t with
         | Ok _ => Ok (length segments, t)
         | Raise e => Raise e
         end.
Proof.
  intros _ Hfinal Hold Hsave. unfold save_checkpoint in Hsave.
  destruct (due m (length segments) force) as [[|]|]; try discriminate.
  destruct (checkpoint_data m segments metadata stamp) as [data|] eqn:Hdata; [|discriminate].
  injection Hsave as <- <-.
  set (path := checkpoint_file m (length segments)).
  assert (Hshape : exists md t, data = JDict [ ("video_name", JStr (video_name m));
                                              ("timestamp", JStr stamp);
                                              ("metadata", JDict md);
                                              ("segments", JList segments) ]
             /\ (exists pp, get "progress_percentage" md = Some (JFloat pp))
             /\ match last segments with
                | None => t = JInt 0
                | Some s => exists seg, s = JDict seg /\ get "end" seg = Some t
                end).
  { unfold checkpoint_data in Hdata.
    destruct (last segments) as [s|].
    - destruct s as [| | | | | |seg]; try discriminate Hdata.
      destruct (get "end" seg) as [e|] eqn:Hend; [|discriminate Hdata].
      destruct (get "estimated_total" metadata) as [[| | | | | |]|];
        try discriminate Hdata; destruct (Qeq_bool _ 0); try discriminate Hdata;
        injection Hdata as <-; eexists _, e; (split; [reflexivity|]);
        (split; [eexists; apply merged_progress | eauto]).
    - destruct (get "estimated_total" metadata) as [[| | | | | |]|];
        try discriminate Hdata; destruct (Qeq_bool _ 0); try discriminate Hdata;
        injection Hdata as <-; eexists _, _; (split; [reflexivity|]);
        (split; [eexists; apply merged_progress | reflexivity]). }
  destruct Hshape as (md & t & -> & [pp Hpp] & Ht).
  set (data := JDict _) in *.
  set (d' := write_file path data now d).
  assert (Hfile : d' !! path = Some {| payload := data; written := chunks data; mtime := now |}).
  { unfold d', write_file. apply lookup_insert_eq. }
  assert (Hlatest : latest d' (checkpoints m d') = Some path).
  { apply latest_max.
    - apply glob_elem. split; [rewrite Hfile; eauto | apply checkpoint_file_matches].
    - intros n' Hn' Hne. unfold mtime_of at 2. rewrite Hfile. cbn [mtime].
      assert (Hsame : d' !! n' = d !! n').
      { unfold d', write_file. apply lookup_insert_ne. congruence. }
      unfold mtime_of at 1. rewrite Hsame. apply (Hold n').
      apply glob_elem in Hn' as [Hs Hm]. apply glob_elem. rewrite <- Hsame. auto. }
  assert (Hload : load_checkpoint m d' = Ok (JList segments, JDict md)).
  { unfold load_checkpoint.
    assert (Hf : d' !! final_file m = None).
    { unfold d', write_file. rewrite lookup_insert_ne; [exact Hfinal|].
      intros E. symmetry in E. exact (final_file_ne m _ E). }
    rewrite Hf, Hlatest. unfold read_json. rewrite Hfile.
    unfold json_load, complete. cbn [payload written]. rewrite Nat.leb_refl.
    unfold data. cbv beta iota zeta.
    match goal with
    | |- context [get "segments" ?l] =>
        change (get "segments" l) with (Some (JList segments));
        change (get "metadata" l) with (Some (JDict md))
    end.
    cbn. rewrite Hpp. reflexivity. }
  destruct (last segments) as [s|] eqn:Hlast.
  - destruct Ht as (seg & -> & Hend). exists md, t. split; [exact Hload|].
    split; [eauto|]. unfold get_resume_point. rewrite Hload, Hlast, Hend.
    destruct (format_1f t) as [[]|]; reflexivity.
  - exists md, (JFloat 0). split; [exact Hload|]. split; [reflexivity|].
    unfold get_resume_point. rewrite Hload, Hlast.
    apply last_None in Hlast. subst segments. reflexivity.
Qed.

Lemma save_then_load_witness :
  exists md,
    load_checkpoint kaggle_manager kaggle_second
    = Ok (JList [kaggle_segment 0; kaggle_segment 1], JDict md)
    /\ get_resume_point kaggle_manager kaggle_second = Ok (2%nat, JFloat (inject_Z 2)).
Proof.
  destruct (save_then_load kaggle_manager [kaggle_segment 0; kaggle_segment 1]
              kaggle_metadata false "2025-01-01T00:00:10" 2 kaggle_first kaggle_second
              (checkpoint_file kaggle_manager 2))
    as (md & t & Hload & (seg & Hseg & Hend) & Hresume).
  - reflexivity.
  - reflexivity.
  - intros name Hname. vm_compute in Hname.
    apply list_elem_of_singleton in Hname. subst name. vm_compute. lia.
  - reflexivity.
  - exists md. split; [exact Hload|]. rewrite Hresume.
    injection Hseg as <-. injection Hend as <-. reflexivity.
Defined.

End Kaggle_round_trip.

Section Resume.
Import Json FS Spec Whisper Scenario.

(** Names. *)

Lemma segments_name_ne (m : CheckpointManager) (s : string) :
  segments_dir m ++ s <> checkpoint_file m /\ segments_dir m ++ s <> temp_file m.
Proof.
  unfold segments_dir, checkpoint_file, temp_file. rewrite append_assoc.
  split; intros E; apply append_inj_l in E; rewrite !append_cons in E; discriminate E.
Qed.

Lemma batch_name_ne (m : CheckpointManager) (k : nat) :
  batch_name (segments_dir m) k <> checkpoint_file m
  /\ batch_name (segments_dir m) k <> temp_file m.
Proof. apply segments_name_ne. Qed.

Lemma batch_pattern_ne (m : CheckpointManager) (n : string) :
  matches (segments_dir m ++ "/batch_") ".json" n = true ->
  n <> checkpoint_file m /\ n <> temp_file m.
Proof.
  unfold matches. intros H. apply andb_true_iff in H as [H _].
  apply andb_true_iff in H as [H _]. apply andb_true_iff in H as [H _].
  apply prefix_inv in H as [s ->]. rewrite append_assoc. apply segments_name_ne.
Qed.

(** The checkpoint file and the batch files do not meet. *)

Lemma save_lookup_ne (m : CheckpointManager) (c : CheckpointData) (d : disk) (p : string) :
  p <> checkpoint_file m -> p <> temp_file m -> save_checkpoint m c d !! p = d !! p.
Proof.
  intros H1 H2. unfold save_checkpoint, replace, write_file. rewrite lookup_insert_eq.
  rewrite lookup_insert_ne by congruence. rewrite lookup_delete_ne by congruence.
  apply lookup_insert_ne. congruence.
Qed.

Lemma save_load (m : CheckpointManager) (c : CheckpointData) (d : disk) :
  load_checkpoint m (save_checkpoint m c d) = Some c.
Proof.
  unfold load_checkpoint, save_checkpoint, replace, write_file.
  rewrite lookup_insert_eq, lookup_insert_eq. unfold json_load, complete.
  cbn [payload written]. rewrite Nat.leb_refl. cbn. apply from_dict_asdict.
Qed.

Lemma batcher_inv_save (m : CheckpointManager) (done : list TranscriptSegment)
    (b : SegmentBatcher) (d : disk) (c : CheckpointData) :
  batcher_inv (segments_dir m) done b d ->
  batcher_inv (segments_dir m) done b (save_checkpoint m c d).
Proof.
  intros (Hdir & bs & Hlen & Hdone & Hfiles & Hglob). split; [exact Hdir|].
  exists bs. split; [exact Hlen|]. split; [exact Hdone|]. split.
  - intros k batch Hk. destruct (batch_name_ne m k) as [N1 N2].
    rewrite save_lookup_ne by assumption. apply Hfiles, Hk.
  - intros n Hn. apply Hglob. apply glob_elem in Hn as [Hs Hm]. apply glob_elem.
    destruct (batch_pattern_ne m n Hm) as [N1 N2].
    rewrite save_lookup_ne in Hs by assumption. auto.
Qed.

Lemma add_segment_lookup_ne (seg : TranscriptSegment) (b : SegmentBatcher) (d : disk)
    (p : string) :
  p <> batch_file b -> snd (add_segment seg b d) !! p = d !! p.
Proof.
  intros Hp. unfold add_segment, flush. cbn [batch_size current_batch].
  destruct (_ <=? _); [|reflexivity].
  destruct (current_batch b ++ [seg])%list; [reflexivity|]. cbn [snd].
  unfold write_file. apply lookup_insert_ne. exact (not_eq_sym Hp).
Qed.

Lemma add_segment_fill (size : Z) (j : Z) (seg : TranscriptSegment) (b : SegmentBatcher)
    (d : disk) :
  0 < size -> batch_size b = size ->
  Z.of_nat (batch_count b) * size + Z.of_nat (length (current_batch b)) = j ->
  Z.of_nat (length (current_batch b)) < size ->
  let b' := fst (add_segment seg b d) in
  batch_size b' = size
  /\ Z.of_nat (batch_count b') * size + Z.of_nat (length (current_batch b')) = j + 1
  /\ Z.of_nat (length (current_batch b')) < size.
Proof.
  intros Hsize Hs Hfill Hlt. unfold add_segment, flush. cbn [batch_size current_batch].
  rewrite Hs. rewrite !length_app. cbn [length].
  destruct (size <=? _) eqn:E.
  - apply Z.leb_le in E. destruct (current_batch b ++ [seg])%list eqn:Ec.
    { destruct (current_batch b); discriminate. }
    cbn [fst batch_size batch_count current_batch length]. lia.
  - apply Z.leb_gt in E.
    cbn [fst batch_size batch_count current_batch]. rewrite length_app. cbn [length]. lia.
Qed.

Lemma read_files (dir : string) (size : Z) (done : list TranscriptSegment)
    (b : SegmentBatcher) (d : disk) :
  batcher_inv dir done b d -> (batch_count b <= 1000)%nat ->
  (get_all_segments (new_batcher dir size) d ++ current_batch b)%list = done.
Proof.
  intros (Hdir & bs & Hlen & Hdone & Hfiles & Hglob) Hc. rewrite <- Hlen in Hc.
  unfold get_all_segments. cbn [storage_dir new_batcher].
  assert (Hnames : sorted_names (glob (dir ++ "/batch_") ".json" d)
                   = map (batch_name dir) (seq 0 (length bs))).
  { apply sorted_names_unique; [|apply batch_names_sorted; exact Hc].
    apply NoDup_Permutation; [apply glob_NoDup | apply batch_names_NoDup; exact Hc|].
    intros n. split.
    - intros Hn. destruct (Hglob n Hn) as (k & Hk & ->). apply batch_name_elem. exact Hk.
    - intros Hn. apply list_elem_of_fmap in Hn as (k & -> & Hk). apply elem_of_seq in Hk.
      destruct (lookup_lt_is_Some_2 bs k ltac:(lia)) as [batch Hb].
      apply glob_elem. split; [|apply batch_name_matches; lia].
      specialize (Hfiles k batch Hb). destruct (d !! batch_name dir k); [eauto|discriminate]. }
  rewrite Hnames, (read_batches dir d bs 0 []); [exact Hdone|].
  intros k batch Hk. apply Hfiles. exact Hk.
Qed.

(** One round of a fresh run. *)

Lemma checkpointed_step (m : CheckpointManager) (ci : Z) (j : nat) (d d' : disk) :
  0 < ci -> (Z.of_nat j + 1) mod ci <> 0 ->
  d' !! checkpoint_file m = d !! checkpoint_file m ->
  checkpointed m ci j d -> checkpointed m ci (S j) d'.
Proof.
  intros Hci Hmod Hsame H. unfold checkpointed in *.
  assert (Hload : load_checkpoint m d' = load_checkpoint m d).
  { unfold load_checkpoint. rewrite Hsame. reflexivity. }
  rewrite Nat2Z.inj_succ. unfold Z.succ.
  destruct (Z.of_nat j + 1 <? ci) eqn:E1.
  - apply Z.ltb_lt in E1. replace (Z.of_nat j <? ci) with true in H
      by (symmetry; apply Z.ltb_lt; lia).
    rewrite Hsame. exact H.
  - apply Z.ltb_ge in E1.
    assert (Hne : Z.of_nat j + 1 <> ci).
    { intros E. apply Hmod. rewrite E. apply Z_mod_same_full. }
    replace (Z.of_nat j <? ci) with false in H by (symmetry; apply Z.ltb_ge; lia).
    destruct H as (c & Hc & Hid). exists c. rewrite Hload. split; [exact Hc|].
    rewrite Hid. f_equal. f_equal.
    pose proof (Z.div_mod (Z.of_nat j) ci ltac:(lia)) as Hdm.
    pose proof (Z.mod_pos_bound (Z.of_nat j) ci Hci) as Hb.
    assert (Hr : Z.of_nat j mod ci + 1 < ci).
    { destruct (Z.eq_dec (Z.of_nat j mod ci + 1) ci) as [E|]; [|lia].
      exfalso. apply Hmod.
      replace (Z.of_nat j + 1) with (Z.of_nat j mod ci + 1 + Z.of_nat j / ci * ci) by lia.
      rewrite Z_mod_plus_full, E. apply Z_mod_same_full. }
    apply (Z.div_unique_pos _ _ _ (Z.of_nat j mod ci + 1)); lia.
Qed.

Lemma checkpointed_save (m : CheckpointManager) (ci : Z) (j : nat) (d : disk)
    (c : CheckpointData) :
  0 < ci -> (Z.of_nat j + 1) mod ci = 0 -> last_segment_id c = Z.of_nat j ->
  checkpointed m ci (S j) (save_checkpoint m c d).
Proof.
  intros Hci Hmod Hid. unfold checkpointed. rewrite Nat2Z.inj_succ. unfold Z.succ.
  pose proof (Z.div_mod (Z.of_nat j + 1) ci ltac:(lia)) as Hdm. rewrite Hmod in Hdm.
  assert (Hq : 0 < (Z.of_nat j + 1) / ci) by nia.
  replace (Z.of_nat j + 1 <? ci) with false by (symmetry; apply Z.ltb_ge; nia).
  exists c. split; [apply save_load|]. lia.
Qed.

Lemma loop_body_fresh (m : CheckpointManager) (env : Env) (offset : Q)
    (raw : list RawSegment) (ci : Z) (j : nat) (seg : RawSegment) (st : LoopState) :
  0 < ci -> raw !! j = Some seg -> Z.of_nat j < 100000 ->
  fresh_inv m offset raw ci j st ->
  exists st', loop_body (Some m) env offset 0 raw j seg st = Running st'
              /\ fresh_inv m offset raw ci (S j) st'.
Proof.
  intros Hci Hseg Hj (Hsegs & Htr & Hint & Hck & b & Hb & Hsize & Hinv & Hfill & Hlt).
  unfold loop_body. replace (Z.of_nat j <? 0) with false by (symmetry; apply Z.ltb_ge; lia).
  rewrite Hb. set (segment := make_segment offset j seg).
  assert (Htake : take (S j) (imap (make_segment offset) raw)
                  = (ls_segments st ++ [segment])%list).
  { rewrite Hsegs. apply take_S_r. rewrite list_lookup_imap, Hseg. reflexivity. }
  destruct (add_segment_fill 100 (Z.of_nat j) segment b (ls_disk st) ltac:(lia)
              Hsize Hfill Hlt) as (Hsize' & Hfill' & Hlt').
  assert (Hinv' : batcher_inv (segments_dir m) (ls_segments st ++ [segment])
                    (fst (add_segment segment b (ls_disk st)))
                    (snd (add_segment segment b (ls_disk st)))).
  { apply add_segment_inv; [exact Hinv | lia]. }
  assert (Hsame : snd (add_segment segment b (ls_disk st)) !! checkpoint_file m
                  = ls_disk st !! checkpoint_file m).
  { apply add_segment_lookup_ne. unfold batch_file. destruct Hinv as [-> _].
    apply not_eq_sym. exact (proj1 (batch_name_ne m (batch_count b))). }
  destruct (add_segment segment b (ls_disk st)) as [b' d'].
  cbn [fst snd] in Hsize', Hfill', Hlt', Hinv', Hsame.
  assert (Hup : exists tr,
             match j with
             | O => Some (ls_tracker st)
             | S i => update (time_at env (2 + j))
                        (rs_end seg - match raw !! i with Some p => rs_end p | None => 0%Q end)%Q
                        (ls_tracker st)
             end = Some tr /\ tracker_ok tr).
  { destruct j; [eauto|]. apply update_ok. exact Htr. }
  destruct Hup as (tr & -> & Htr').
  rewrite Hint. replace (ci =? 0) with false by (symmetry; apply Z.eqb_neq; lia).
  destruct ((Z.of_nat j + 1) mod ci =? 0) eqn:Emod.
  - apply Z.eqb_eq in Emod. eexists. split; [reflexivity|].
    split; [symmetry; exact Htake|]. split; [exact Htr'|]. split; [exact Hint|]. split.
    + cbn [ls_disk]. apply checkpointed_save; [exact Hci | exact Emod | reflexivity].
    + exists b'. cbn [ls_batcher ls_disk ls_segments]. split; [reflexivity|].
      split; [exact Hsize'|]. split; [apply batcher_inv_save; exact Hinv'|]. lia.
  - apply Z.eqb_neq in Emod. eexists. split; [reflexivity|].
    split; [symmetry; exact Htake|]. split; [exact Htr'|]. split; [exact Hint|]. split.
    + cbn [ls_disk]. eapply checkpointed_step; eassumption.
    + exists b'. cbn [ls_batcher ls_disk ls_segments]. split; [reflexivity|].
      split; [exact Hsize'|]. split; [exact Hinv'|]. lia.
Qed.

Lemma run_loop_fresh (m : CheckpointManager) (env : Env) (offset : Q)
    (raw : list RawSegment) (ci : Z) (todo : list RawSegment) :
  forall (j : nat) (st : LoopState),
  0 < ci -> (forall i seg, todo !! i = Some seg -> raw !! (j + i)%nat = Some seg) ->
  Z.of_nat (j + length todo) <= 100000 ->
  fresh_inv m offset raw ci j st ->
  exists st', run_loop (Some m) env offset 0 raw j todo st = Running st'
              /\ fresh_inv m offset raw ci (j + length todo) st'.
Proof.
  induction todo as [|seg todo IH]; intros j st Hci Hraw Hlen Hinv.
  - exists st. rewrite Nat.add_0_r. auto.
  - cbn [run_loop length] in *.
    pose proof (Hraw 0%nat seg eq_refl) as Hseg. rewrite Nat.add_0_r in Hseg.
    destruct (loop_body_fresh m env offset raw ci j seg st Hci Hseg ltac:(lia) Hinv)
      as (st1 & -> & Hinv1).
    destruct (IH (S j) st1 Hci) as (st2 & Hrun & Hinv2); [|lia|exact Hinv1|].
    + intros i s Hi. replace (S j + i)%nat with (j + S i)%nat by lia. apply Hraw, Hi.
    + exists st2. split; [exact Hrun|].
      replace (j + S (length todo))%nat with (S j + length todo)%nat by lia. exact Hinv2.
Qed.

(** What a resumed run returns.  A run that started afresh (no checkpoint
    and no batch file on disk) and was killed after [k] rounds has left on
    disk the checkpoint of its last save and the batch files of its full
    batches of 100 segments.  When the job is run again with resume
    confirmed, its transcript is made of the segments of those batch files,
    followed by the segments from the one named in the checkpoint on: the
    first [100 * (k // 100)] segments, then those from index
    [ci * (k // ci) - 1] on, [ci] being the checkpoint interval.  A run
    killed before its first save is simply run again in full. *)
Theorem resume_after_kill (self : WhisperTranscriber) (base name hash : string)
    (offset : Q) (env env' : Env) (result : WhisperResult) (d0 : disk) (k : nat) :
  let raw := wr_segments result in
  let all := imap (make_segment offset) raw in
  let ci := checkpoint_interval self in
  let m := {| checkpoint_dir := base ++ "/" ++ hash |} in
  let total := match last raw with Some s => rs_end s | None => 0%Q end in
  ckpt_base self = Some base -> 0 < ci ->
  (show_bar env = true \/ ~ (total == 0)%Q) ->
  (show_bar env' = true \/ ~ (total == 0)%Q) ->
  ~ (time_at env' (2 + length raw) - time_at env' 0 == 0)%Q ->
  confirms (answer env') = true ->
  (k <= length raw)%nat -> Z.of_nat (length raw) <= 100000 ->
  glob (segments_dir m ++ "/batch_") ".json" d0 = [] ->
  d0 !! checkpoint_file m = None ->
  exists tr self' d',
    transcribe_file self name hash offset true env' result
      (killed_after k self name hash offset false env result d0)
    = (Some tr, self', d')
    /\ segments tr
       = if Z.of_nat k <? ci then all
         else (take (Z.to_nat (100 * (Z.of_nat k / 100))) all
               ++ drop (Z.to_nat (ci * (Z.of_nat k / ci) - 1)) all)%list.
Proof.
  intros raw all ci m total Hbase Hci Hbar Hbar' Htime Hyes Hk Hmax Hglob Hnone.
  set (dk := killed_after k self name hash offset false env result d0).
  assert (Hprep : prepare self hash false env d0
                  = {| p_manager := Some m;
                       p_batcher := Some (new_batcher (segments_dir m) 100);
                       p_resumed := []; p_resume_from := 0; p_disk := d0 |}).
  { unfold prepare. rewrite Hbase. reflexivity. }
  assert (Hkilled : exists st, dk = ls_disk st /\ fresh_inv m offset raw ci k st).
  { unfold dk, killed_after. rewrite Hprep. cbn [p_manager p_resume_from]. fold raw.
    set (st0 := initial_state self name hash offset env result _).
    assert (H0 : fresh_inv m offset raw ci 0 st0).
    { split; [reflexivity|]. split.
      { unfold tracker_ok. cbn. fold raw. destruct Hbar as [Hb|Hb]; [left; exact Hb|right].
        destruct (Qeq_bool _ 0) eqn:E; [|reflexivity].
        apply Qeq_bool_iff in E. contradiction. }
      split; [reflexivity|]. split.
      { unfold checkpointed. replace (Z.of_nat 0 <? ci) with true
          by (symmetry; apply Z.ltb_lt; lia).
        exact Hnone. }
      exists (new_batcher (segments_dir m) 100). cbn [ls_batcher st0 initial_state p_batcher].
      split; [reflexivity|]. split; [reflexivity|].
      split; [apply new_batcher_inv; exact Hglob|]. cbn. lia. }
    destruct (run_loop_fresh m env offset raw ci (firstn k raw) 0 st0 Hci) as (st & Hrun & Hinv).
    - intros i seg Hi. cbn. apply lookup_take_Some in Hi. tauto.
    - rewrite length_take. lia.
    - exact H0.
    - rewrite Hrun. exists st. split; [reflexivity|].
      rewrite length_take in Hinv. replace (0 + k `min` length raw)%nat with k in Hinv by lia.
      exact Hinv. }
  destruct Hkilled as (st & Hdk & Hsegs & _ & _ & Hck & b & _ & _ & Hinv & Hfill & Hlt).
  assert (Hne : checkpoint_interval self <> 0) by (fold ci; lia).
  destruct (transcribe_file_spec self name hash offset true env' result dk Hbar'
              (or_intror Hne) Htime) as (tr & self' & d' & Hrun & Hres).
  exists tr, self', d'. split; [exact Hrun|]. rewrite Hres. fold raw. fold all.
  unfold prepare. rewrite Hbase. fold m. unfold checkpointed in Hck. rewrite <- Hdk in Hck.
  destruct (Z.of_nat k <? ci) eqn:E.
  - unfold has_checkpoint. rewrite Hck.
    replace (bool_decide (is_Some None)) with false
      by (symmetry; apply bool_decide_eq_false; intros [? ?]; discriminate).
    cbn. reflexivity.
  - destruct Hck as (c & Hload & Hid).
    assert (Hhas : has_checkpoint m dk = true).
    { unfold has_checkpoint. apply bool_decide_eq_true. unfold load_checkpoint in Hload.
      destruct (dk !! checkpoint_file m); [eauto | discriminate]. }
    rewrite Hhas, Hload, Hyes. cbn [andb p_resumed p_resume_from]. rewrite Hid. f_equal.
    pose proof (read_files (segments_dir m) 100 _ b dk ltac:(rewrite Hdk; exact Hinv)
                  ltac:(lia)) as Hread.
    rewrite Hsegs in Hread. fold all in Hread.
    assert (Hlen : length (get_all_segments (new_batcher (segments_dir m) 100) dk)
                   = Z.to_nat (100 * (Z.of_nat k / 100))).
    { apply (f_equal (@length _)) in Hread. rewrite length_app, length_take in Hread.
      unfold all in Hread. rewrite length_imap in Hread. fold raw in Hread.
      assert (Hq : Z.of_nat k / 100 = Z.of_nat (batch_count b)).
      { symmetry. apply (Z.div_unique_pos _ _ _ (Z.of_nat (length (current_batch b)))); lia. }
      rewrite Hq. lia. }
    rewrite <- Hlen.
    rewrite <- (take_app_length (get_all_segments _ dk) (current_batch b)) at 1.
    rewrite Hread. rewrite take_take. f_equal.
    apply (f_equal (@length _)) in Hread. rewrite length_app, length_take in Hread. lia.
Qed.

Lemma resume_after_kill_witness :
  exists tr self' d',
    resumed 25 15 = (Some tr, self', d')
    /\ segments tr = drop 9 (imap (make_segment 0) (wr_segments (audio 25))).
Proof.
  destruct (resume_after_kill transcriber ".checkpoints" "video.mp4" "abcd1234" 0 env env
              (audio 25) ∅ 15) as (tr & self' & d' & Hrun & Hsegs).
  - reflexivity.
  - reflexivity.
  - left. reflexivity.
  - left. reflexivity.
  - vm_compute. discriminate.
  - reflexivity.
  - vm_compute. lia.
  - vm_compute. discriminate.
  - reflexivity.
  - reflexivity.
  - exists tr, self', d'. split; [exact Hrun | exact Hsegs].
Defined.

End Resume.

Section Zero_interval.
Import Json FS Spec Whisper Scenario.

Lemma run_loop_zero_interval (m : CheckpointManager) (env : Env) (offset : Q) (r : Z)
    (raw todo : list RawSegment) :
  forall (i : nat) (st : LoopState),
  checkpoint_interval (ls_self st) = 0 ->
  (Z.to_nat r - i < length todo)%nat ->
  exists st', run_loop (Some m) env offset r raw i todo st = Raised st'.
Proof.
  induction todo as [|seg todo IH]; intros i st Hzero Hlen; cbn [length] in Hlen; [lia|].
  cbn [run_loop]. unfold loop_body. destruct (Z.of_nat i <? r) eqn:Hr.
  - apply Z.ltb_lt in Hr. apply IH; [exact Hzero | lia].
  - destruct (match ls_batcher st with Some b => _ | None => _ end) as [sb d1].
    destruct (match i with O => _ | S j => _ end) as [tr|]; [|eauto].
    rewrite Hzero. cbn [Z.eqb]. eauto.
Qed.

(** A checkpoint interval of zero makes every checkpointed run fail: with a
    checkpoint directory and an interval of 0, a run that has at least one
    segment to process raises (the interval is the divisor of the test that
    decides whether to save) and returns no transcript. *)
Theorem zero_interval_raises (self : WhisperTranscriber) (base name hash : string)
    (offset : Q) (resume : bool) (env : Env) (result : WhisperResult) (d : disk) :
  let p := prepare self hash resume env d in
  ckpt_base self = Some base ->
  checkpoint_interval self = 0 ->
  (Z.to_nat (p_resume_from p) < length (wr_segments result))%nat ->
  fst (fst (transcribe_file self name hash offset resume env result d)) = None.
Proof.
  intros p Hbase Hzero Hlen. unfold transcribe_file. fold p.
  destruct (prepare_files self hash resume env d) as (_ & _ & Hm). fold p in Hm.
  rewrite Hbase in Hm. cbn [option_map] in Hm. rewrite Hm.
  destruct (run_loop_zero_interval {| checkpoint_dir := base ++ "/" ++ hash |} env offset
              (p_resume_from p) (wr_segments result) (wr_segments result) 0
              (initial_state self name hash offset env result p) Hzero ltac:(lia))
    as [st' ->].
  reflexivity.
Qed.

Lemma zero_interval_raises_witness :
  fst (fst (transcribe_file
              {| model_name := "large-v3"; device_name := "cpu";
                 ckpt_base := Some ".checkpoints"; checkpoint_interval := 0;
                 current_checkpoint_data := None |}
              "video.mp4" "abcd1234" 0 false env (audio 3) ∅))
  = None.
Proof.
  apply (zero_interval_raises _ ".checkpoints"); [reflexivity | reflexivity |].
  vm_compute. lia.
Defined.

End Zero_interval.

Section Progress_of_a_run.
Import Json FS Spec Whisper Scenario.

Lemma update_processed (now s : Q) (t t' : ProgressTracker) :
  update now s t = Some t' ->
  processed_duration t' = (processed_duration t + s)%Q
  /\ total_duration t' = total_duration t.
Proof.
  unfold update. destruct (pbar t); [|destruct (Qeq_bool _ 0); [discriminate|]];
    intros [= <-]; split; reflexivity.
Qed.

Lemma loop_body_tracker (cm : option CheckpointManager) (env : Env) (offset : Q)
    (raw : list RawSegment) (i : nat) (seg : RawSegment) (st : LoopState) :
  tracker_ok (ls_tracker st) -> interval_ok cm (ls_self st) ->
  exists st', loop_body cm env offset 0 raw i seg st = Running st'
    /\ tracker_ok (ls_tracker st') /\ interval_ok cm (ls_self st')
    /\ total_duration (ls_tracker st') = total_duration (ls_tracker st)
    /\ processed_duration (ls_tracker st')
       = match i with
         | O => processed_duration (ls_tracker st)
         | S j => (processed_duration (ls_tracker st) + (rs_end seg - end_at raw j))%Q
         end.
Proof.
  intros Htr Hint. unfold loop_body.
  replace (Z.of_nat i <? 0) with false by (symmetry; apply Z.ltb_ge; lia).
  assert (Hup : exists tr,
             match i with
             | O => Some (ls_tracker st)
             | S j => update (time_at env (2 + i))
                        (rs_end seg - match raw !! j with Some p => rs_end p | None => 0%Q end)%Q
                        (ls_tracker st)
             end = Some tr /\ tracker_ok tr
             /\ total_duration tr = total_duration (ls_tracker st)
             /\ processed_duration tr
                = match i with
                  | O => processed_duration (ls_tracker st)
                  | S j => (processed_duration (ls_tracker st) + (rs_end seg - end_at raw j))%Q
                  end).
  { destruct i; [eauto|].
    destruct (update_ok (time_at env (2 + S i)) (rs_end seg - end_at raw i)%Q _ Htr)
      as (tr & Hu & Hok).
    exists tr. destruct (update_processed _ _ _ _ Hu) as [Hp Ht]. auto. }
  destruct Hup as (tr & Hup & Htr' & Htot & Hproc).
  destruct (ls_batcher st) as [b|]; [destruct (add_segment _ b _) as [b' d']|];
    rewrite Hup; (destruct cm as [m|]; [|eexists; split; [reflexivity|]; cbn; auto]);
    (destruct Hint as [Hint|Hint]; [discriminate|]);
    rewrite (proj2 (Z.eqb_neq _ _) Hint);
    destruct (_ =? 0); eexists; (split; [reflexivity|]); cbn;
    (split; [exact Htr'|]); (split; [right; exact Hint | split; assumption]).
Qed.

Lemma run_loop_tracker (cm : option CheckpointManager) (env : Env) (offset : Q)
    (raw todo : list RawSegment) :
  forall (i : nat) (st : LoopState),
  (forall k seg, todo !! k = Some seg -> raw !! (S i + k)%nat = Some seg) ->
  tracker_ok (ls_tracker st) -> interval_ok cm (ls_self st) ->
  exists st', run_loop cm env offset 0 raw (S i) todo st = Running st'
    /\ total_duration (ls_tracker st') = total_duration (ls_tracker st)
    /\ (processed_duration (ls_tracker st')
        == processed_duration (ls_tracker st)
           + (end_at raw (i + length todo) - end_at raw i))%Q.
Proof.
  induction todo as [|seg todo IH]; intros i st Hraw Htr Hint.
  - exists st. split; [reflexivity|]. split; [reflexivity|].
    cbn [length]. rewrite Nat.add_0_r. ring.
  - cbn [run_loop].
    destruct (loop_body_tracker cm env offset raw (S i) seg st Htr Hint)
      as (st1 & -> & Htr1 & Hint1 & Htot1 & Hproc1).
    destruct (IH (S i) st1) as (st2 & Hrun & Htot2 & Hproc2); [|exact Htr1|exact Hint1|].
    { intros k s Hk. replace (S (S i) + k)%nat with (S i + S k)%nat by lia.
      apply Hraw, Hk. }
    exists st2. split; [exact Hrun|]. split; [congruence|].
    rewrite Hproc2, Hproc1. cbn [length].
    replace (i + S (length todo))%nat with (S i + length todo)%nat by lia.
    assert (Hend : end_at raw (S i) = rs_end seg).
    { unfold end_at. rewrite <- (Nat.add_0_r (S i)), (Hraw 0%nat seg eq_refl). reflexivity. }
    rewrite Hend. ring.
Qed.

(** The progress of a run never counts its first segment: in a run that
    starts afresh and that no exception ends, the tracker is made for the
    end of the last segment, and the durations handed to [update] add up to
    the end of the last segment less the end of the first.  So the progress
    ends below the total whenever the first segment ends after second
    zero. *)
Theorem progress_skips_first_segment (self : WhisperTranscriber) (name hash : string)
    (offset : Q) (env : Env) (result : WhisperResult) (d : disk)
    (first last_seg : RawSegment) :
  let raw := wr_segments result in
  let p := prepare self hash false env d in
  raw !! 0%nat = Some first -> last raw = Some last_seg ->
  (show_bar env = true \/ ~ (rs_end last_seg == 0)%Q) ->
  (ckpt_base self = None \/ checkpoint_interval self <> 0) ->
  exists st,
    run_loop (p_manager p) env offset (p_resume_from p) raw 0 raw
      (initial_state self name hash offset env result p) = Running st
    /\ total_duration (ls_tracker st) = rs_end last_seg
    /\ (processed_duration (ls_tracker st) == rs_end last_seg - rs_end first)%Q.
Proof.
  intros raw p Hfirst Hlast Hbar Hint.
  assert (Hr : p_resume_from p = 0).
  { unfold p, prepare. destruct (ckpt_base self); reflexivity. }
  rewrite Hr. set (st0 := initial_state self name hash offset env result p).
  assert (Htot0 : total_duration (ls_tracker st0) = rs_end last_seg).
  { cbn. fold raw. rewrite Hlast. reflexivity. }
  assert (Htr0 : tracker_ok (ls_tracker st0)).
  { unfold tracker_ok. rewrite Htot0. destruct Hbar as [Hb|Hb]; [left; exact Hb|right].
    destruct (Qeq_bool _ 0) eqn:E; [|reflexivity].
    apply Qeq_bool_iff in E. contradiction. }
  assert (Hint0 : interval_ok (p_manager p) (ls_self st0)).
  { apply prepare_interval. exact Hint. }
  destruct raw as [|seg0 rest] eqn:Eraw; [discriminate Hfirst|].
  injection Hfirst as ->. cbn [run_loop].
  destruct (loop_body_tracker (p_manager p) env offset (first :: rest) 0 first st0 Htr0 Hint0)
    as (st1 & -> & Htr1 & Hint1 & Htot1 & Hproc1).
  destruct (run_loop_tracker (p_manager p) env offset (first :: rest) rest 0 st1)
    as (st2 & Hrun & Htot2 & Hproc2); [|exact Htr1|exact Hint1|].
  { intros k s Hk. exact Hk. }
  exists st2. split; [exact Hrun|]. split; [congruence|].
  rewrite Hproc2, Hproc1. cbn [Nat.add].
  assert (Hend : end_at (first :: rest) (length rest) = rs_end last_seg).
  { unfold end_at. rewrite last_lookup in Hlast. cbn [length Nat.pred] in Hlast.
    rewrite Hlast. reflexivity. }
  rewrite Hend. unfold end_at. cbn [lookup list_lookup].
  change (processed_duration (ls_tracker st0)) with 0%Q. ring.
Qed.

Lemma progress_skips_first_segment_witness :
  exists st,
    run_loop (Some manager) env 0 0 (wr_segments (audio 4)) 0 (wr_segments (audio 4))
      (initial_state transcriber "video.mp4" "abcd1234" 0 env (audio 4)
         (prepare transcriber "abcd1234" false env ∅)) = Running st
    /\ total_duration (ls_tracker st) = 4%Q
    /\ (processed_duration (ls_tracker st) == 3)%Q.
Proof.
  destruct (progress_skips_first_segment transcriber "video.mp4" "abcd1234" 0 env (audio 4) ∅
              (raw 0) (raw 3)) as (st & Hrun & Htot & Hproc).
  - reflexivity.
  - reflexivity.
  - left. reflexivity.
  - right. discriminate.
  - exists st. split; [exact Hrun|]. split; [exact Htot|]. rewrite Hproc. reflexivity.
Defined.

End Progress_of_a_run.
